(* ===== verification/_CoqProject ===== *)
-Q . S2P
Prelude.v
Platform.v
Csr.v
Mmio.v
Clint.v
Barrier.v
StringLib.v
Uart.v
Console.v
Mailbox.v
MailboxSpec.v
SmpCopy.v
Trap.v
