(* ===== verification/Prelude.v ===== *)
(** * tCore SBI firmware: the inter-hart signalling subsystem in Rocq

    The program ([src/sbi]) is the machine-mode firmware of a five-hart
    RISC-V core.  At boot every hart runs the barrier of
    [include/smp.h]; the primary (hart 0) then runs [main] and
    [test_ipi] of [main.c], the secondaries run [other_main].  The
    harts talk through two shared resources: the CLINT's per-hart
    [msip] words (the software-interrupt bits, driven by
    [devices/clint/clint.c] through the fenced accessors of
    [include/io.h]) and the mailbox page at [SMP_ADDR].  The primary
    reads a target hart and a message on the UART console
    ([libs/console.c] over [devices/uart/uart.c]), copies the message
    to the mailbox with [memcpy] ([libs/string.c]), raises the
    target's [msip] and waits for its own; the target wakes in
    [wait_ipi], prints the mailbox and raises hart 0's [msip].
    [trap/trap.h] describes the frame a trap entry saves.

    ** Files (in dependency order) and what they model

    - [Prelude]: [wrap w x = x mod 2^w] for [w]-bit C integers (the
      notations [u8[_]], [u32[_]], [u64[_]] in [tcore_scope]), total
      function update [fupd] for per-hart state, [rtc_invariant] (an
      invariant of a step relation holds of everything reachable), the
      [tcore] hint databases and tactics.
    - [Platform]: one definition per macro of [common.h], [riscv.h],
      [mem.h], [smp.h] and [clint.h]: the memory map (its regions are
      pairwise apart, the mailbox is in DRAM), the [mstatus] and
      [sstatus] fields (pairwise apart), the CLINT's per-hart offset
      tables (they agree with [CLINT_SOFT], in [Clint]), [BIT_MASK] and
      [BIT_WORD].
    - [Csr]: one hart's CSR file ([mstatus], [mie], [mip], [mhartid])
      and the macros [read_csr] .. [clear_csr] of [riscv.h]; the
      critical-section helpers [__intr_save]/[__intr_restore] of
      [console.c], which no code calls.
    - [Mmio]: the machine [mach] = byte memory ([gmap Z Z]) and the
      trace of loads, stores and fences; [__raw_read]/[__raw_write],
      the fences [__io_br] .. [__io_aw] and [readX]/[writeX] of
      [io.h].  [fenced] is the ordering contract: every store preceded
      by [fence w,o], every load followed by [fence i,r].
    - [Clint]: the static [clint_base] and the shared machine as
      [clint_st]; every function of [clint.c].  The register-file view
      [clint_abs] with [abs_exec] is the abstract specification.
    - [Barrier]: [smp_pause]/[smp_resume] as an interleaving transition
      system [bstep] over five harts (per hart: label, [reg1], [mie]);
      one step runs the instructions between two labels, with at most
      one CLINT access.  [wfi] returns when the hart's software
      interrupt is pending and enabled, and, by a second rule of
      [bstep], at any other time as well (the architecture allows a
      spurious return).  Module [Disable]: [smp_disable] per hart.
    - [StringLib]: [strlen], [memset], [memcpy], [memmove], [memcmp]
      over the byte memory; [load_list]/[store_list] are the reference.
    - [Uart]: the statics of [uart.c] as [uart_st], the SiFive device
      (transmit output, busy count, receive FIFO, registers) as
      [uart_dev], and every function of [uart.c].
    - [Console]: [getchar] and [readline] with its static buffer at an
      address [buf] of the byte memory; [edit] is the line editor the
      loop implements.
    - [Mailbox]: [main], [test_ipi], [other_main], [wait_ipi] as the
      interleaving system [mstep]: a world holds each hart's label and
      locals, the CLINT state and the UART; one step is one statement
      of [main.c] (one byte per step in the loops of [memcpy] and
      [uart_puts(SMP_ADDR)]); [wfi] returns when the hart's [msip] is
      set and enabled, or spuriously ([wfi_spurious], a second rule of
      [mstep]).
    - [MailboxSpec]: the specification's channel ([chan], [cstep]:
      send to a target, receive on it, acknowledge) and the refinement
      of [Mailbox] into it: [mlabel] names the events of the steps,
      [abs_chan] reads the channel state off a world.
    - [SmpCopy]: [smp_memcpy] of [main.c] through [readb]/[writeb].
    - [Trap]: [struct trap_regs], [struct trap_info] and their field
      offsets, the register numbers [REG_*], the [IRQ_*]/[CAUSE_*]
      codes.

    ** What the theorems show

    - Mailbox: in every reachable world of the five-hart system, a
      secondary about to acknowledge is the primary's target and has
      printed exactly the C string of the primary's line buffer
      ([mailbox_delivery]); at most one secondary owns the mailbox, and
      none while the primary copies ([mailbox_exclusive]); a schedule
      loses a raise and leaves the primary waiting in [wait_ipi] for
      ever, whatever the harts do next ([lost_ipi_deadlock]).  The
      proofs go through one record invariant [minv] preserved by every
      step, spurious returns from [wfi] included.
      On top of [minv], a forward simulation shows that the events of
      every execution form a run of the specification's channel
      ([mailbox_refines_channel]).
    - Barrier: the invariant [binv] of every reachable configuration
      gives the rendezvous, that no hart gets past its wait loop before
      it is raised (the re-test of [mip] after [wfi] is what ensures
      it) and that no reachable configuration is stuck while a hart is
      inside; a
      round-robin run brings every hart out; [smp_disable] lets only
      hart 0 on.
    - CLINT: refinement of the register-file specification for every
      call sequence, send/clear/check round trips,
      the hart-id bound, fenced traces, the [mtime] reading.
    - Strings and console: [memmove]/[memcpy]/[smp_memcpy] against the
      snapshot copy, [memcmp], [strlen]; [readline] refines [edit],
      writes only its buffer and never returns [NULL]; [getchar]
      blocks while nothing is received.
    - UART: termination of the transmit wait, [getc], the hexadecimal
      round trip, the divisor computation (least divisor),
      [uart_init].
    - CSRs: [__intr_save] clears exactly [MSTATUS_MIE] and reports
      whether it was set; nested critical sections restore [mstatus].

    ** Bounds and fuel

    Integers are kept at their C width with [wrap].  Loops that wait
    on a device take fuel: [uart_wait_tx] needs [tx_busy + 1] polls
    ([uart_putc_correct] proves it suffices); [getchar] and
    [readline] get one iteration per received byte plus one
    ([S (length rx)]), enough because each iteration consumes a byte
    and the line ends at the first newline; [strlen] on a [readline]
    line gets [BUFSIZE] iterations, enough since the line is shorter
    ([readline_strlen_bounded]).  Where no byte is received, [getchar]
    returns [None] for every fuel ([getchar_blocks]): it hangs.

    ** Not modelled

    Macros no code uses and that constrain nothing it does: [PRV_*],
    [VM_*], [DEFAULT_RSTVEC] and its neighbours, [EXT_IO_BASE], the
    32-bit [*32_SD] and [MCAUSE32_*], [MODE_PREFIX], [DEC_*] and
    [UART_REG_IP] of [uart.h], [WHITESPACE] of [console.h], and the
    integer type macros of [common.h] (the model gives each variable
    its width directly).  The prototypes of [string.h] that
    [string.c] does not define have no code to model.

    No trap is taken: the trap entry/exit assembly that would save
    and restore [struct trap_regs] is not under [src], [trap_handler]
    of [main.c] is empty, [trap_redirect] is declared and never
    defined, and nothing decodes [mcause]; [Trap] keeps the layout and
    the codes only.
    The protocol files keep only the CSRs they need in the hart state:
    [set_csr(mie, MIP_MSIP)] is [Z.lor] on the hart's [mie],
    [read_csr(mip)] is [read_mip] of the CLINT word, and
    [read_csr(mhartid)] is the hart's index.  Of the CSR architecture
    [Csr] models only the registers the code names.  Memory is sequentially consistent: the fences
    are recorded in the trace and checked against the contract, but no
    weak-memory reordering is modelled.  A UART call of [puts] is one
    step of the interleaving, so output is interleaved per call. *)

From Stdlib Require Export ZArith Lia.
From stdpp Require Export base gmap list relations.

Open Scope Z_scope.

Declare Scope tcore_scope.
Delimit Scope tcore_scope with tc.

Create HintDb tcore discriminated.
Create Rewrite HintDb tcore_rw.

(** ** Machine integers

    A [w]-bit unsigned C integer is a [Z] reduced modulo [2^w]; every
    arithmetic operation of the C code that can wrap is written with
    [wrap] around it. *)

Definition wrap (w x : Z) : Z := x mod 2 ^ w.

Notation "'u8[' x ']'" := (wrap 8 x) (format "u8[ x ]") : tcore_scope.
Notation "'u32[' x ']'" := (wrap 32 x) (format "u32[ x ]") : tcore_scope.
Notation "'u64[' x ']'" := (wrap 64 x) (format "u64[ x ]") : tcore_scope.

Open Scope tcore_scope.

Lemma wrap_range w x : 0 <= w -> 0 <= wrap w x < 2 ^ w.
Proof. intros. unfold wrap. apply Z.mod_pos_bound. lia. Qed.

Lemma wrap_small w x : 0 <= x < 2 ^ w -> wrap w x = x.
Proof. intros. unfold wrap. apply Z.mod_small. lia. Qed.

Lemma wrap64_small x : 0 <= x < 18446744073709551616 -> u64[x] = x.
Proof. intros. apply wrap_small. change (2 ^ 64) with 18446744073709551616. lia. Qed.

Lemma wrap_idem w x : 0 <= w -> wrap w (wrap w x) = wrap w x.
Proof. intros. apply wrap_small, wrap_range. lia. Qed.

Lemma wrap_testbit w x i :
  0 <= w -> Z.testbit (wrap w x) i = (i <? w) && Z.testbit x i.
Proof. intros. unfold wrap. apply Z.testbit_mod_pow2. lia. Qed.

Lemma wrap_idem_le w w' x : 0 <= w <= w' -> wrap w (wrap w' x) = wrap w x.
Proof.
  intros. apply Z.bits_inj'. intros i Hi. rewrite !wrap_testbit by lia.
  destruct (Z.ltb_spec i w), (Z.ltb_spec i w'); simpl; lia || done.
Qed.

(** A value below [2^n] has bit [n] clear. *)
Lemma land_pow2_small a n : 0 <= n -> 0 <= a < 2 ^ n -> Z.land a (2 ^ n) = 0.
Proof.
  intros Hn Ha. apply Z.bits_inj'. intros m Hm. rewrite Z.land_spec, Z.pow2_bits_eqb by lia.
  rewrite Z.bits_0. destruct (Z.eqb_spec n m); [subst|rewrite Bool.andb_false_r; reflexivity].
  rewrite <- (Z.mod_small a (2^m)) by lia. rewrite Z.mod_pow2_bits_high by lia. reflexivity.
Qed.

(** Splitting a remainder by a product: the digit decomposition. *)
Lemma mod_mul_split a b c : 0 < b -> 0 < c -> a mod (b * c) = a mod b + b * ((a / b) mod c).
Proof.
  intros Hb Hc. rewrite (Z.mod_eq a (b*c)) by lia. rewrite <- Z.div_div by lia.
  rewrite (Z.mod_eq a b), (Z.mod_eq (a/b) c) by lia. ring.
Qed.

#[export] Hint Resolve wrap_range : tcore.
#[export] Hint Rewrite wrap_idem using lia : tcore_rw.

(** ** Total maps indexed by hart id

    Per-hart state (control location, CSRs) is a total function from
    hart ids; [fupd] is the update of one entry. *)

Definition fupd {A} (f : nat -> A) (k : nat) (v : A) : nat -> A :=
  fun j => if decide (j = k) then v else f j.

Lemma fupd_eq {A} (f : nat -> A) k v : fupd f k v k = v.
Proof. unfold fupd. by rewrite decide_True. Qed.

Lemma fupd_ne {A} (f : nat -> A) k j v : j <> k -> fupd f k v j = f j.
Proof. intros. unfold fupd. by rewrite decide_False. Qed.

#[export] Hint Rewrite @fupd_eq : tcore_rw.

(** ** Lists of per-hart values

    A per-hart register file read out as [f <$> seq 0 n]; changing one
    hart's value is a list [insert]. *)

Lemma fmap_seq_ext {A} (f g : nat -> A) n :
  (forall i, (i < n)%nat -> g i = f i) -> g <$> seq 0 n = f <$> seq 0 n.
Proof.
  intros Hg. apply list_eq. intros i. rewrite !list_lookup_fmap.
  destruct (decide (i < n)%nat).
  - assert (seq 0 n !! i = Some i) as -> by (apply lookup_seq; lia).
    simpl. by rewrite Hg.
  - by rewrite lookup_seq_ge by lia.
Qed.

Lemma fmap_seq_insert {A} (f g : nat -> A) n h v :
  (h < n)%nat -> (forall i, (i < n)%nat -> g i = if decide (i = h) then v else f i) ->
  g <$> seq 0 n = <[h := v]> (f <$> seq 0 n).
Proof.
  intros Hh Hg. apply list_eq. intros i.
  rewrite list_lookup_insert, !list_lookup_fmap, length_fmap, length_seq.
  destruct (decide (i < n)%nat).
  - assert (seq 0 n !! i = Some i) as -> by (apply lookup_seq; lia).
    simpl. rewrite Hg by done. repeat case_decide; naive_solver.
  - rewrite lookup_seq_ge by lia. simpl. case_decide; [lia|done].
Qed.

(** ** Invariants of transition systems

    Reachability is stdpp's reflexive transitive closure [rtc]; an
    inductive invariant holds of every reachable state. *)

Section Invariants.
Context {S : Type} (step : relation S) (I : S -> Prop).
Hypothesis I_step : forall s s', I s -> step s s' -> I s'.

Lemma rtc_invariant s s' : I s -> rtc step s s' -> I s'.
Proof. intros Hs Hr. induction Hr; eauto. Qed.
End Invariants.

(** ** Tactics *)

Ltac invc H := inversion H; subst; clear H.

(** [tc_simpl] rewrites with the development's equations and
    [fupd] lookups, then tries the arithmetic closers. *)
Ltac tc_simpl :=
  repeat first [ rewrite fupd_eq | rewrite fupd_ne by lia
               | progress autorewrite with tcore_rw in * ].
