(* ===== verification/Platform.v ===== *)
(** * Platform constants

    The fixed configuration of the firmware, as the headers
    [include/common.h], [include/riscv.h], [include/mem.h],
    [include/smp.h] and [devices/clint/clint.h] define it: the memory
    map (CLINT, UART0, the shared SMP mailbox), the hart count, the
    register strides of the CLINT, and the CSR bit masks the
    signalling code uses.  Each macro is one definition of the same
    name; the lemmas give their values and the disjointness of the
    memory map. *)

From S2P Require Import Prelude.

(** ** [include/common.h] *)

Definition XLEN : Z := 8.
Definition BITS : Z := 64.

(** [BIT(nr)] is [1UL << nr]: a 64-bit shift. *)
Definition BIT (nr : Z) : Z := u64[Z.shiftl 1 nr].

(** [BIT_MASK(nr)], [BIT_WORD(bit)]: the mask and the word index of
    bit [nr] of a bitmap of 64-bit words (for [nr >= 0], where C's [%]
    and [/] are [Z.modulo] and [Z.div]). *)
Definition BIT_MASK (nr : Z) : Z := u64[Z.shiftl 1 (nr mod BITS)].
Definition BIT_WORD (bit : Z) : Z := bit / BITS.

Definition LOG_STACK_SIZE : Z := 14.
Definition STACK_SIZE : Z := u64[Z.shiftl 1 LOG_STACK_SIZE].

(** ** [include/riscv.h] *)

Definition REG_NUM : nat := 32.

Definition MSTATUS_UIE : Z := 1.
Definition MSTATUS_SIE : Z := 2.
Definition MSTATUS_HIE : Z := 4.
Definition MSTATUS_MIE : Z := 8.
Definition MSTATUS_UPIE : Z := 16.                (* 0x10 *)
Definition MSTATUS_SPIE : Z := 32.                (* 0x20 *)
Definition MSTATUS_HPIE : Z := 64.                (* 0x40 *)
Definition MSTATUS_MPIE : Z := 128.               (* 0x80 *)
Definition MSTATUS_SPP : Z := 256.                (* 0x100 *)
Definition MSTATUS_HPP : Z := 1536.               (* 0x600 *)
Definition MSTATUS_MPP : Z := 6144.               (* 0x1800 *)
Definition MSTATUS_FS : Z := 24576.               (* 0x6000 *)
Definition MSTATUS_XS : Z := 98304.               (* 0x18000 *)
Definition MSTATUS_MPRV : Z := 131072.            (* 0x20000 *)
Definition MSTATUS_PUM : Z := 262144.             (* 0x40000 *)
Definition MSTATUS_VM : Z := 520093696.           (* 0x1F000000 *)
Definition MSTATUS64_SD : Z := 9223372036854775808.

Definition SSTATUS_UIE : Z := 1.
Definition SSTATUS_SIE : Z := 2.
Definition SSTATUS_UPIE : Z := 16.
Definition SSTATUS_SPIE : Z := 32.
Definition SSTATUS_SPP : Z := 256.
Definition SSTATUS_FS : Z := 24576.
Definition SSTATUS_XS : Z := 98304.
Definition SSTATUS_PUM : Z := 262144.
Definition SSTATUS64_SD : Z := 9223372036854775808.
Definition MCAUSE64_CAUSE : Z := 9223372036854775807.
Definition MCAUSE64_INT : Z := 9223372036854775808.

Definition IRQ_M_SOFT : Z := 3.
Definition IRQ_M_TIMER : Z := 7.
Definition MIP_SSIP : Z := BIT 1.                 (* BIT(IRQ_S_SOFT) *)
Definition MIP_MSIP : Z := BIT IRQ_M_SOFT.
Definition MIP_STIP : Z := BIT 5.                 (* BIT(IRQ_S_TIMER) *)
Definition MIP_MTIP : Z := BIT IRQ_M_TIMER.
Definition MIP_SEIP : Z := BIT 9.                 (* BIT(IRQ_S_EXT) *)
Definition MIP_MEIP : Z := BIT 11.                (* BIT(IRQ_M_EXT) *)
Definition SIP_SSIP : Z := MIP_SSIP.
Definition SIP_STIP : Z := MIP_STIP.

Definition DRAM_BASE : Z := 2147483648.           (* 0x80000000 *)

(** ** [include/mem.h] *)

Definition CLINT_CTRL_ADDR : Z := 33554432.      (* 0x2000000 *)
Definition CLINT_CTRL_SIZE : Z := 65536.         (* 0x10000 *)
Definition UART0_ADDR : Z := 268500992.          (* 0x10010000 *)
Definition UART0_SIZE : Z := 4096.               (* 0x1000 *)
Definition UART1_ADDR : Z := 268505088.          (* 0x10011000 *)
Definition UART1_SIZE : Z := 4096.               (* 0x1000 *)
Definition DTIM_ADDR : Z := 268435456.           (* 0x010000000 *)
Definition DTIM_SIZE : Z := 8192.                (* 0x2000 *)
Definition SMP_ADDR : Z := 2148532224.           (* 0x80100000 *)
Definition SMP_SIZE : Z := 4096.                 (* 0x1000 *)

(** ** [devices/clint/clint.h] *)

Definition CLINT_MSIP_OFFSET : Z := 0.
Definition CLINT_MTIMECMP_OFFSET : Z := 16384.   (* 0x4000 *)
Definition CLINT_MTIME_OFFSET : Z := 49144.      (* 0xbff8 *)
(** The per-hart offsets of the header. *)
Definition CLINT_MSIP0_OFFSET : Z := 0.
Definition CLINT_MSIP1_OFFSET : Z := 4.
Definition CLINT_MSIP2_OFFSET : Z := 8.
Definition CLINT_MSIP3_OFFSET : Z := 12.          (* 0x000c *)
Definition CLINT_MSIP4_OFFSET : Z := 16.          (* 0x0010 *)
Definition CLINT_MTIMECMP0_OFFSET : Z := 16384.   (* 0x4000 *)
Definition CLINT_MTIMECMP1_OFFSET : Z := 16392.   (* 0x4008 *)
Definition CLINT_MTIMECMP2_OFFSET : Z := 16400.   (* 0x4010 *)
Definition CLINT_MTIMECMP3_OFFSET : Z := 16408.   (* 0x4018 *)
Definition CLINT_MTIMECMP4_OFFSET : Z := 16416.   (* 0x4020 *)

Definition clint_msip_offsets : list Z :=
  [CLINT_MSIP0_OFFSET; CLINT_MSIP1_OFFSET; CLINT_MSIP2_OFFSET; CLINT_MSIP3_OFFSET; CLINT_MSIP4_OFFSET].
Definition clint_mtimecmp_offsets : list Z :=
  [CLINT_MTIMECMP0_OFFSET; CLINT_MTIMECMP1_OFFSET; CLINT_MTIMECMP2_OFFSET;
   CLINT_MTIMECMP3_OFFSET; CLINT_MTIMECMP4_OFFSET].

Definition CLINT_MSIP_SIZE : Z := 4.
Definition CLINT_MTIMECMP_SIZE : Z := 8.

(** ** [include/smp.h] *)

Definition MAX_HARTS : nat := 5.
Definition ZERO_HART : nat := 0.

(** [CLINT_END_HART_IPI]: one past the last [msip] register. *)
Definition CLINT_END_HART_IPI : Z :=
  CLINT_CTRL_ADDR + (Z.of_nat MAX_HARTS * CLINT_MSIP_SIZE).

(** ** Values and the memory map *)

Lemma MIP_MSIP_eq : MIP_MSIP = 8.
Proof. reflexivity. Qed.

Lemma CLINT_END_HART_IPI_eq : CLINT_END_HART_IPI = CLINT_CTRL_ADDR + 20.
Proof. reflexivity. Qed.

(** The three regions the firmware touches do not overlap. *)
Definition in_region (base size a : Z) : Prop := base <= a < base + size.

Lemma regions_disjoint a :
  (in_region CLINT_CTRL_ADDR CLINT_CTRL_SIZE a -> ~ in_region SMP_ADDR SMP_SIZE a
     /\ ~ in_region UART0_ADDR UART0_SIZE a)
  /\ (in_region SMP_ADDR SMP_SIZE a -> ~ in_region UART0_ADDR UART0_SIZE a).
Proof.
  unfold in_region, CLINT_CTRL_ADDR, CLINT_CTRL_SIZE, SMP_ADDR, SMP_SIZE,
    UART0_ADDR, UART0_SIZE. lia.
Qed.

(** The regions of [mem.h] as (base, size): CLINT, UART0, UART1, DTIM
    and the mailbox page. *)
Definition mem_regions : list (Z * Z) :=
  [(CLINT_CTRL_ADDR, CLINT_CTRL_SIZE); (UART0_ADDR, UART0_SIZE); (UART1_ADDR, UART1_SIZE);
   (DTIM_ADDR, DTIM_SIZE); (SMP_ADDR, SMP_SIZE)].

Definition regions_apart (r1 r2 : Z * Z) : bool := bool_decide (r1.1 + r1.2 <= r2.1 \/ r2.1 + r2.2 <= r1.1).

Fixpoint pairwise_apart (rs : list (Z * Z)) : bool :=
  match rs with
  | [] => true
  | r :: rs' => forallb (regions_apart r) rs' && pairwise_apart rs'
  end.

Lemma regions_apart_spec r1 r2 a :
  regions_apart r1 r2 = true -> in_region r1.1 r1.2 a -> ~ in_region r2.1 r2.2 a.
Proof. unfold regions_apart, in_region. rewrite bool_decide_eq_true. lia. Qed.

(** Pairwise apart regions share no address. *)
Lemma pairwise_apart_spec rs i j r1 r2 a :
  pairwise_apart rs = true -> i <> j -> rs !! i = Some r1 -> rs !! j = Some r2 ->
  in_region r1.1 r1.2 a -> ~ in_region r2.1 r2.2 a.
Proof.
  revert i j. induction rs as [|r rs IH]; intros i j Hp Hij Hi Hj; [done|].
  cbn [pairwise_apart] in Hp. apply andb_prop in Hp as [Hf Hp].
  pose proof (proj1 (forallb_forall _ _) Hf) as Hall.
  destruct i as [|i], j as [|j]; simplify_eq/=.
  - apply regions_apart_spec, Hall, list_elem_of_In, (list_elem_of_lookup_2 _ j), Hj.
  - intros Ha Hb. apply (regions_apart_spec r2 r1 a); [|done|done].
    apply Hall, list_elem_of_In, (list_elem_of_lookup_2 _ i), Hi.
  - apply (IH i j); auto.
Qed.

Lemma mem_regions_apart : pairwise_apart mem_regions = true.
Proof. vm_compute. reflexivity. Qed.

(** The mailbox page is in DRAM, not in the DTIM. *)
Lemma smp_in_dram :
  DRAM_BASE <= SMP_ADDR /\ (SMP_ADDR + SMP_SIZE <= DTIM_ADDR \/ DTIM_ADDR + DTIM_SIZE <= SMP_ADDR).
Proof. unfold DRAM_BASE, SMP_ADDR, SMP_SIZE, DTIM_ADDR, DTIM_SIZE. lia. Qed.

(** ** Bit fields *)

(** [BIT_MASK] and [BIT_WORD] locate bit [nr]: word [BIT_WORD nr],
    bit [nr mod BITS] of it. *)
Lemma BIT_MASK_WORD nr :
  0 <= nr -> BIT_MASK nr = 2 ^ (nr mod BITS) /\ nr = BITS * BIT_WORD nr + nr mod BITS /\ 0 <= nr mod BITS < BITS.
Proof.
  intros Hn. unfold BIT_MASK, BIT_WORD, BITS.
  assert (Hm : 0 <= nr mod 64 < 64) by (apply Z.mod_pos_bound; lia).
  rewrite Z.shiftl_1_l, wrap_small; [|split; [lia|apply Z.pow_lt_mono_r; lia]].
  split; [done|]. split; [apply Z.div_mod; lia|done].
Qed.

Lemma STACK_SIZE_eq : STACK_SIZE = 16384.
Proof. reflexivity. Qed.

(** The fields of [mstatus] on RV64, and of its supervisor view
    [sstatus]. *)
Definition mstatus_fields : list Z :=
  [MSTATUS_UIE; MSTATUS_SIE; MSTATUS_HIE; MSTATUS_MIE; MSTATUS_UPIE; MSTATUS_SPIE; MSTATUS_HPIE;
   MSTATUS_MPIE; MSTATUS_SPP; MSTATUS_HPP; MSTATUS_MPP; MSTATUS_FS; MSTATUS_XS; MSTATUS_MPRV;
   MSTATUS_PUM; MSTATUS_VM; MSTATUS64_SD].

Definition sstatus_fields : list Z :=
  [SSTATUS_UIE; SSTATUS_SIE; SSTATUS_UPIE; SSTATUS_SPIE; SSTATUS_SPP; SSTATUS_FS; SSTATUS_XS;
   SSTATUS_PUM; SSTATUS64_SD].

Fixpoint masks_apart (l : list Z) : bool :=
  match l with
  | [] => true
  | f :: l' => forallb (fun g => Z.land f g =? 0) l' && masks_apart l'
  end.

(** No two fields of [mstatus] share a bit, every field fits in 64
    bits, and every [sstatus] field is the [mstatus] field at the same
    bits. *)
Lemma mstatus_fields_apart :
  masks_apart mstatus_fields = true /\ Forall (fun f => 0 < f < 2 ^ 64) mstatus_fields /\
  Forall (fun f => f ∈ mstatus_fields) sstatus_fields.
Proof.
  split; [vm_compute; reflexivity|]. split; repeat constructor; vm_compute; done.
Qed.

(** The writable bits of [mip] are the supervisor ones. *)
Lemma MIP_bits : MIP_SSIP = 2 /\ MIP_STIP = 32 /\ MIP_SEIP = 512 /\ MIP_MEIP = 2048.
Proof. repeat split. Qed.

#[export] Hint Unfold CLINT_CTRL_ADDR CLINT_MSIP_SIZE CLINT_MSIP_OFFSET
  CLINT_MTIMECMP_OFFSET CLINT_MTIMECMP_SIZE CLINT_MTIME_OFFSET
  CLINT_END_HART_IPI SMP_ADDR SMP_SIZE : tcore.

(** [platform_consts] unfolds every address constant, for [lia]. *)
Ltac platform_consts :=
  unfold CLINT_END_HART_IPI, CLINT_CTRL_ADDR, CLINT_CTRL_SIZE,
    CLINT_MSIP_SIZE, CLINT_MSIP_OFFSET, CLINT_MTIMECMP_OFFSET,
    CLINT_MTIMECMP_SIZE, CLINT_MTIME_OFFSET, SMP_ADDR, SMP_SIZE,
    UART0_ADDR, UART0_SIZE, MAX_HARTS, ZERO_HART in *.
