(* ===== verification/Csr.v ===== *)
(** * Control and status registers, [include/riscv.h]; the critical
    sections of [libs/console.c]

    The macros [read_csr], [write_csr], [swap_csr], [set_csr] and
    [clear_csr] are the instructions [csrr], [csrw], [csrrw], [csrrs]
    and [csrrc] on one hart's CSR file, whose registers used by the code
    are [mstatus], [mie], [mip] and [mhartid].  The CSR semantics is
    the privileged architecture's: [mhartid] is read-only (a write
    traps, [None]); in [mip] only the supervisor bits [SSIP], [STIP],
    [SEIP] are writable, the machine bits mirror the CLINT and the
    interrupt lines; [mstatus] and [mie] take the 64-bit value.

    [__intr_save] and [__intr_restore] of [console.c] (the bodies of
    the macros [intr_save]/[intr_restore]) disable machine interrupts
    around a critical section and restore the previous state.  No code
    of the firmware calls them.

    Theorems: [__intr_save] clears [MSTATUS_MIE] and no other bit,
    reporting whether it was set, so every other field of [mstatus]
    survives; nested critical sections restore [mstatus] exactly. *)

From S2P Require Import Prelude Platform.

Inductive csr := mstatus | mie | mip | mhartid.

#[export] Instance csr_eq_dec : EqDecision csr.
Proof. solve_decision. Defined.

Record csr_file := CsrFile { c_mstatus : Z; c_mie : Z; c_mip : Z; c_mhartid : Z }.

Definition csr_get (f : csr_file) (r : csr) : Z :=
  match r with
  | mstatus => c_mstatus f | mie => c_mie f | mip => c_mip f | mhartid => c_mhartid f
  end.

(** [MIP_SSIP | MIP_STIP | MIP_SEIP]: the bits of [mip] a [csrw] writes. *)
Definition MIP_WRITABLE : Z := Z.lor MIP_SSIP (Z.lor MIP_STIP MIP_SEIP).

(** The write of a CSR instruction; [None] is the illegal-instruction
    trap of a write to a read-only register. *)
Definition csr_put (f : csr_file) (r : csr) (v : Z) : option csr_file :=
  match r with
  | mstatus => Some (CsrFile v (c_mie f) (c_mip f) (c_mhartid f))
  | mie => Some (CsrFile (c_mstatus f) v (c_mip f) (c_mhartid f))
  | mip => Some (CsrFile (c_mstatus f) (c_mie f)
                   (Z.lor (Z.land (c_mip f) (Z.lnot MIP_WRITABLE)) (Z.land v MIP_WRITABLE)) (c_mhartid f))
  | mhartid => None
  end.

(** [read_csr(r)]: [csrr v, r]. *)
Definition read_csr (r : csr) (f : csr_file) : Z := csr_get f r.

(** [write_csr(r, val)]: [csrw r, val]. *)
Definition write_csr (r : csr) (v : Z) (f : csr_file) : option csr_file := csr_put f r u64[v].

(** [swap_csr(r, val)]: [csrrw tmp, r, val]; the old value. *)
Definition swap_csr (r : csr) (v : Z) (f : csr_file) : option (Z * csr_file) :=
  f' ← csr_put f r u64[v]; Some (csr_get f r, f').

(** [set_csr(r, bit)]: [csrrs tmp, r, bit]. *)
Definition set_csr (r : csr) (bit : Z) (f : csr_file) : option (Z * csr_file) :=
  f' ← csr_put f r (Z.lor (csr_get f r) u64[bit]); Some (csr_get f r, f').

(** [clear_csr(r, bit)]: [csrrc tmp, r, bit]. *)
Definition clear_csr (r : csr) (bit : Z) (f : csr_file) : option (Z * csr_file) :=
  f' ← csr_put f r (Z.land (csr_get f r) (Z.lnot u64[bit])); Some (csr_get f r, f').

(** ** [console.c] *)

(** [__intr_save()]: clear [MSTATUS_MIE] if it is set; 1 when it was. *)
Definition __intr_save (f : csr_file) : option (Z * csr_file) :=
  let st := read_csr mstatus f in
  if decide (Z.land st MSTATUS_MIE <> 0) then
    '(_, f') ← clear_csr mstatus MSTATUS_MIE f; Some (1, f')
  else Some (0, f).

(** [__intr_restore(flag)]: set [MSTATUS_MIE] back if [flag]. *)
Definition __intr_restore (flag : Z) (f : csr_file) : option csr_file :=
  if decide (flag <> 0) then '(_, f') ← set_csr mstatus MSTATUS_MIE f; Some f' else Some f.

(** ** Bit lemmas *)

Lemma MSTATUS_MIE_bits i : Z.testbit MSTATUS_MIE i = (i =? 3).
Proof.
  change MSTATUS_MIE with (2 ^ 3). destruct (Z.ltb_spec i 0).
  - rewrite Z.testbit_neg_r by done. symmetry. apply Z.eqb_neq. lia.
  - rewrite Z.pow2_bits_eqb by lia. apply Z.eqb_sym.
Qed.

Lemma MIE_clear_set st :
  Z.land st MSTATUS_MIE <> 0 -> Z.lor (Z.land st (Z.lnot MSTATUS_MIE)) MSTATUS_MIE = st.
Proof.
  intros H. apply Z.bits_inj'. intros i Hi.
  rewrite Z.lor_spec, Z.land_spec, Z.lnot_spec, MSTATUS_MIE_bits by done.
  destruct (Z.eqb_spec i 3) as [->|]; [|by rewrite andb_true_r, orb_false_r].
  rewrite andb_false_r. simpl. destruct (Z.testbit st 3) eqn:E; [done|].
  exfalso. apply H. apply Z.bits_inj'. intros j Hj.
  rewrite Z.land_spec, MSTATUS_MIE_bits, Z.bits_0.
  destruct (Z.eqb_spec j 3) as [->|]; [by rewrite E|by rewrite andb_false_r].
Qed.

Lemma MIE_cleared st : Z.land (Z.land st (Z.lnot MSTATUS_MIE)) MSTATUS_MIE = 0.
Proof.
  apply Z.bits_inj'. intros i Hi.
  rewrite !Z.land_spec, Z.lnot_spec, MSTATUS_MIE_bits, Z.bits_0 by done.
  by destruct (i =? 3); rewrite ?andb_false_r, ?andb_false_l.
Qed.

Lemma u64_MSTATUS_MIE : u64[MSTATUS_MIE] = MSTATUS_MIE.
Proof. reflexivity. Qed.

(** Clearing [MSTATUS_MIE] keeps a field apart from it. *)
Lemma MIE_clear_field st F :
  Z.land F MSTATUS_MIE = 0 -> Z.land (Z.land st (Z.lnot MSTATUS_MIE)) F = Z.land st F.
Proof.
  intros HF. rewrite <- Z.land_assoc. f_equal. apply Z.bits_inj'. intros i Hi.
  rewrite Z.land_spec, Z.lnot_spec, MSTATUS_MIE_bits by done.
  destruct (Z.eqb_spec i 3) as [->|]; [|apply andb_true_l].
  assert (H3 : Z.testbit (Z.land F MSTATUS_MIE) 3 = false) by (rewrite HF; apply Z.bits_0).
  rewrite Z.land_spec, MSTATUS_MIE_bits in H3. simpl in *. by rewrite andb_true_r in H3.
Qed.

(** ** The critical sections *)

Lemma intr_save_cases f :
  (Z.land (c_mstatus f) MSTATUS_MIE <> 0 /\
   __intr_save f = Some (1, CsrFile (Z.land (c_mstatus f) (Z.lnot MSTATUS_MIE)) (c_mie f) (c_mip f) (c_mhartid f)))
  \/ (Z.land (c_mstatus f) MSTATUS_MIE = 0 /\ __intr_save f = Some (0, f)).
Proof.
  unfold __intr_save, read_csr. cbn [csr_get]. case_decide as H; [left|right]; split; try done; lia.
Qed.

Lemma intr_save_off f : Z.land (c_mstatus f) MSTATUS_MIE = 0 -> __intr_save f = Some (0, f).
Proof. intros H. unfold __intr_save, read_csr. cbn [csr_get]. by case_decide. Qed.

Lemma intr_restore_0 f : __intr_restore 0 f = Some f.
Proof. unfold __intr_restore. by rewrite decide_False by lia. Qed.

(** Restoring with flag 1 sets back the bit [__intr_save] cleared. *)
Lemma intr_restore_1 f :
  Z.land (c_mstatus f) MSTATUS_MIE <> 0 ->
  __intr_restore 1 (CsrFile (Z.land (c_mstatus f) (Z.lnot MSTATUS_MIE)) (c_mie f) (c_mip f) (c_mhartid f))
  = Some f.
Proof.
  intros H. unfold __intr_restore. rewrite decide_True by lia. cbn.
  rewrite MIE_clear_set by done. by destruct f.
Qed.

(** C22: [__intr_save] leaves machine interrupts disabled: it returns 1
    exactly when [MSTATUS_MIE] was set (0 otherwise), clears that bit,
    keeps every other bit of [mstatus] and every other CSR, and never
    traps. *)
Theorem intr_save_disables f :
  exists flag f', __intr_save f = Some (flag, f') /\
    (flag = 1 /\ Z.land (c_mstatus f) MSTATUS_MIE <> 0 \/ flag = 0 /\ Z.land (c_mstatus f) MSTATUS_MIE = 0) /\
    Z.land (c_mstatus f') MSTATUS_MIE = 0 /\
    (forall i, i <> 3 -> Z.testbit (c_mstatus f') i = Z.testbit (c_mstatus f) i) /\
    c_mie f' = c_mie f /\ c_mip f' = c_mip f /\ c_mhartid f' = c_mhartid f.
Proof.
  destruct (intr_save_cases f) as [[H E]|[H E]]; eexists _, _; (split; [exact E|]); cbn.
  - split; [by left|]. split; [apply MIE_cleared|]. split; [|done].
    intros i Hi. destruct (Z.ltb_spec i 0); [by rewrite !Z.testbit_neg_r|].
    rewrite Z.land_spec, Z.lnot_spec, MSTATUS_MIE_bits by lia.
    rewrite (proj2 (Z.eqb_neq i 3) Hi). apply andb_true_r.
  - split; [by right|]. done.
Qed.

(** C21: critical sections nest: [intr_save(x); intr_save(y);
    intr_restore(y); intr_restore(x)] gives back the CSR file it
    started from, whatever [mstatus] held; the inner save reports the
    interrupts already disabled. *)
Theorem intr_nested_restore f :
  ('(x, f1) ← __intr_save f; '(y, f2) ← __intr_save f1; f3 ← __intr_restore y f2; __intr_restore x f3)
  = Some f.
Proof.
  destruct (intr_save_cases f) as [[H ->]|[H ->]]; cbn [mbind option_bind].
  - rewrite intr_save_off by apply MIE_cleared. cbn [mbind option_bind].
    rewrite intr_restore_0. apply intr_restore_1, H.
  - rewrite intr_save_off by done. cbn [mbind option_bind]. rewrite intr_restore_0. apply intr_restore_0.
Qed.
