(* ===== verification/Mmio.v ===== *)
(** * Memory and the ordered device accessors of [include/io.h]

    The physical address space is a byte memory ([gmap Z Z], absent
    bytes read as 0) shared by all harts, together with the trace of
    memory events the harts issue: loads, stores and [fence]
    instructions.  [io.h] defines each accessor [readX]/[writeX] as a
    raw [lX]/[sX] instruction bracketed by the ordering macros
    [__io_br], [__io_ar] ([fence i,r]), [__io_bw] ([fence w,o]) and
    [__io_aw]; they are modelled one definition per macro, generic in
    the access width.

    Theorems: a load after a store at the same address returns the
    stored value truncated to the width (the round trip every device
    register relies on), stores at disjoint addresses do not
    interfere, storing twice is storing once, and every access issued
    through the accessors is fenced the way the ordering contract
    says ([fenced]). *)

From S2P Require Import Prelude Platform.

(** ** Data *)

Inductive width := B8 | B16 | B32 | B64.

Definition width_bytes (w : width) : nat :=
  match w with B8 => 1 | B16 => 2 | B32 => 4 | B64 => 8 end.

Definition width_bits (w : width) : Z := 8 * Z.of_nat (width_bytes w).

(** The access sets of a RISC-V [fence pred, succ]. *)
Inductive access := AccI | AccO | AccR | AccW.

Inductive event :=
| EvFence (pred succ : list access)
| EvLoad (w : width) (a v : Z)
| EvStore (w : width) (a v : Z).

#[export] Instance width_eq_dec : EqDecision width.
Proof. solve_decision. Defined.
#[export] Instance access_eq_dec : EqDecision access.
Proof. solve_decision. Defined.
#[export] Instance event_eq_dec : EqDecision event.
Proof. solve_decision. Defined.

Record mach := Mach { mem : gmap Z Z; trace : list event }.

Definition emit (e : event) (s : mach) : mach := Mach (mem s) (trace s ++ [e]).

(** Little-endian multi-byte access to the byte memory. *)
Fixpoint load_bytes (m : gmap Z Z) (a : Z) (n : nat) : Z :=
  match n with
  | O => 0
  | S n' => Z.lor u8[default 0 (m !! a)] (Z.shiftl (load_bytes m (a + 1) n') 8)
  end.

Fixpoint store_bytes (m : gmap Z Z) (a : Z) (n : nat) (v : Z) : gmap Z Z :=
  match n with
  | O => m
  | S n' => store_bytes (<[a := u8[v]]> m) (a + 1) n' (Z.shiftr v 8)
  end.

(** ** [io.h] *)

(** [__raw_writeX]: [sb]/[sh]/[sw]/[sd]; the C parameter type
    truncates the value to the width. *)
Definition __raw_write (w : width) (v a : Z) (s : mach) : mach :=
  let v' := wrap (width_bits w) v in
  Mach (store_bytes (mem s) a (width_bytes w) v') (trace s ++ [EvStore w a v']).

(** [__raw_readX]: [lb]/[lh]/[lw]/[ld] into an unsigned variable of
    the width, so the value is the zero-extended memory content. *)
Definition __raw_read (w : width) (a : Z) (s : mach) : Z * mach :=
  let v := load_bytes (mem s) a (width_bytes w) in
  (v, emit (EvLoad w a v) s).

Definition __io_br (s : mach) : mach := s.
Definition __io_ar (s : mach) : mach := emit (EvFence [AccI] [AccR]) s.
Definition __io_bw (s : mach) : mach := emit (EvFence [AccW] [AccO]) s.
Definition __io_aw (s : mach) : mach := s.

(** [readX(a)]: [__io_br(); v = __raw_readX(a); __io_ar(); v]. *)
Definition read (w : width) (a : Z) (s : mach) : Z * mach :=
  let '(v, s1) := __raw_read w a (__io_br s) in (v, __io_ar s1).

(** [writeX(v, a)]: [__io_bw(); __raw_writeX(v, a); __io_aw()]. *)
Definition write (w : width) (v a : Z) (s : mach) : mach :=
  __io_aw (__raw_write w v a (__io_bw s)).

Definition readb := read B8.
Definition readw := read B32.
Definition readd := read B64.
Definition writeb := write B8.
Definition writew := write B32.
Definition writed := write B64.

(** ** Byte memory lemmas *)

Lemma wrap_split k v :
  0 <= k ->
  Z.lor u8[v] (Z.shiftl (wrap k (Z.shiftr v 8)) 8) = wrap (k + 8) v.
Proof.
  intros Hk. apply Z.bits_inj'. intros i Hi.
  rewrite Z.lor_spec, !wrap_testbit by lia.
  destruct (Z.ltb_spec i 8).
  - rewrite Z.shiftl_spec_low by lia.
    replace (i <? k + 8) with true by (symmetry; apply Z.ltb_lt; lia).
    by rewrite orb_false_r.
  - rewrite Z.shiftl_spec, wrap_testbit, Z.shiftr_spec by lia.
    replace (i - 8 + 8) with i by lia.
    destruct (Z.ltb_spec (i - 8) k), (Z.ltb_spec i (k + 8)); simpl; lia || done.
Qed.

Lemma store_bytes_lookup_out m a n v x :
  (x < a \/ a + Z.of_nat n <= x) -> store_bytes m a n v !! x = m !! x.
Proof.
  revert m a v. induction n as [|n IH]; intros m a v Hx; [done|].
  simpl. rewrite IH by lia. apply lookup_insert_ne. lia.
Qed.

Lemma store_bytes_lookup_in m a n v x :
  a <= x < a + Z.of_nat n ->
  store_bytes m a n v !! x = Some u8[Z.shiftr v (8 * (x - a))].
Proof.
  revert m a v. induction n as [|n IH]; intros m a v Hx; [lia|].
  simpl. destruct (decide (x = a)) as [->|Hne].
  - rewrite store_bytes_lookup_out by lia. rewrite lookup_insert_eq.
    by rewrite Z.sub_diag, Z.mul_0_r, Z.shiftr_0_r.
  - rewrite IH by lia. rewrite Z.shiftr_shiftr by lia.
    repeat f_equal. lia.
Qed.

(** Round trip: loading what was just stored gives it back, truncated. *)
Lemma load_store_bytes_same m a n v :
  load_bytes (store_bytes m a n v) a n = wrap (8 * Z.of_nat n) v.
Proof.
  revert m a v. induction n as [|n IH]; intros m a v; simpl.
  - unfold wrap. simpl. by rewrite Z.mod_1_r.
  - rewrite IH, store_bytes_lookup_out, lookup_insert_eq by lia. simpl.
    rewrite wrap_idem by lia. rewrite wrap_split by lia. f_equal. lia.
Qed.

Lemma load_bytes_ext m m' a n :
  (forall x, a <= x < a + Z.of_nat n -> m !! x = m' !! x) ->
  load_bytes m a n = load_bytes m' a n.
Proof.
  revert a. induction n as [|n IH]; intros a H; simpl; [done|].
  rewrite H by lia. rewrite (IH (a + 1)); [done|]. intros. apply H. lia.
Qed.

(** Stores to a disjoint byte range are invisible to a load. *)
Lemma load_store_bytes_disjoint m a k b n v :
  (b + Z.of_nat n <= a \/ a + Z.of_nat k <= b) ->
  load_bytes (store_bytes m b n v) a k = load_bytes m a k.
Proof.
  intros. apply load_bytes_ext. intros. apply store_bytes_lookup_out. lia.
Qed.

(** Storing the same value twice has the effect of storing it once. *)
Lemma store_bytes_idem m a n v :
  store_bytes (store_bytes m a n v) a n v = store_bytes m a n v.
Proof.
  apply map_eq. intros x.
  destruct (decide (a <= x < a + Z.of_nat n)).
  - by rewrite !store_bytes_lookup_in.
  - by rewrite !store_bytes_lookup_out by lia.
Qed.

(** A narrower load of the start of a wider store sees its low bytes. *)
Lemma load_store_bytes_prefix m a n k v :
  (k <= n)%nat -> load_bytes (store_bytes m a n v) a k = wrap (8 * Z.of_nat k) v.
Proof.
  intros Hk. rewrite <- (load_store_bytes_same m a k v).
  apply load_bytes_ext. intros x Hx. rewrite !store_bytes_lookup_in by lia. done.
Qed.

(** A load of [n] bytes is an unsigned [8n]-bit value. *)
Lemma load_bytes_wrap m a n : wrap (8 * Z.of_nat n) (load_bytes m a n) = load_bytes m a n.
Proof.
  revert a. induction n as [|n IH]; intros a; [done|].
  simpl. rewrite <- (IH (a + 1)) at 2.
  apply Z.bits_inj'. intros i Hi.
  rewrite (wrap_testbit (8 * Z.of_nat (S n))), !Z.lor_spec by lia.
  destruct (Z.ltb_spec i 8).
  - rewrite !Z.shiftl_spec_low by lia. replace (i <? 8 * Z.of_nat (S n)) with true; [done|].
    symmetry. apply Z.ltb_lt. lia.
  - rewrite !Z.shiftl_spec by lia. rewrite (wrap_testbit (8 * Z.of_nat n)) by lia.
    rewrite (wrap_testbit 8) by lia.
    destruct (Z.ltb_spec i (8 * Z.of_nat (S n))), (Z.ltb_spec (i - 8) (8 * Z.of_nat n)),
      (Z.ltb_spec i 8); simpl; lia || done.
Qed.

Lemma load_bytes_range m a n : 0 <= load_bytes m a n < 2 ^ (8 * Z.of_nat n).
Proof. rewrite <- load_bytes_wrap. apply wrap_range. lia. Qed.

#[export] Hint Rewrite load_store_bytes_same store_bytes_idem : tcore_rw.

(** ** The accessors *)

Lemma read_value w a s : fst (read w a s) = load_bytes (mem s) a (width_bytes w).
Proof. reflexivity. Qed.

Lemma read_mem w a s : mem (snd (read w a s)) = mem s.
Proof. reflexivity. Qed.

Lemma write_mem w v a s :
  mem (write w v a s) = store_bytes (mem s) a (width_bytes w) (wrap (width_bits w) v).
Proof. reflexivity. Qed.

Lemma width_bits_nonneg w : 0 <= width_bits w.
Proof. destruct w; cbv; discriminate. Qed.

(** A device register reads back what was written, at its width. *)
Lemma read_write_same w v a s :
  fst (read w a (write w v a s)) = wrap (width_bits w) v.
Proof.
  rewrite read_value, write_mem, load_store_bytes_same.
  apply wrap_idem, width_bits_nonneg.
Qed.

Lemma read_write_disjoint w w' v a b s :
  (b + Z.of_nat (width_bytes w') <= a \/ a + Z.of_nat (width_bytes w) <= b) ->
  fst (read w a (write w' v b s)) = fst (read w a s).
Proof. intros. rewrite !read_value, write_mem. by apply load_store_bytes_disjoint. Qed.

Lemma write_write_same w v a s :
  mem (write w v a (write w v a s)) = mem (write w v a s).
Proof. rewrite !write_mem. apply store_bytes_idem. Qed.

(** ** The ordering contract of [io.h]

    A trace is [fenced] when it splits into blocks each of which is a
    fence, a [fence w,o] immediately followed by a store, or a load
    immediately followed by a [fence i,r]. *)

Inductive fenced : list event -> Prop :=
| fenced_nil : fenced []
| fenced_fence p q tr : fenced tr -> fenced (EvFence p q :: tr)
| fenced_store w a v tr :
    fenced tr -> fenced (EvFence [AccW] [AccO] :: EvStore w a v :: tr)
| fenced_load w a v tr :
    fenced tr -> fenced (EvLoad w a v :: EvFence [AccI] [AccR] :: tr).

#[export] Hint Constructors fenced : tcore.

Lemma fenced_app t1 t2 : fenced t1 -> fenced t2 -> fenced (t1 ++ t2).
Proof. induction 1; simpl; auto with tcore. Qed.

(** In a fenced trace every store is preceded by a [fence w,o] and
    every load is followed by a [fence i,r]. *)
Lemma fenced_store_preceded tr i w a v :
  fenced tr -> tr !! i = Some (EvStore w a v) ->
  exists j, i = S j /\ tr !! j = Some (EvFence [AccW] [AccO]).
Proof.
  intros Hf. revert i. induction Hf; intros i Hi; [done| | |].
  - destruct i as [|i]; [done|]. destruct (IHHf i Hi) as (j & -> & Hj). by exists (S j).
  - destruct i as [|[|i]]; simplify_eq/=; [by exists 0%nat|].
    destruct (IHHf i Hi) as (j & -> & Hj). by exists (S (S j)).
  - destruct i as [|[|i]]; simplify_eq/=.
    destruct (IHHf i Hi) as (j & -> & Hj). by exists (S (S j)).
Qed.

Lemma fenced_load_followed tr i w a v :
  fenced tr -> tr !! i = Some (EvLoad w a v) ->
  tr !! S i = Some (EvFence [AccI] [AccR]).
Proof.
  intros Hf. revert i. induction Hf; intros i Hi; [done| | |].
  - destruct i as [|i]; [done|]. by apply IHHf.
  - destruct i as [|[|i]]; simplify_eq/=. by apply IHHf.
  - destruct i as [|[|i]]; simplify_eq/=; [done|]. by apply IHHf.
Qed.

(** Every [writeX] and [readX] extends a fenced trace to a fenced
    trace: the contract of [io.h]. *)
Lemma write_fenced w v a s : fenced (trace s) -> fenced (trace (write w v a s)).
Proof.
  intros H. unfold write, __io_aw, __raw_write, __io_bw, emit; simpl.
  rewrite <- app_assoc. apply fenced_app; [done | apply fenced_store, fenced_nil].
Qed.

Lemma read_fenced w a s : fenced (trace s) -> fenced (trace (snd (read w a s))).
Proof.
  intros H. unfold read, __raw_read, __io_br, __io_ar, emit; simpl.
  rewrite <- app_assoc. apply fenced_app; [done | apply fenced_load, fenced_nil].
Qed.

#[export] Hint Resolve write_fenced read_fenced : tcore.

Arguments load_bytes : simpl never.
Arguments store_bytes : simpl never.
