(* ===== verification/Clint.v ===== *)
(** * The core-local interruptor driver, [devices/clint/clint.c]

    The driver keeps one static, [clint_base]; every operation computes
    a register address from it with the strides of [clint.h] and
    performs one fenced access of [io.h].  A [clint_st] pairs the
    static with the machine of [Mmio]; the operations are the C
    functions of the same names.

    The device is viewed abstractly as a register file
    ([clint_abs]: the [msip] word and [mtimecmp] of each hart and the
    global [mtime]); [clint_abs_of] reads it out of the byte memory.

    Theorems: raise/clear round trips, isolation of
    the harts' [msip] words, the refinement of the register-file view
    by every operation, the fence contract of every operation, and the
    aliasing of [msip] into [mtimecmp] past hart 4095, the bound up to
    which the unchecked hart id is safe. *)

From S2P Require Import Prelude Platform Mmio.

(** ** State and operations *)

(** [static volatile void* clint_base;] and the machine. *)
Record clint_st := ClintSt { clint_base : Z; cmach : mach }.

Definition with_mach (s : clint_st) (m : mach) : clint_st := ClintSt (clint_base s) m.

(** [CLINT_SOFT(base, hartid)]: [base + hartid * CLINT_MSIP_SIZE +
    CLINT_MSIP_OFFSET], 64-bit address arithmetic. *)
Definition CLINT_SOFT (base hartid : Z) : Z :=
  u64[base + hartid * CLINT_MSIP_SIZE + CLINT_MSIP_OFFSET].

Definition clint_timecmp_addr (base hartid : Z) : Z :=
  u64[base + hartid * CLINT_MTIMECMP_SIZE + CLINT_MTIMECMP_OFFSET].

Definition clint_mtime_addr (base : Z) : Z := u64[base + CLINT_MTIME_OFFSET].

Definition clint_get_mtime (s : clint_st) : Z * clint_st :=
  let '(v, m) := readd (clint_mtime_addr (clint_base s)) (cmach s) in
  (v, with_mach s m).

Definition clint_set_timecmp (hartid time : Z) (s : clint_st) : clint_st :=
  with_mach s (writed time (clint_timecmp_addr (clint_base s) hartid) (cmach s)).

Definition clint_check_soft (hartid : Z) (s : clint_st) : Z * clint_st :=
  let '(v, m) := readw (CLINT_SOFT (clint_base s) hartid) (cmach s) in
  (v, with_mach s m).

Definition clint_send_soft (hartid : Z) (s : clint_st) : clint_st :=
  with_mach s (writew 1 (CLINT_SOFT (clint_base s) hartid) (cmach s)).

Definition clint_clear_soft (hartid : Z) (s : clint_st) : clint_st :=
  with_mach s (writew 0 (CLINT_SOFT (clint_base s) hartid) (cmach s)).

Definition clint_init (base : Z) (s : clint_st) : clint_st := ClintSt base (cmach s).

(** ** The register-file view *)

Definition msip_reg (s : clint_st) (h : nat) : Z :=
  load_bytes (mem (cmach s)) (CLINT_SOFT (clint_base s) (Z.of_nat h)) 4.

Definition mtimecmp_reg (s : clint_st) (h : nat) : Z :=
  load_bytes (mem (cmach s)) (clint_timecmp_addr (clint_base s) (Z.of_nat h)) 8.

Definition mtime_reg (s : clint_st) : Z :=
  load_bytes (mem (cmach s)) (clint_mtime_addr (clint_base s)) 8.

Record clint_abs := ClintAbs {
  a_msip : list Z;
  a_mtimecmp : list Z;
  a_mtime : Z
}.

Definition clint_abs_of (s : clint_st) : clint_abs :=
  ClintAbs (map (msip_reg s) (seq 0 MAX_HARTS))
           (map (mtimecmp_reg s) (seq 0 MAX_HARTS))
           (mtime_reg s).

Definition abs_set_msip (h : nat) (v : Z) (a : clint_abs) : clint_abs :=
  ClintAbs (<[h := v]> (a_msip a)) (a_mtimecmp a) (a_mtime a).

Definition abs_set_mtimecmp (h : nat) (v : Z) (a : clint_abs) : clint_abs :=
  ClintAbs (a_msip a) (<[h := v]> (a_mtimecmp a)) (a_mtime a).

(** A hart id is in range of the configured controller. *)
Definition hart_ok (h : nat) : Prop := (h < MAX_HARTS)%nat.

#[export] Instance hart_ok_dec h : Decision (hart_ok h).
Proof. unfold hart_ok. apply _. Defined.

(** Side conditions on hart ids. *)
Ltac hart_tac := done || (unfold hart_ok, MAX_HARTS, ZERO_HART in *; lia).

(** ** The address map *)

Lemma CLINT_SOFT_eq h :
  0 <= h < 2 ^ 40 -> CLINT_SOFT CLINT_CTRL_ADDR h = CLINT_CTRL_ADDR + 4 * h.
Proof. intros. unfold CLINT_SOFT. rewrite wrap64_small; platform_consts; lia. Qed.

(** The driver's address arithmetic agrees with the per-hart offset
    tables of [clint.h] for every configured hart. *)
Lemma clint_offset_tables h :
  hart_ok h ->
  CLINT_SOFT CLINT_CTRL_ADDR (Z.of_nat h) = CLINT_CTRL_ADDR + default 0 (clint_msip_offsets !! h) /\
  clint_timecmp_addr CLINT_CTRL_ADDR (Z.of_nat h) = CLINT_CTRL_ADDR + default 0 (clint_mtimecmp_offsets !! h).
Proof.
  unfold hart_ok, MAX_HARTS. intros Hh.
  do 5 (destruct h as [|h]; [split; vm_compute; reflexivity|]). lia.
Qed.

Lemma timecmp_addr_eq h :
  0 <= h < 2 ^ 40 ->
  clint_timecmp_addr CLINT_CTRL_ADDR h = CLINT_CTRL_ADDR + 16384 + 8 * h.
Proof. intros. unfold clint_timecmp_addr. rewrite wrap64_small; platform_consts; lia. Qed.

Lemma mtime_addr_eq : clint_mtime_addr CLINT_CTRL_ADDR = CLINT_CTRL_ADDR + 49144.
Proof. reflexivity. Qed.

(** [clint_addrs] turns every register address of a configured
    controller into its affine form. *)
Ltac clint_addrs :=
  repeat first
    [ rewrite CLINT_SOFT_eq by (platform_consts; lia)
    | rewrite timecmp_addr_eq by (platform_consts; lia)
    | rewrite mtime_addr_eq ].

(** [clint_unfold] exposes the accessor each operation performs. *)
Ltac clint_unfold :=
  unfold msip_reg, mtimecmp_reg, mtime_reg, clint_send_soft, clint_clear_soft,
    clint_set_timecmp, writew, writed in *;
  cbn [cmach clint_base with_mach] in *.

Lemma with_mach_base s m : clint_base (with_mach s m) = clint_base s.
Proof. reflexivity. Qed.

#[export] Hint Rewrite with_mach_base : tcore_rw.

(** A register load after a store, for the addresses of the map. *)
Lemma load_write_same w v a s k :
  k = width_bytes w ->
  load_bytes (mem (write w v a s)) a k = wrap (width_bits w) v.
Proof.
  intros ->. rewrite write_mem, load_store_bytes_same.
  apply wrap_idem, width_bits_nonneg.
Qed.

Lemma load_write_other w v a b s k :
  (a + Z.of_nat (width_bytes w) <= b \/ b + Z.of_nat k <= a) ->
  load_bytes (mem (write w v a s)) b k = load_bytes (mem s) b k.
Proof. intros. rewrite write_mem. apply load_store_bytes_disjoint. lia. Qed.

Section Configured.
(** The controller as [main] and [other_main] configure it:
    [clint_init(CLINT_CTRL_ADDR)]. *)
Context (s : clint_st) (Hbase : clint_base s = CLINT_CTRL_ADDR).

Lemma msip_send_other h h' :
  hart_ok h -> hart_ok h' -> h <> h' ->
  msip_reg (clint_send_soft (Z.of_nat h) s) h' = msip_reg s h'.
Proof.
  unfold hart_ok; intros; clint_unfold; rewrite Hbase; clint_addrs. apply load_write_other. simpl. lia.
Qed.

Lemma msip_clear_other h h' :
  hart_ok h -> hart_ok h' -> h <> h' ->
  msip_reg (clint_clear_soft (Z.of_nat h) s) h' = msip_reg s h'.
Proof.
  unfold hart_ok; intros; clint_unfold; rewrite Hbase; clint_addrs. apply load_write_other. simpl. lia.
Qed.

(** Each operation's effect on each register, for harts in range. *)
Lemma msip_after_write v h h' :
  hart_ok h -> hart_ok h' ->
  msip_reg (with_mach s (writew v (CLINT_SOFT (clint_base s) (Z.of_nat h)) (cmach s))) h'
  = if decide (h' = h) then u32[v] else msip_reg s h'.
Proof.
  unfold hart_ok; intros. case_decide; subst.
  - clint_unfold. by rewrite load_write_same.
  - clint_unfold. rewrite Hbase. clint_addrs. apply load_write_other. simpl. lia.
Qed.

Lemma timecmp_after_msip_write v h h' :
  (h < 4096)%nat -> Z.of_nat h' < 2 ^ 40 ->
  mtimecmp_reg (with_mach s (writew v (CLINT_SOFT (clint_base s) (Z.of_nat h)) (cmach s))) h'
  = mtimecmp_reg s h'.
Proof.
  intros. clint_unfold. rewrite Hbase. clint_addrs. apply load_write_other. simpl. lia.
Qed.

Lemma mtime_after_msip_write v h :
  (h < 4096)%nat ->
  mtime_reg (with_mach s (writew v (CLINT_SOFT (clint_base s) (Z.of_nat h)) (cmach s)))
  = mtime_reg s.
Proof.
  intros. clint_unfold. rewrite Hbase. clint_addrs. apply load_write_other. simpl. lia.
Qed.

Lemma timecmp_after_set h h' t :
  hart_ok h -> hart_ok h' ->
  mtimecmp_reg (clint_set_timecmp (Z.of_nat h) t s) h'
  = if decide (h' = h) then u64[t] else mtimecmp_reg s h'.
Proof.
  unfold hart_ok; intros. case_decide; subst.
  - clint_unfold. by rewrite load_write_same.
  - clint_unfold. rewrite Hbase. clint_addrs. apply load_write_other. simpl. lia.
Qed.

Lemma msip_after_set h h' t :
  (h < 2047)%nat -> (h' < 4096)%nat ->
  msip_reg (clint_set_timecmp (Z.of_nat h) t s) h' = msip_reg s h'.
Proof.
  intros. clint_unfold. rewrite Hbase. clint_addrs. apply load_write_other. simpl. lia.
Qed.

Lemma mtime_after_set h t :
  (h < 2047)%nat -> mtime_reg (clint_set_timecmp (Z.of_nat h) t s) = mtime_reg s.
Proof.
  intros. clint_unfold. rewrite Hbase. clint_addrs. apply load_write_other. simpl. lia.
Qed.
End Configured.

(** ** Raise, clear and check *)

Lemma msip_send_same s h : msip_reg (clint_send_soft (Z.of_nat h) s) h = 1.
Proof. clint_unfold. by rewrite load_write_same. Qed.

Lemma msip_clear_same s h : msip_reg (clint_clear_soft (Z.of_nat h) s) h = 0.
Proof. clint_unfold. by rewrite load_write_same. Qed.

Lemma check_soft_value s h : fst (clint_check_soft h s) =
  load_bytes (mem (cmach s)) (CLINT_SOFT (clint_base s) h) 4.
Proof. reflexivity. Qed.

Lemma check_soft_mem s h : mem (cmach (snd (clint_check_soft h s))) = mem (cmach s).
Proof. reflexivity. Qed.

(** C10: [clint_send_soft(h)] then [clint_check_soft(h)] reads 1, and
    [clint_clear_soft(h)] then [clint_check_soft(h)] reads 0. *)
Lemma send_clear_check s h :
  fst (clint_check_soft h (clint_send_soft h s)) = 1 /\
  fst (clint_check_soft h (clint_clear_soft h s)) = 0.
Proof.
  rewrite !check_soft_value. clint_unfold. by rewrite !load_write_same.
Qed.

(** ** Refinement of the register-file view *)

Inductive clint_op :=
| OpSend (h : nat)
| OpClear (h : nat)
| OpSetTimecmp (h : nat) (t : Z)
| OpCheck (h : nat)
| OpGetMtime.

(** One driver call; [void] functions return 0. *)
Definition clint_exec (o : clint_op) (s : clint_st) : Z * clint_st :=
  match o with
  | OpSend h => (0, clint_send_soft (Z.of_nat h) s)
  | OpClear h => (0, clint_clear_soft (Z.of_nat h) s)
  | OpSetTimecmp h t => (0, clint_set_timecmp (Z.of_nat h) t s)
  | OpCheck h => clint_check_soft (Z.of_nat h) s
  | OpGetMtime => clint_get_mtime s
  end.

Definition op_ok (o : clint_op) : Prop :=
  match o with
  | OpSend h | OpClear h | OpSetTimecmp h _ | OpCheck h => hart_ok h
  | OpGetMtime => True
  end.

(** What each call does to the register file. *)
Definition abs_exec (o : clint_op) (a : clint_abs) : Z * clint_abs :=
  match o with
  | OpSend h => (0, abs_set_msip h 1 a)
  | OpClear h => (0, abs_set_msip h 0 a)
  | OpSetTimecmp h t => (0, abs_set_mtimecmp h u64[t] a)
  | OpCheck h => (default 0 (a_msip a !! h), a)
  | OpGetMtime => (a_mtime a, a)
  end.

Fixpoint clint_run (os : list clint_op) (s : clint_st) : list Z * clint_st :=
  match os with
  | [] => ([], s)
  | o :: os' =>
      let '(v, s1) := clint_exec o s in
      let '(vs, s2) := clint_run os' s1 in (v :: vs, s2)
  end.

Fixpoint abs_run (os : list clint_op) (a : clint_abs) : list Z * clint_abs :=
  match os with
  | [] => ([], a)
  | o :: os' =>
      let '(v, a1) := abs_exec o a in
      let '(vs, a2) := abs_run os' a1 in (v :: vs, a2)
  end.

Lemma clint_abs_of_mem s s' :
  clint_base s = clint_base s' -> mem (cmach s) = mem (cmach s') ->
  clint_abs_of s = clint_abs_of s'.
Proof.
  intros Hb Hm. unfold clint_abs_of, msip_reg, mtimecmp_reg, mtime_reg.
  by rewrite Hb, Hm.
Qed.

Lemma clint_exec_base o s : clint_base (snd (clint_exec o s)) = clint_base s.
Proof. destruct o; reflexivity. Qed.

Lemma msip_list_lookup s h :
  hart_ok h -> default 0 (a_msip (clint_abs_of s) !! h) = msip_reg s h.
Proof.
  unfold hart_ok. intros. cbn [clint_abs_of a_msip].
  rewrite list_lookup_fmap. by rewrite (proj2 (lookup_seq 0 MAX_HARTS h h)) by lia.
Qed.

Lemma clint_exec_refines o s :
  clint_base s = CLINT_CTRL_ADDR -> op_ok o ->
  (fst (clint_exec o s), clint_abs_of (snd (clint_exec o s)))
  = abs_exec o (clint_abs_of s).
Proof.
  intros Hb Ho. destruct o as [h|h|h t|h|]; cbn [clint_exec abs_exec op_ok fst snd] in Ho |- *;
    unfold hart_ok, MAX_HARTS in *.
  - f_equal. unfold clint_abs_of, abs_set_msip; cbn [a_msip a_mtimecmp a_mtime]. f_equal.
    + apply fmap_seq_insert; [done|]. intros. apply msip_after_write; first [done | unfold hart_ok, MAX_HARTS in *; lia].
    + apply fmap_seq_ext. intros. apply timecmp_after_msip_write; first [done | unfold MAX_HARTS in *; lia].
    + apply mtime_after_msip_write; first [done | unfold MAX_HARTS in *; lia].
  - f_equal. unfold clint_abs_of, abs_set_msip; cbn [a_msip a_mtimecmp a_mtime]. f_equal.
    + apply fmap_seq_insert; [done|]. intros. apply msip_after_write; first [done | unfold hart_ok, MAX_HARTS in *; lia].
    + apply fmap_seq_ext. intros. apply timecmp_after_msip_write; first [done | unfold MAX_HARTS in *; lia].
    + apply mtime_after_msip_write; first [done | unfold MAX_HARTS in *; lia].
  - f_equal. unfold clint_abs_of, abs_set_mtimecmp; cbn [a_msip a_mtimecmp a_mtime]. f_equal.
    + apply fmap_seq_ext. intros. apply msip_after_set; first [done | unfold MAX_HARTS in *; lia].
    + apply fmap_seq_insert; [done|]. intros. apply timecmp_after_set; first [done | unfold hart_ok, MAX_HARTS in *; lia].
    + apply mtime_after_set; first [done | unfold MAX_HARTS in *; lia].
  - rewrite check_soft_value, msip_list_lookup by done. reflexivity.
  - reflexivity.
Qed.

(** C9: the driver refines the register file: for any sequence of
    driver calls on harts in range of the configured controller, the
    values returned and the register file reached are those of the
    abstract register-file semantics [abs_run]. *)
Theorem clint_refinement os s :
  clint_base s = CLINT_CTRL_ADDR -> Forall op_ok os ->
  (fst (clint_run os s), clint_abs_of (snd (clint_run os s)))
  = abs_run os (clint_abs_of s).
Proof.
  intros Hb Hos. revert s Hb. induction Hos as [|o os Ho Hos IH]; intros s Hb; [done|].
  simpl. pose proof (clint_exec_refines o s Hb Ho) as E.
  destruct (clint_exec o s) as [v s1] eqn:Es. simpl in E. rewrite <- E.
  assert (clint_base s1 = CLINT_CTRL_ADDR) as Hb1
    by (by rewrite <- Hb, <- (clint_exec_base o s), Es).
  specialize (IH s1 Hb1). destruct (clint_run os s1) as [vs s2].
  simpl in IH |- *. rewrite <- IH. done.
Qed.

(** ** Bounds of the unchecked hart id *)

(** C11: the driver does not check [hartid].  Up to hart 4095 a raise
    or clear of [msip] leaves every timer register unchanged; hart id
    4096 is the address of hart 0's [mtimecmp], so
    [clint_check_soft(4096)] reads the low word of that timer. *)
Theorem msip_hartid_bound s t :
  clint_base s = CLINT_CTRL_ADDR ->
  (forall v h h', (h < 4096)%nat -> Z.of_nat h' < 2 ^ 40 ->
     mtimecmp_reg (with_mach s (writew v (CLINT_SOFT (clint_base s) (Z.of_nat h)) (cmach s))) h'
     = mtimecmp_reg s h') /\
  fst (clint_check_soft 4096 (clint_set_timecmp 0 t s)) = u32[t].
Proof.
  intros Hb. split; [intros; by apply timecmp_after_msip_write|].
  rewrite check_soft_value. clint_unfold. rewrite Hb.
  change (CLINT_SOFT CLINT_CTRL_ADDR 4096) with (clint_timecmp_addr CLINT_CTRL_ADDR (Z.of_nat 0)).
  rewrite write_mem, load_store_bytes_prefix by (simpl; lia).
  unfold width_bits. simpl. rewrite wrap_idem_le; [done|lia].
Qed.

(** ** The ordering contract of the driver *)

(** C12: every driver call issues its register access through the
    fenced accessors: a fenced trace stays fenced. *)
Theorem clint_exec_fenced o s :
  fenced (trace (cmach s)) -> fenced (trace (cmach (snd (clint_exec o s)))).
Proof.
  destruct o; intros H; cbn [clint_exec snd]; clint_unfold;
    unfold clint_check_soft, clint_get_mtime, readw, readd in *; auto with tcore.
  - pose proof (read_fenced B32 (CLINT_SOFT (clint_base s) (Z.of_nat h)) _ H).
    by destruct (read _ _ _).
  - pose proof (read_fenced B64 (clint_mtime_addr (clint_base s)) _ H).
    by destruct (read _ _ _).
Qed.

(** ** The timer counter

    [mtime] is incremented by the device, not by the driver: [mtime_tick]
    models one tick of the 64-bit hardware counter. *)

Definition mtime_tick (s : clint_st) : clint_st :=
  with_mach s (Mach (store_bytes (mem (cmach s)) (clint_mtime_addr (clint_base s)) 8
                       u64[mtime_reg s + 1])
                    (trace (cmach s))).

Lemma get_mtime_value s : fst (clint_get_mtime s) = mtime_reg s.
Proof. reflexivity. Qed.

Lemma mtime_reg_ticks s k :
  mtime_reg (Nat.iter k mtime_tick s) = u64[mtime_reg s + Z.of_nat k].
Proof.
  induction k as [|k IH]; simpl Nat.iter.
  - rewrite Z.add_0_r. symmetry. apply wrap_small.
    apply (load_bytes_range _ _ 8).
  - unfold mtime_tick at 1, mtime_reg at 1. cbn [cmach mem with_mach clint_base].
    rewrite load_store_bytes_same, wrap_idem_le by lia.
    rewrite IH. unfold wrap. rewrite Zplus_mod_idemp_l. f_equal. lia.
Qed.

(** C13: successive [clint_get_mtime] calls read a non-decreasing
    counter as long as the 64-bit counter has not wrapped around, and
    the difference is the number of ticks in between. *)
Theorem get_mtime_monotone s k :
  fst (clint_get_mtime s) + Z.of_nat k < 2 ^ 64 ->
  fst (clint_get_mtime (Nat.iter k mtime_tick (snd (clint_get_mtime s))))
  = fst (clint_get_mtime s) + Z.of_nat k.
Proof.
  rewrite !get_mtime_value. intros H.
  change (mtime_reg (snd (clint_get_mtime s))) with (mtime_reg s) in *.
  rewrite mtime_reg_ticks. apply wrap_small.
  pose proof (load_bytes_range (mem (cmach s)) (clint_mtime_addr (clint_base s)) 8).
  unfold mtime_reg in *. lia.
Qed.

(** ** Witnesses *)

(** The controller right after [clint_init(CLINT_CTRL_ADDR)] on a
    zeroed machine. *)
Definition clint_boot : clint_st := clint_init CLINT_CTRL_ADDR (ClintSt 0 (Mach ∅ [])).

Lemma clint_refinement_witness :
  clint_base clint_boot = CLINT_CTRL_ADDR /\
  Forall op_ok [OpSend 2; OpCheck 2; OpCheck 1; OpSetTimecmp 3 7; OpClear 2; OpCheck 2] /\
  (fst (clint_run [OpSend 2; OpCheck 2; OpCheck 1; OpSetTimecmp 3 7; OpClear 2; OpCheck 2] clint_boot),
   clint_abs_of (snd (clint_run [OpSend 2; OpCheck 2; OpCheck 1; OpSetTimecmp 3 7; OpClear 2; OpCheck 2] clint_boot)))
  = abs_run [OpSend 2; OpCheck 2; OpCheck 1; OpSetTimecmp 3 7; OpClear 2; OpCheck 2] (clint_abs_of clint_boot).
Proof.
  assert (Hb : clint_base clint_boot = CLINT_CTRL_ADDR) by reflexivity.
  assert (Ho : Forall op_ok [OpSend 2; OpCheck 2; OpCheck 1; OpSetTimecmp 3 7; OpClear 2; OpCheck 2])
    by (repeat constructor; cbv; lia).
  split; [done|]. split; [done|]. by apply clint_refinement.
Defined.

Lemma msip_hartid_bound_witness :
  clint_base clint_boot = CLINT_CTRL_ADDR /\
  fst (clint_check_soft 4096 (clint_set_timecmp 0 (2 ^ 40 + 5) clint_boot)) = 5.
Proof.
  split; [reflexivity|].
  rewrite (proj2 (msip_hartid_bound clint_boot (2 ^ 40 + 5) eq_refl)). reflexivity.
Defined.

Lemma clint_exec_fenced_witness :
  fenced (trace (cmach clint_boot)) /\
  fenced (trace (cmach (snd (clint_exec (OpSend 1) clint_boot)))).
Proof.
  assert (H : fenced (trace (cmach clint_boot))) by constructor.
  split; [done|]. by apply clint_exec_fenced.
Defined.

Lemma get_mtime_monotone_witness :
  fst (clint_get_mtime clint_boot) + Z.of_nat 3 < 2 ^ 64 /\
  fst (clint_get_mtime (Nat.iter 3 mtime_tick (snd (clint_get_mtime clint_boot)))) = 3.
Proof.
  assert (H : fst (clint_get_mtime clint_boot) + Z.of_nat 3 < 2 ^ 64) by (vm_compute; reflexivity).
  split; [done|]. rewrite (get_mtime_monotone clint_boot 3 H). reflexivity.
Defined.
