(* ===== verification/Barrier.v ===== *)
(** * The boot barrier, [include/smp.h]

    Every hart runs [smp_pause], then (the primary only) its local
    initialisation, then [smp_resume].  A secondary hart leaves
    [smp_pause] by the forward branch [bne reg1, reg2, 42f] to the wait
    loop inside [smp_resume]; the primary falls through, broadcasts a
    software interrupt to every [msip] word (label [41:] of the first
    loop), waits for its own, clears it, and sweeps all [msip] words
    until each reads 0.  Secondaries run the same wait/clear/sweep
    tail.

    The model is an interleaving transition system: a configuration
    holds, per hart, the program label, the register [reg1] of the
    macros and the CSR [mie], and the shared machine of [Mmio].  One
    step of a hart executes the instructions between two labels; it
    performs at most one memory access, a raw [sw]/[lw] to the CLINT
    (the macros use no fences).  [wfi] must return once the hart's
    [mip] bit is set and enabled in [mie] ([bstep_hart]), and may
    return at any other time ([bstep_wfi]); only the re-test of [mip]
    after it decides whether the hart leaves its wait loop.

    Theorems: the barrier invariant holds of every reachable
    configuration; when any hart leaves the barrier every hart has
    acknowledged its wake-up and every [msip] word is clear (the
    rendezvous); no hart gets past its wait loop before the primary
    raised it, spurious returns from [wfi] notwithstanding; no reachable configuration is stuck while a hart is still in
    the barrier; and with the reset configuration and a round-robin
    schedule every hart leaves the barrier.  Module [Disable] models
    [smp_disable]: only [ZERO_HART] reaches [hart0_entry]. *)

From S2P Require Import Prelude Platform Mmio Clint.

Set Warnings "-clear-no-such-hyp".

(** ** Configurations *)

(** Program labels of [smp_pause; <primary init>; smp_resume]. *)
Inductive bpc :=
| BP_pause   (* smp_pause: csrw mie; bne to 42f unless hart 0 *)
| BP_init    (* the primary's initialisation between the macros *)
| BP_bcast   (* 41: li reg2, 1; sw reg2, 0(reg1); addi; blt 41b *)
| BP_wfi     (* 42: wfi *)
| BP_check   (* csrr reg2, mip; andi reg2, reg2, MIP_MSIP; beqz 42b *)
| BP_clear   (* li reg1, CLINT; ...; sw zero, 0(reg2) *)
| BP_sweep   (* 41: lw reg2, 0(reg1); bnez 41b; addi; blt 41b *)
| BP_done.   (* past smp_resume *)

#[export] Instance bpc_eq_dec : EqDecision bpc.
Proof. solve_decision. Defined.

Record bhart := BHart { b_pc : bpc; b_reg1 : Z; b_mie : Z }.

Record bsys := BSys { b_harts : nat -> bhart; b_mach : mach }.

(** The word of hart [h] at [CLINT_CTRL_ADDR + 4h], as [lw] reads it. *)
Definition msip_word (m : mach) (h : nat) : Z :=
  load_bytes (mem m) (CLINT_CTRL_ADDR + 4 * Z.of_nat h) 4.

(** [mip] as the hart sees it: its MSIP bit mirrors bit 0 of its
    [msip] word (the other interrupt sources are not enabled in [mie]
    by this code and are not modelled). *)
Definition read_mip (m : mach) (h : nat) : Z :=
  if Z.testbit (msip_word m h) 0 then MIP_MSIP else 0.

(** [wfi] is bound to resume when an interrupt is pending and enabled.
    The architecture lets it return at any other time as well; that
    spurious return is the second rule of [bstep]. *)
Definition wfi_resumes (m : mach) (h : nat) (mie : Z) : bool :=
  negb (Z.land (read_mip m h) mie =? 0).

Definition set_hart (s : bsys) (h : nat) (pc : bpc) (reg1 mie : Z) (m : mach) : bsys :=
  BSys (fupd (b_harts s) h (BHart pc reg1 mie)) m.

(** One step of hart [h]; [None] when no interrupt forces its [wfi]
    to return, and past the barrier. *)
Definition bstep_hart (h : nat) (s : bsys) : option bsys :=
  let '(BHart pc r1 mie) := b_harts s h in
  let m := b_mach s in
  match pc with
  | BP_pause =>
      (* li reg2, MIP_MSIP; csrw mie, reg2; li reg1, ZERO_HART;
         csrr reg2, mhartid; bne reg1, reg2, 42f *)
      Some (set_hart s h (if decide (h = ZERO_HART) then BP_init else BP_wfi)
              (Z.of_nat ZERO_HART) MIP_MSIP m)
  | BP_init =>
      (* li reg1, CLINT_CTRL_ADDR *)
      Some (set_hart s h BP_bcast CLINT_CTRL_ADDR mie m)
  | BP_bcast =>
      (* li reg2, 1; sw reg2, 0(reg1); addi reg1, reg1, 4;
         li reg2, CLINT_END_HART_IPI; blt reg1, reg2, 41b *)
      let m' := __raw_write B32 1 r1 m in
      let r1' := r1 + 4 in
      Some (set_hart s h (if decide (r1' < CLINT_END_HART_IPI) then BP_bcast else BP_wfi)
              r1' mie m')
  | BP_wfi =>
      if wfi_resumes m h mie then Some (set_hart s h BP_check r1 mie m) else None
  | BP_check =>
      (* csrr reg2, mip; andi reg2, reg2, MIP_MSIP; beqz reg2, 42b *)
      Some (set_hart s h
              (if decide (Z.land (read_mip m h) MIP_MSIP = 0) then BP_wfi else BP_clear)
              r1 mie m)
  | BP_clear =>
      (* li reg1, CLINT_CTRL_ADDR; csrr reg2, mhartid; slli reg2, reg2, 2;
         add reg2, reg2, reg1; sw zero, 0(reg2) *)
      let m' := __raw_write B32 0 (CLINT_CTRL_ADDR + Z.shiftl (Z.of_nat h) 2) m in
      Some (set_hart s h BP_sweep CLINT_CTRL_ADDR mie m')
  | BP_sweep =>
      (* lw reg2, 0(reg1); bnez reg2, 41b; addi reg1, reg1, 4;
         li reg2, CLINT_END_HART_IPI; blt reg1, reg2, 41b *)
      let '(v, m') := __raw_read B32 r1 m in
      if decide (v <> 0) then Some (set_hart s h BP_sweep r1 mie m')
      else let r1' := r1 + 4 in
           Some (set_hart s h (if decide (r1' < CLINT_END_HART_IPI) then BP_sweep else BP_done)
                   r1' mie m')
  | BP_done => None
  end.

(** Interleaving: any hart in range takes a step, and a hart in [wfi]
    may return from it with no interrupt pending (riscv.h:144). *)
Inductive bstep : bsys -> bsys -> Prop :=
| bstep_intro h s s' : hart_ok h -> bstep_hart h s = Some s' -> bstep s s'
| bstep_wfi h s r1 mie : hart_ok h -> b_harts s h = BHart BP_wfi r1 mie ->
    bstep s (set_hart s h BP_check r1 mie (b_mach s)).

(** Reset: every hart at the start of [smp_pause], every [msip] clear. *)
Definition binit (s : bsys) : Prop :=
  forall h, hart_ok h -> b_pc (b_harts s h) = BP_pause /\ msip_word (b_mach s) h = 0.

Definition breachable (s : bsys) : Prop :=
  exists s0, binit s0 /\ rtc bstep s0 s.

(** ** The barrier's ghost view *)

(** Hart [h] has acknowledged its wake-up (it is past its clear). *)
Definition acked (hs : bhart) : bool :=
  match b_pc hs with BP_sweep | BP_done => true | _ => false end.

(** The primary [p] has raised hart [j]'s [msip]. *)
Definition raised (p : bhart) (j : nat) : bool :=
  match b_pc p with
  | BP_pause | BP_init => false
  | BP_bcast => bool_decide (CLINT_CTRL_ADDR + 4 * Z.of_nat j < b_reg1 p)
  | _ => true
  end.

Definition primary (s : bsys) : bhart := b_harts s ZERO_HART.

(** Hart [j]'s wait-loop and sweep labels, where [mie] must be set. *)
Definition past_pause (pc : bpc) : bool :=
  match pc with BP_pause | BP_init | BP_bcast => false | _ => true end.

(** ** The barrier invariant *)

(** A register value that points at one of the [msip] words. *)
Definition in_window (r : Z) : Prop :=
  exists k, (k < MAX_HARTS)%nat /\ r = CLINT_CTRL_ADDR + 4 * Z.of_nat k.

(** What holds of hart [j] (record [hj], [msip] word [w]) given the
    primary's record [p]. *)
Record hinv (p : bhart) (j : nat) (hj : bhart) (w : Z) : Prop := {
  (* the word is 1 exactly while j is raised and not acknowledged *)
  hinv_msip : w = if raised p j && negb (acked hj) then 1 else 0;
  (* a hart reaches its clear or sweep only once raised *)
  hinv_raised : acked hj = true \/ b_pc hj = BP_clear -> raised p j = true;
  (* only the primary initialises and broadcasts *)
  hinv_secondary : j <> ZERO_HART -> b_pc hj <> BP_init /\ b_pc hj <> BP_bcast;
  (* a sweep pointer walks the msip words *)
  hinv_sweep : b_pc hj = BP_sweep -> in_window (b_reg1 hj);
  (* past smp_pause, the software interrupt is enabled *)
  hinv_mie : b_pc hj <> BP_pause -> b_mie hj = MIP_MSIP
}.

(** The primary's sweep has passed hart [j], or finished. *)
Definition swept (p : bhart) (j : nat) : Prop :=
  (b_pc p = BP_sweep /\ CLINT_CTRL_ADDR + 4 * Z.of_nat j < b_reg1 p) \/ b_pc p = BP_done.

Record binv (s : bsys) : Prop := {
  binv_harts j : hart_ok j -> hinv (primary s) j (b_harts s j) (msip_word (b_mach s) j);
  binv_bcast : b_pc (primary s) = BP_bcast -> in_window (b_reg1 (primary s));
  binv_swept h j : hart_ok h -> hart_ok j ->
    swept (b_harts s h) j -> acked (b_harts s j) = true
}.

(** ** Lemmas on one step *)

Lemma set_hart_harts s h pc r mie m j :
  b_harts (set_hart s h pc r mie m) j = if decide (j = h) then BHart pc r mie else b_harts s j.
Proof. reflexivity. Qed.

Lemma set_hart_mach s h pc r mie m : b_mach (set_hart s h pc r mie m) = m.
Proof. reflexivity. Qed.

Lemma msip_word_write k j v m :
  hart_ok k -> hart_ok j ->
  msip_word (__raw_write B32 v (CLINT_CTRL_ADDR + 4 * Z.of_nat k) m) j
  = if decide (j = k) then u32[v] else msip_word m j.
Proof.
  unfold hart_ok, MAX_HARTS, msip_word, __raw_write; intros; cbn [mem]. case_decide; subst.
  - rewrite load_store_bytes_same. apply wrap_idem_le. unfold width_bits. simpl. lia.
  - rewrite load_store_bytes_disjoint; [done|]. simpl. lia.
Qed.

Lemma msip_word_emit e m j : msip_word (emit e m) j = msip_word m j.
Proof. reflexivity. Qed.

(** In an invariant configuration, [mip] shows exactly the pending bit. *)
Lemma read_mip_binv s j :
  binv s -> hart_ok j ->
  read_mip (b_mach s) j =
    if raised (primary s) j && negb (acked (b_harts s j)) then MIP_MSIP else 0.
Proof.
  intros Hi Hj. unfold read_mip. rewrite (hinv_msip _ _ _ _ (binv_harts s Hi j Hj)).
  by destruct (_ && _).
Qed.


Lemma primary_set s h pc r mie m :
  primary (set_hart s h pc r mie m)
  = if decide (ZERO_HART = h) then BHart pc r mie else primary s.
Proof. reflexivity. Qed.

Lemma hinv_frame p p' j hj w :
  raised p' j = raised p j -> hinv p j hj w -> hinv p' j hj w.
Proof. intros Hr [H1 H2 H3 H4 H5]. split; rewrite ?Hr; auto. Qed.

(** [raised] is constant before the broadcast and after it. *)
Definition before_bcast (pc : bpc) : bool :=
  match pc with BP_pause | BP_init => true | _ => false end.

Lemma raised_same p p' j :
  (before_bcast (b_pc p) = true /\ before_bcast (b_pc p') = true) \/
  (past_pause (b_pc p) = true /\ past_pause (b_pc p') = true) ->
  raised p' j = raised p j.
Proof. unfold raised. destruct (b_pc p), (b_pc p'); naive_solver. Qed.

(** The invariant after a step of hart [h], from the per-hart clauses
    of the stepping hart and of the others. *)
Lemma binv_set s h pc r mie m :
  hart_ok h ->
  let s' := set_hart s h pc r mie m in
  (forall j, hart_ok j -> j <> h -> hinv (primary s') j (b_harts s j) (msip_word m j)) ->
  hinv (primary s') h (BHart pc r mie) (msip_word m h) ->
  (b_pc (primary s') = BP_bcast -> in_window (b_reg1 (primary s'))) ->
  (forall h' j, hart_ok h' -> hart_ok j ->
     swept (b_harts s' h') j -> acked (b_harts s' j) = true) ->
  binv s'.
Proof.
  intros Hh s' Ho Hs Hb Hw. split; [|done|done].
  intros j Hj. subst s'. rewrite set_hart_harts, set_hart_mach.
  case_decide; subst; auto.
Qed.

(** Steps that do not touch memory and keep [raised] leave the other
    harts' clauses intact. *)
Lemma others_frame s h pc r mie :
  binv s -> (forall j, raised (primary (set_hart s h pc r mie (b_mach s))) j = raised (primary s) j) ->
  forall j, hart_ok j -> j <> h ->
  hinv (primary (set_hart s h pc r mie (b_mach s))) j (b_harts s j) (msip_word (b_mach s) j).
Proof. intros Hi Hr j Hj _. eapply hinv_frame; [apply Hr|]. by apply binv_harts. Qed.

(** A step that does not move a hart's sweep pointer keeps every
    sweep clause, given that it never takes [acked] back. *)
Lemma swept_frame s h pc r mie m :
  binv s -> hart_ok h ->
  (acked (b_harts s h) = true -> acked (BHart pc r mie) = true) ->
  (forall j, ~ swept (BHart pc r mie) j) ->
  forall h' j, hart_ok h' -> hart_ok j ->
  swept (b_harts (set_hart s h pc r mie m) h') j ->
  acked (b_harts (set_hart s h pc r mie m) j) = true.
Proof.
  intros Hi Hh Hmono Hns h' j Hh' Hj. rewrite !set_hart_harts.
  case_decide; [by intros ?%Hns|]. intros Hsw.
  pose proof (binv_swept s Hi h' j Hh' Hj Hsw) as Ha.
  case_decide; subst; auto.
Qed.

(** [no_sweep] discharges [swept_frame] for a step that starts before
    the acknowledgement and does not land in the sweep. *)
Ltac no_sweep Hs :=
  apply swept_frame; [done|done|rewrite Hs; discriminate|
    intros ?; unfold swept; simpl; intros [[? ?]|?]; (discriminate || lia)].

Lemma binv_pause s h r1 mie :
  binv s -> hart_ok h -> b_harts s h = BHart BP_pause r1 mie ->
  binv (set_hart s h (if decide (h = ZERO_HART) then BP_init else BP_wfi)
          (Z.of_nat ZERO_HART) MIP_MSIP (b_mach s)).
Proof.
  intros Hi Hh Hs. pose proof (binv_harts s Hi h Hh) as Hself. rewrite Hs in Hself.
  destruct (decide (h = ZERO_HART)) as [->|Hz].
  - unfold primary in *. rewrite Hs in *.
    apply binv_set; rewrite ?primary_set, ?decide_True by done; auto.
    + intros j Hj Hne. eapply hinv_frame; [|by apply (binv_harts s Hi)].
      unfold primary. by rewrite Hs.
    + destruct Hself; split; simpl in *; naive_solver.
    + done.
    + no_sweep Hs.
  - apply binv_set; rewrite ?primary_set, ?decide_False by done; auto.
    + intros j Hj Hne. by apply (binv_harts s Hi).
    + destruct Hself; split; simpl in *; naive_solver.
    + apply (binv_bcast s Hi).
    + no_sweep Hs.
Qed.

Lemma binv_init s h r1 mie :
  binv s -> hart_ok h -> b_harts s h = BHart BP_init r1 mie ->
  binv (set_hart s h BP_bcast CLINT_CTRL_ADDR mie (b_mach s)).
Proof.
  intros Hi Hh Hs. pose proof (binv_harts s Hi h Hh) as Hself. rewrite Hs in Hself.
  destruct (decide (h = ZERO_HART)) as [->|Hz]; [|destruct Hself; simpl in *; naive_solver].
  unfold primary in *. rewrite Hs in *.
  apply binv_set; rewrite ?primary_set, ?decide_True by done; auto.
  - intros j Hj Hne. eapply hinv_frame; [|by apply (binv_harts s Hi)].
    unfold primary. rewrite Hs. simpl. apply bool_decide_eq_false_2. simpl. lia.
  - destruct Hself as [H1 _ _ _ H5]. split; cbn [b_pc b_reg1 b_mie].
    + rewrite H1. vm_compute. reflexivity.
    + intros [?|?]; discriminate.
    + done.
    + discriminate.
    + intros _. by apply H5.
  - intros _. exists 0%nat. simpl. unfold MAX_HARTS. lia.
  - no_sweep Hs.
Qed.

Lemma binv_wfi s h r1 mie :
  binv s -> hart_ok h -> b_harts s h = BHart BP_wfi r1 mie ->
  binv (set_hart s h BP_check r1 mie (b_mach s)).
Proof.
  intros Hi Hh Hs. pose proof (binv_harts s Hi h Hh) as Hself. rewrite Hs in Hself.
  assert (Hp : forall j, raised (primary (set_hart s h BP_check r1 mie (b_mach s))) j
                       = raised (primary s) j).
  { intros j. rewrite primary_set. case_decide as Hz; [|done]. apply raised_same. right.
    unfold primary. rewrite <- Hz in Hs. by rewrite Hs. }
  apply binv_set; auto using others_frame.
  - eapply hinv_frame; [apply Hp|]. destruct Hself; split; simpl in *; naive_solver.
  - rewrite primary_set. case_decide; [done|]. apply (binv_bcast s Hi).
  - no_sweep Hs.
Qed.

Lemma binv_check s h r1 mie :
  binv s -> hart_ok h -> b_harts s h = BHart BP_check r1 mie ->
  binv (set_hart s h
          (if decide (Z.land (read_mip (b_mach s) h) MIP_MSIP = 0) then BP_wfi else BP_clear)
          r1 mie (b_mach s)).
Proof.
  intros Hi Hh Hs. pose proof (binv_harts s Hi h Hh) as Hself. rewrite Hs in Hself.
  set (pc' := if decide _ then BP_wfi else BP_clear).
  (* the test of [mip] lets through only a raised hart *)
  assert (Hpc : pc' = BP_wfi \/ (pc' = BP_clear /\ raised (primary s) h = true)).
  { subst pc'. case_decide as Hm; [by left|right; split; [done|]].
    rewrite (read_mip_binv s h Hi Hh) in Hm. by destruct (raised _ _). }
  assert (Hp : forall j, raised (primary (set_hart s h pc' r1 mie (b_mach s))) j
                       = raised (primary s) j).
  { intros j. rewrite primary_set. case_decide as Hz; [|done]. apply raised_same. right.
    unfold primary. rewrite <- Hz in Hs. rewrite Hs. simpl. by destruct Hpc as [->|[-> _]]. }
  apply binv_set; auto using others_frame.
  - eapply hinv_frame; [apply Hp|]. destruct Hself.
    destruct Hpc as [->|[-> Hr]]; split; simpl in *; naive_solver.
  - rewrite primary_set. case_decide; [by destruct Hpc as [->|[-> _]]|]. apply (binv_bcast s Hi).
  - destruct Hpc as [->|[-> _]]; no_sweep Hs.
Qed.

Lemma binv_clear s h r1 mie :
  binv s -> hart_ok h -> b_harts s h = BHart BP_clear r1 mie ->
  binv (set_hart s h BP_sweep CLINT_CTRL_ADDR mie
          (__raw_write B32 0 (CLINT_CTRL_ADDR + Z.shiftl (Z.of_nat h) 2) (b_mach s))).
Proof.
  intros Hi Hh Hs. pose proof (binv_harts s Hi h Hh) as Hself. rewrite Hs in Hself.
  rewrite Z.shiftl_mul_pow2 by lia. change (2 ^ 2) with 4. rewrite Z.mul_comm.
  assert (Hr : raised (primary s) h = true) by (apply Hself; simpl; auto).
  assert (Hp : forall m j, raised (primary (set_hart s h BP_sweep CLINT_CTRL_ADDR mie m)) j
                         = raised (primary s) j).
  { intros m j. rewrite primary_set. case_decide as Hz; [|done]. apply raised_same. right.
    unfold primary. rewrite <- Hz in Hs. by rewrite Hs. }
  apply binv_set; auto.
  - intros j Hj Hne. eapply hinv_frame; [apply Hp|].
    rewrite msip_word_write, decide_False by done. by apply (binv_harts s Hi).
  - eapply hinv_frame; [apply Hp|]. rewrite msip_word_write, decide_True by done.
    destruct Hself; split; simpl in *; try naive_solver.
    + by rewrite andb_false_r.
    + intros _. exists 0%nat. unfold MAX_HARTS. simpl. lia.
  - rewrite primary_set. case_decide; [done|]. apply (binv_bcast s Hi).
  - no_sweep Hs.
Qed.

(** A hart whose [msip] word is raised by the broadcast, or untouched. *)
Lemma hinv_raise p p' j hj w w' :
  hinv p j hj w ->
  (raised p' j = raised p j /\ w' = w) \/ (raised p j = false /\ raised p' j = true /\ w' = 1) ->
  hinv p' j hj w'.
Proof.
  intros Hj [[Hr ->]|(Hr & Hr' & ->)]; [by eapply hinv_frame|].
  assert (acked hj = false).
  { destruct (acked hj) eqn:E; [|done]. rewrite (hinv_raised _ _ _ _ Hj) in Hr; auto. }
  destruct Hj as [H1 H2 H3 H4 H5]. split; auto.
  by rewrite Hr', H.
Qed.

Lemma binv_bcast_step s h r1 mie :
  binv s -> hart_ok h -> b_harts s h = BHart BP_bcast r1 mie ->
  binv (set_hart s h (if decide (r1 + 4 < CLINT_END_HART_IPI) then BP_bcast else BP_wfi)
          (r1 + 4) mie (__raw_write B32 1 r1 (b_mach s))).
Proof.
  intros Hi Hh Hs. pose proof (binv_harts s Hi h Hh) as Hself. rewrite Hs in Hself.
  destruct (decide (h = ZERO_HART)) as [->|Hz]; [|destruct Hself; simpl in *; naive_solver].
  assert (Hp : primary s = BHart BP_bcast r1 mie) by done.
  destruct (binv_bcast s Hi) as (k & Hk & Hr1); [by rewrite Hp|].
  rewrite Hp in Hr1. simpl in Hr1. subst r1.
  set (pc' := if decide _ then BP_bcast else BP_wfi).
  assert (Hpc : (pc' = BP_bcast /\ (S k < MAX_HARTS)%nat) \/ (pc' = BP_wfi /\ S k = MAX_HARTS)).
  { subst pc'. platform_consts. case_decide; [left|right]; split; done || lia. }
  assert (Hr' : forall j, hart_ok j -> raised (BHart pc' (CLINT_CTRL_ADDR + 4 * Z.of_nat k + 4) mie) j
                                      = bool_decide (j <= k)%nat).
  { intros j Hj. unfold hart_ok, MAX_HARTS in *. unfold raised.
    destruct Hpc as [[-> ?]|[-> ?]]; simpl; symmetry;
      first [apply bool_decide_ext; split; lia | apply bool_decide_eq_true_2; lia]. }
  assert (Hr : forall j, raised (primary s) j = bool_decide (j < k)%nat).
  { intros j. rewrite Hp. unfold raised. simpl. apply bool_decide_ext; split; lia. }
  assert (Hw : forall j, hart_ok j -> msip_word (__raw_write B32 1 (CLINT_CTRL_ADDR + 4 * Z.of_nat k) (b_mach s)) j
                                    = if decide (j = k) then 1 else msip_word (b_mach s) j).
  { intros j Hj. by rewrite msip_word_write. }
  apply binv_set; rewrite ?primary_set, ?decide_True by done; auto.
  - intros j Hj Hne. rewrite Hw by done. eapply hinv_raise; [by apply (binv_harts s Hi)|].
    rewrite Hr, (Hr' j Hj). case_decide; [subst; right|left].
    + rewrite !bool_decide_eq_false_2, !bool_decide_eq_true_2 by lia. done.
    + split; [apply bool_decide_ext; split; lia|done].
  - rewrite (Hw ZERO_HART Hh). destruct Hself as [H1 _ _ _ H5].
    assert (Hr0 : raised (BHart pc' (CLINT_CTRL_ADDR + 4 * Z.of_nat k + 4) mie) ZERO_HART = true).
    { rewrite (Hr' ZERO_HART Hh). apply bool_decide_eq_true_2. unfold ZERO_HART. lia. }
    split; cbn [b_pc b_mie b_reg1].
    + rewrite Hr0. assert (acked (BHart pc' (CLINT_CTRL_ADDR + 4 * Z.of_nat k + 4) mie) = false)
        as -> by (by destruct Hpc as [[-> ?]|[-> ?]]).
      case_decide as Hk0; [done|]. rewrite H1, Hr. simpl.
      rewrite bool_decide_eq_true_2; [done|unfold ZERO_HART in *; lia].
    + destruct Hpc as [[-> ?]|[-> ?]]; simpl; naive_solver.
    + done.
    + by destruct Hpc as [[-> ?]|[-> ?]].
    + intros _. by apply H5.
  - destruct Hpc as [[-> ?]|[-> ?]]; [|done]. intros _. exists (S k). split; [done|]. simpl. lia.
  - destruct Hpc as [[-> ?]|[-> ?]]; no_sweep Hs.
Qed.

Lemma raised_zero p h : raised p h = true -> raised p 0 = true.
Proof.
  unfold raised. destruct (b_pc p); try done.
  intros ?%bool_decide_eq_true_1. apply bool_decide_eq_true_2. lia.
Qed.

Lemma raised_acked p j : acked p = true -> raised p j = true.
Proof. unfold acked, raised. by destruct (b_pc p). Qed.

(** The word a sweep is about to read has been raised: word 0 because
    the sweeping hart itself was, a later word because the sweep already
    saw the primary acknowledge, after its whole broadcast. *)
Lemma sweep_pointer_raised s h k mie :
  binv s -> hart_ok h -> (k < MAX_HARTS)%nat ->
  b_harts s h = BHart BP_sweep (CLINT_CTRL_ADDR + 4 * Z.of_nat k) mie ->
  raised (primary s) k = true.
Proof.
  intros Hi Hh Hk Hs. destruct k as [|k].
  - apply (raised_zero _ h). apply (hinv_raised _ _ _ _ (binv_harts s Hi h Hh)). left. by rewrite Hs.
  - apply raised_acked. apply (binv_swept s Hi h ZERO_HART Hh).
    + unfold hart_ok, ZERO_HART, MAX_HARTS. lia.
    + rewrite Hs. left. cbn [b_pc b_reg1]. split; [done|unfold ZERO_HART; lia].
Qed.

Lemma binv_sweep_step s h r1 mie :
  binv s -> hart_ok h -> b_harts s h = BHart BP_sweep r1 mie ->
  let v := load_bytes (mem (b_mach s)) r1 (width_bytes B32) in
  let m' := emit (EvLoad B32 r1 v) (b_mach s) in
  binv (if decide (v <> 0) then set_hart s h BP_sweep r1 mie m'
        else set_hart s h (if decide (r1 + 4 < CLINT_END_HART_IPI) then BP_sweep else BP_done)
               (r1 + 4) mie m').
Proof.
  intros Hi Hh Hs v m'. pose proof (binv_harts s Hi h Hh) as Hself. rewrite Hs in Hself.
  destruct (hinv_sweep _ _ _ _ Hself eq_refl) as (k & Hk & Hr1). simpl in Hr1. subst r1.
  assert (Hv : v = msip_word (b_mach s) k) by reflexivity.
  set (pc' := if decide (v <> 0) then BP_sweep
              else if decide (CLINT_CTRL_ADDR + 4 * Z.of_nat k + 4 < CLINT_END_HART_IPI)
                   then BP_sweep else BP_done).
  set (r' := if decide (v <> 0) then CLINT_CTRL_ADDR + 4 * Z.of_nat k
             else CLINT_CTRL_ADDR + 4 * Z.of_nat k + 4).
  replace (if decide (v <> 0) then _ else _) with (set_hart s h pc' r' mie m')
    by (subst pc' r'; by case_decide).
  assert (Hpc : (pc' = BP_sweep /\ in_window r') \/ (pc' = BP_done /\ S k = MAX_HARTS /\ v = 0)).
  { subst pc' r'. unfold in_window. platform_consts.
    case_decide; [left; split; [done|exists k; lia]|].
    case_decide; [left; split; [done|exists (S k); lia]|right; split_and!; done || lia]. }
  assert (Hp : forall j, raised (primary (set_hart s h pc' r' mie m')) j = raised (primary s) j).
  { intros j. rewrite primary_set. case_decide as Hz; [|done]. apply raised_same. right.
    unfold primary. rewrite <- Hz in Hs. rewrite Hs. by destruct Hpc as [[-> ?]|[-> ?]]. }
  assert (Hacked : acked (BHart pc' r' mie) = true) by (by destruct Hpc as [[-> ?]|[-> ?]]).
  apply binv_set; auto.
  - intros j Hj Hne. eapply hinv_frame; [apply Hp|]. by apply (binv_harts s Hi).
  - eapply hinv_frame; [apply Hp|]. destruct Hself as [H1 H2 H3 H4 H5].
    split; cbn [b_pc b_mie b_reg1] in *; rewrite ?Hacked.
    + exact H1.
    + intros _. by apply H2; left.
    + intros Hz. destruct Hpc as [[-> ?]|[-> ?]]; done.
    + intros ->. by destruct Hpc as [[? ?]|[? ?]].
    + intros _. by apply H5.
  - rewrite primary_set. case_decide; [by destruct Hpc as [[-> ?]|[-> ?]]|]. apply (binv_bcast s Hi).
  - intros h' j Hh' Hj. rewrite !set_hart_harts. case_decide as Eh'.
    2:{ intros Hsw. pose proof (binv_swept s Hi h' j Hh' Hj Hsw). by case_decide. }
    subst h'. intros Hsw. case_decide; [done|].
    (* this hart's sweep advanced past word k *)
    assert (Hsk : (j < k)%nat \/ (j = k /\ v = 0)).
    { revert Hsw. unfold swept, hart_ok in *. subst pc' r'. platform_consts.
      repeat case_decide; simpl; intros [[? ?]|?]; try discriminate; lia. }
    destruct Hsk as [Hjk|[-> Hv0]].
    + apply (binv_swept s Hi h j Hh Hj). rewrite Hs. left. simpl. split; [done|lia].
    + (* word k read 0 after k was raised: k has acknowledged *)
      pose proof (hinv_msip _ _ _ _ (binv_harts s Hi k Hj)) as Hm. rewrite <- Hv, Hv0 in Hm.
      rewrite (sweep_pointer_raised s h k mie) in Hm by done.
      simpl in Hm. by destruct (acked (b_harts s k)).
Qed.

(** ** The invariant holds of every reachable configuration *)

Lemma binv_step s s' : binv s -> bstep s s' -> binv s'.
Proof.
  intros Hi Hb. inversion Hb as [h s0 s1 Hh Hst|h s0 r1 mie Hh Hs]; subst;
    [|by apply (binv_wfi s h r1 mie)].
  unfold bstep_hart in Hst.
  destruct (b_harts s h) as [pc r1 mie] eqn:Hs.
  destruct pc; simplify_eq/=.
  - by apply (binv_pause s h r1 mie).
  - by apply (binv_init s h r1 mie).
  - by apply (binv_bcast_step s h r1 mie).
  - destruct (wfi_resumes _ _ _) eqn:Hw; simplify_eq/=. by apply (binv_wfi s h r1 mie).
  - by apply (binv_check s h r1 mie).
  - by apply (binv_clear s h r1 mie).
  - pose proof (binv_sweep_step s h r1 mie Hi Hh Hs) as Hsw. simpl in Hsw.
    revert Hsw. by repeat case_decide; simplify_eq/=.
Qed.

Lemma binv_binit s : binit s -> binv s.
Proof.
  intros H0. assert (Hp : b_pc (primary s) = BP_pause) by (eapply proj1, H0; unfold hart_ok, ZERO_HART, MAX_HARTS; lia).
  assert (Hr : forall j, raised (primary s) j = false) by (intros; unfold raised; by rewrite Hp).
  split.
  - intros j Hj. destruct (H0 j Hj) as [Hpc Hm].
    split; unfold acked; rewrite ?Hr, ?Hpc; [done|..]; intros; try done.
    destruct_or!; discriminate.
  - by rewrite Hp.
  - intros h j Hh Hj. destruct (H0 h Hh) as [Hpc _].
    unfold swept. rewrite Hpc. intros [[? _]|?]; discriminate.
Qed.

Lemma binv_reachable s : breachable s -> binv s.
Proof.
  intros (s0 & H0 & Hr). eapply rtc_invariant; [apply binv_step|apply binv_binit, H0|done].
Qed.

(** Once one hart is past the barrier, every hart has acknowledged and
    its [msip] word is clear. *)
Lemma binv_done_clear s h0 :
  binv s -> hart_ok h0 -> b_pc (b_harts s h0) = BP_done ->
  forall h, hart_ok h -> acked (b_harts s h) = true /\ msip_word (b_mach s) h = 0.
Proof.
  intros Hi Hh0 Hd h Hh.
  assert (Ha : acked (b_harts s h) = true) by (apply (binv_swept s Hi h0 h); [done|done|by right]).
  split; [done|]. rewrite (hinv_msip _ _ _ _ (binv_harts s Hi h Hh)), Ha.
  by rewrite andb_false_r.
Qed.

(** C4: the rendezvous.  In every reachable configuration, once any
    hart has left the barrier (its sweep in [smp_resume] finished),
    every hart has executed its acknowledging [sw zero] (it is at or
    past its sweep) and every [msip] word reads 0.  This holds for the
    secondaries' sweeps as well as the primary's, because every sweep
    starts at the primary's word, which is cleared only after the whole
    broadcast. *)
Theorem barrier_rendezvous s h0 :
  breachable s -> hart_ok h0 -> b_pc (b_harts s h0) = BP_done ->
  forall h, hart_ok h -> acked (b_harts s h) = true /\ msip_word (b_mach s) h = 0.
Proof. intros Hr. apply binv_done_clear, binv_reachable, Hr. Qed.

(** C5: no hart leaves its wait loop before the primary has raised its
    [msip] word, although [wfi] may return spuriously: the re-test of
    [mip] at smp.h:53-55 lets a hart to its clear only when raised, so
    a hart at its clear, at its sweep or past the barrier has been
    raised by the broadcast. *)
Theorem barrier_no_early_wake s h :
  breachable s -> hart_ok h ->
  b_pc (b_harts s h) = BP_clear \/ acked (b_harts s h) = true ->
  raised (primary s) h = true.
Proof.
  intros Hr Hh Hpc. pose proof (binv_reachable s Hr) as Hi.
  apply (hinv_raised _ _ _ _ (binv_harts s Hi h Hh)). tauto.
Qed.

(** ** Progress *)

(** Only [wfi] and the end of the barrier have no step. *)
Lemma bstep_hart_runs s h :
  b_pc (b_harts s h) <> BP_wfi -> b_pc (b_harts s h) <> BP_done -> is_Some (bstep_hart h s).
Proof.
  unfold bstep_hart. destruct (b_harts s h) as [pc r1 mie]; cbn [b_pc].
  destruct pc; try done. destruct (__raw_read B32 r1 (b_mach s)). by case_decide.
Qed.

(** Once the primary has broadcast, a hart waiting in [wfi] can resume. *)
Lemma bstep_hart_wfi s h :
  binv s -> hart_ok h -> b_pc (b_harts s h) = BP_wfi -> past_pause (b_pc (primary s)) = true ->
  is_Some (bstep_hart h s).
Proof.
  intros Hi Hh Hw Hp. pose proof (binv_harts s Hi h Hh) as Hj.
  assert (Hr : raised (primary s) h = true) by (unfold raised; by destruct (b_pc (primary s))).
  assert (Hm : b_mie (b_harts s h) = MIP_MSIP) by (apply (hinv_mie _ _ _ _ Hj); by rewrite Hw).
  assert (Ha : acked (b_harts s h) = false) by (unfold acked; by rewrite Hw).
  unfold bstep_hart. destruct (b_harts s h) as [pc r1 mie] eqn:E; cbn [b_pc b_mie] in *; subst.
  unfold wfi_resumes. rewrite (read_mip_binv s h Hi Hh), Hr, E. cbn. by eexists.
Qed.

(** C6: the barrier never deadlocks: in every reachable configuration
    where some hart has not left the barrier, some hart can take a
    step. *)
Theorem barrier_progress s :
  breachable s -> (exists h, hart_ok h /\ b_pc (b_harts s h) <> BP_done) ->
  exists h, hart_ok h /\ is_Some (bstep_hart h s).
Proof.
  intros Hr (h & Hh & Hd). pose proof (binv_reachable s Hr) as Hi.
  destruct (past_pause (b_pc (primary s))) eqn:Hp.
  - exists h. split; [done|]. destruct (decide (b_pc (b_harts s h) = BP_wfi)).
    + by apply bstep_hart_wfi.
    + by apply bstep_hart_runs.
  - exists ZERO_HART. split; [hart_tac|]. apply bstep_hart_runs; unfold primary in Hp;
      by destruct (b_pc (b_harts s ZERO_HART)).
Qed.

(** ** Executions *)

(** Run the harts in the order of a schedule; a blocked hart, or an id
    out of range, takes no step. *)
Fixpoint brun (sched : list nat) (s : bsys) : bsys :=
  match sched with
  | [] => s
  | h :: sched' =>
      brun sched' (if decide (hart_ok h) then default s (bstep_hart h s) else s)
  end.

Lemma brun_rtc sched s : rtc bstep s (brun sched s).
Proof.
  revert s. induction sched as [|h sched IH]; intros s; simpl; [done|].
  case_decide; [|apply IH]. destruct (bstep_hart h s) eqn:E; simpl; [|apply IH].
  eapply rtc_l; [by econstructor|]. apply IH.
Qed.

(** The reset configuration: every hart at [smp_pause], memory empty. *)
Definition boot_state : bsys := BSys (fun _ => BHart BP_pause 0 0) (Mach ∅ []).

Lemma boot_state_binit : binit boot_state.
Proof. intros h _. split; [done|]. reflexivity. Qed.

Definition round_robin (rounds : nat) : list nat := concat (repeat (seq 0 MAX_HARTS) rounds).

Lemma brun_reachable sched : breachable (brun sched boot_state).
Proof. exists boot_state. split; [apply boot_state_binit|apply brun_rtc]. Qed.

(** The configuration after twenty round-robin rounds from reset. *)
Definition barrier_run20 : bsys := brun (round_robin 20) boot_state.

(** After twenty round-robin rounds from reset, hart 3
    has left the barrier, and the rendezvous holds for hart 1. *)
Lemma barrier_rendezvous_witness :
  breachable barrier_run20 /\ b_pc (b_harts barrier_run20 3) = BP_done /\
  (acked (b_harts barrier_run20 1) = true /\ msip_word (b_mach barrier_run20) 1 = 0).
Proof.
  split; [apply brun_reachable|]. split; [vm_compute; reflexivity|].
  apply (barrier_rendezvous _ 3);
    [apply brun_reachable|cbv; lia|vm_compute; reflexivity|cbv; lia].
Defined.

(** The configuration after four round-robin rounds: the primary is
    still broadcasting. *)
Definition barrier_run4 : bsys := brun (round_robin 4) boot_state.

(** Hart 1 past the barrier after twenty rounds has been raised. *)
Lemma barrier_no_early_wake_witness :
  acked (b_harts barrier_run20 1) = true /\ raised (primary barrier_run20) 1 = true.
Proof.
  split; [vm_compute; reflexivity|].
  apply barrier_no_early_wake; [apply brun_reachable|cbv; lia|right; vm_compute; reflexivity].
Defined.

Lemma barrier_progress_witness :
  breachable barrier_run4 /\ (exists h, hart_ok h /\ b_pc (b_harts barrier_run4 h) <> BP_done) /\
  exists h, hart_ok h /\ is_Some (bstep_hart h barrier_run4).
Proof.
  assert (Hr : breachable barrier_run4) by apply brun_reachable.
  assert (Hd : exists h, hart_ok h /\ b_pc (b_harts barrier_run4 h) <> BP_done).
  { exists 1%nat. split; [cbv; lia|vm_compute; discriminate]. }
  split; [exact Hr|]. split; [exact Hd|]. exact (barrier_progress _ Hr Hd).
Defined.

(** ** [smp_disable]: only the primary goes on *)

(** The single-core variant of the entry: every hart but [ZERO_HART]
    parks in a [wfi] loop it never leaves; the primary branches to
    [hart0_entry].  Each hart runs it on its own registers; the machine
    and [mie] may change between its steps (other harts run). *)
Module Disable.

Inductive dpc :=
| D_start   (* csrr reg1, mhartid; li reg2, ZERO_HART; beq reg1, reg2, hart0_entry *)
| D_wfi     (* 42: wfi *)
| D_jump    (* j 42b *)
| D_entry.  (* hart0_entry: *)

Record dhart := DHart { d_pc : dpc; d_reg1 : Z; d_reg2 : Z }.

(** One step of hart [h] under the machine [m] and its [mie]; [None]
    while [wfi] waits, and at [hart0_entry], where the macro ends. *)
Definition dstep (h : nat) (m : mach) (mie : Z) (s : dhart) : option dhart :=
  match d_pc s with
  | D_start =>
      let r1 := Z.of_nat h in
      let r2 := Z.of_nat ZERO_HART in
      Some (DHart (if decide (r1 = r2) then D_entry else D_wfi) r1 r2)
  | D_wfi => if wfi_resumes m h mie then Some (DHart D_jump (d_reg1 s) (d_reg2 s)) else None
  | D_jump => Some (DHart D_wfi (d_reg1 s) (d_reg2 s))
  | D_entry => None
  end.

(** The states of hart [h], from any register contents, under any
    sequence of machines. *)
Inductive dreach (h : nat) : dhart -> Prop :=
| dreach_init r1 r2 : dreach h (DHart D_start r1 r2)
| dreach_step m mie s s' : dreach h s -> dstep h m mie s = Some s' -> dreach h s'.

(** C7: [smp_disable] parks the secondaries: a hart that reaches
    [hart0_entry] is [ZERO_HART], whatever interrupts wake the others
    from [wfi]. *)
Theorem smp_disable_parks h s : dreach h s -> d_pc s = D_entry -> h = ZERO_HART.
Proof.
  induction 1 as [|m mie s s' Hr IH Hs]; [done|]. intros Hp.
  destruct s as [[] r1 r2]; cbn [dstep d_pc] in Hs;
    [case_decide as Hd|destruct (wfi_resumes m h mie)|..]; simplify_eq/=.
  unfold ZERO_HART in *. lia.
Qed.

(** C19: the primary is never parked: it is at the start or at
    [hart0_entry] with [reg1 = reg2 = 0], and from the start it
    reaches [hart0_entry] in one step under any machine. *)
Theorem smp_disable_primary s :
  dreach ZERO_HART s -> (d_pc s = D_start \/ s = DHart D_entry 0 0) /\
    forall m mie, d_pc s = D_start -> dstep ZERO_HART m mie s = Some (DHart D_entry 0 0).
Proof.
  intros Hr. split; [|by intros m mie Hs; unfold dstep; rewrite Hs].
  induction Hr as [r1 r2|m mie s s' Hr IH Hs]; [by left|].
  destruct IH as [Hp| ->]; [|by cbn in Hs]. right. unfold dstep in Hs. rewrite Hp in Hs. by simplify_eq.
Qed.

Lemma smp_disable_parks_witness :
  dreach ZERO_HART (DHart D_entry 0 0) /\ d_pc (DHart D_entry 0 0) = D_entry /\ ZERO_HART = ZERO_HART.
Proof.
  assert (H : dreach ZERO_HART (DHart D_entry 0 0)).
  { apply (dreach_step _ (Mach ∅ []) 0 (DHart D_start 7 7)); [constructor|reflexivity]. }
  split; [exact H|]. split; [reflexivity|]. exact (smp_disable_parks _ _ H eq_refl).
Defined.

Lemma smp_disable_primary_witness :
  dreach ZERO_HART (DHart D_start 7 7) /\
  ((d_pc (DHart D_start 7 7) = D_start \/ DHart D_start 7 7 = DHart D_entry 0 0) /\
   forall m mie, d_pc (DHart D_start 7 7) = D_start ->
     dstep ZERO_HART m mie (DHart D_start 7 7) = Some (DHart D_entry 0 0)).
Proof.
  assert (H : dreach ZERO_HART (DHart D_start 7 7)) by constructor.
  split; [exact H|]. exact (smp_disable_primary _ H).
Defined.

End Disable.
