(* ===== verification/StringLib.v ===== *)
(** * The string library, [libs/string.c]

    [strlen], [memset], [memcpy], [memmove] and [memcmp] over the byte
    memory of [Mmio].  These are plain C accesses, not the fenced
    accessors of [io.h]: a store updates the memory and records an
    unfenced [EvStore] in the trace; loads are not recorded.  The C
    loops [while (n-- > 0)] run [n] times and are [Fixpoint]s on the
    count; [strlen]'s loop, which stops at the first NUL, takes fuel.

    Reference definitions: [load_list] reads [n] bytes, [store_list]
    writes a list of bytes.  Theorems: [memmove] is, for every
    overlap, the copy of a snapshot of the source; [memcpy] is the
    same when the destination does not start inside the source;
    [memset] fills; [memcmp] returns 0 exactly on equal contents and
    otherwise the difference of the first differing bytes; [strlen]
    returns the index of the first NUL given enough fuel. *)

From S2P Require Import Prelude Platform Mmio.

(** ** Plain byte accesses *)

(** [*p] for a [char] or [unsigned char] pointer. *)
Definition byte_at (m : mach) (a : Z) : Z := u8[default 0 (mem m !! a)].

(** [*p = v]. *)
Definition plain_store (a v : Z) (m : mach) : mach :=
  Mach (<[a := u8[v]]> (mem m)) (trace m ++ [EvStore B8 a u8[v]]).

(** ** Reference definitions *)

Fixpoint load_list (m : mach) (a : Z) (n : nat) : list Z :=
  match n with
  | O => []
  | S n' => byte_at m a :: load_list m (a + 1) n'
  end.

Fixpoint store_list (mm : gmap Z Z) (a : Z) (l : list Z) : gmap Z Z :=
  match l with
  | [] => mm
  | b :: l' => store_list (<[a := u8[b]]> mm) (a + 1) l'
  end.

(** ** [string.c] *)

(** [size_t strlen(const char *s)]: [while ( *s++ != '\0') cnt++]. *)
Fixpoint strlen_loop (fuel : nat) (m : mach) (s cnt : Z) : option Z :=
  match fuel with
  | O => None
  | S fuel' => if decide (byte_at m s = 0) then Some cnt
               else strlen_loop fuel' m (s + 1) u64[cnt + 1]
  end.

Definition strlen (fuel : nat) (m : mach) (s : Z) : option Z := strlen_loop fuel m s 0.

(** [memset(s, c, n)]: [while (n-- > 0) *p++ = c]. *)
Fixpoint memset_loop (k : nat) (p c : Z) (m : mach) : mach :=
  match k with
  | O => m
  | S k' => memset_loop k' (p + 1) c (plain_store p c m)
  end.

Definition memset (s c n : Z) (m : mach) : Z * mach := (s, memset_loop (Z.to_nat n) s c m).

(** The forward loop of [memcpy] and of [memmove]'s second branch:
    [while (n-- > 0) *d++ = *s++]. *)
Fixpoint copy_fwd (k : nat) (d s : Z) (m : mach) : mach :=
  match k with
  | O => m
  | S k' => copy_fwd k' (d + 1) (s + 1) (plain_store d (byte_at m s) m)
  end.

(** The backward loop of [memmove]: [while (n-- > 0) *--d = *--s],
    started from the end pointers. *)
Fixpoint copy_bwd (k : nat) (d s : Z) (m : mach) : mach :=
  match k with
  | O => m
  | S k' => copy_bwd k' (d - 1) (s - 1) (plain_store (d - 1) (byte_at m (s - 1)) m)
  end.

Definition memcpy (dst src n : Z) (m : mach) : Z * mach :=
  (dst, copy_fwd (Z.to_nat n) dst src m).

Definition memmove (dst src n : Z) (m : mach) : Z * mach :=
  if decide (src < dst /\ src + n > dst)
  then (dst, copy_bwd (Z.to_nat n) (dst + n) (src + n) m)
  else (dst, copy_fwd (Z.to_nat n) dst src m).

(** [memcmp]: the difference of the first differing bytes, as
    [unsigned char], or 0. *)
Fixpoint memcmp_loop (k : nat) (s1 s2 : Z) (m : mach) : Z :=
  match k with
  | O => 0
  | S k' => if decide (byte_at m s1 <> byte_at m s2) then byte_at m s1 - byte_at m s2
            else memcmp_loop k' (s1 + 1) (s2 + 1) m
  end.

Definition memcmp (v1 v2 n : Z) (m : mach) : Z := memcmp_loop (Z.to_nat n) v1 v2 m.

(** ** Lemmas on the reference definitions *)

Lemma mem_plain_store a v m : mem (plain_store a v m) = <[a := u8[v]]> (mem m).
Proof. reflexivity. Qed.

Lemma byte_at_plain_store a v m x :
  byte_at (plain_store a v m) x = if decide (x = a) then u8[v] else byte_at m x.
Proof.
  unfold byte_at. rewrite mem_plain_store. case_decide; subst.
  - rewrite lookup_insert_eq. simpl. by rewrite wrap_idem by lia.
  - by rewrite lookup_insert_ne by congruence.
Qed.

Lemma store_list_lookup_out mm a l x :
  (x < a \/ a + Z.of_nat (length l) <= x) -> store_list mm a l !! x = mm !! x.
Proof.
  revert mm a. induction l as [|b l IH]; intros mm a Hx; [done|].
  simpl in *. rewrite IH by lia. apply lookup_insert_ne. lia.
Qed.

Lemma store_list_insert_comm mm a l y v :
  (y < a \/ a + Z.of_nat (length l) <= y) ->
  store_list (<[y := v]> mm) a l = <[y := v]> (store_list mm a l).
Proof.
  revert mm a. induction l as [|b l IH]; intros mm a Hy; [done|].
  simpl in *. rewrite insert_insert_ne by lia. apply IH. lia.
Qed.

Lemma store_list_snoc mm a l b :
  store_list mm a (l ++ [b]) = <[a + Z.of_nat (length l) := u8[b]]> (store_list mm a l).
Proof.
  revert mm a. induction l as [|c l IH]; intros mm a; simpl.
  - by rewrite Z.add_0_r.
  - rewrite IH. f_equal. lia.
Qed.

Lemma length_load_list m a n : length (load_list m a n) = n.
Proof. revert a. induction n; intros; simpl; auto. Qed.

Lemma load_list_snoc m a n :
  load_list m a (S n) = load_list m a n ++ [byte_at m (a + Z.of_nat n)].
Proof.
  revert a. induction n as [|n IH]; intros a.
  - simpl. by rewrite Z.add_0_r.
  - change (load_list m a (S (S n))) with (byte_at m a :: load_list m (a + 1) (S n)).
    rewrite IH. cbn [load_list app]. by replace (a + 1 + Z.of_nat n) with (a + Z.of_nat (S n)) by lia.
Qed.

(** An address equal to none of [s + j], [0 < j <= k], is outside the
    range. *)
Lemma outside_range a s k :
  (forall j, (0 < j <= k)%nat -> a <> s + Z.of_nat j) -> a < s + 1 \/ s + 1 + Z.of_nat k <= a.
Proof.
  intros H. destruct (decide (s + 1 <= a < s + 1 + Z.of_nat k)) as [Hin|]; [|lia].
  exfalso. apply (H (Z.to_nat (a - s))); lia.
Qed.

Lemma load_list_store_out m a v s k :
  (a < s \/ s + Z.of_nat k <= a) -> load_list (plain_store a v m) s k = load_list m s k.
Proof.
  revert s. induction k as [|k IH]; intros s Ha; [done|]. simpl.
  rewrite byte_at_plain_store, decide_False by lia. f_equal. apply IH. lia.
Qed.

(** ** The copy loops against the reference *)

(** The forward loop copies the source snapshot when no write lands on
    a source byte still to be read. *)
Lemma copy_fwd_spec k d s m :
  (forall i j, (i < j < k)%nat -> d + Z.of_nat i <> s + Z.of_nat j) ->
  mem (copy_fwd k d s m) = store_list (mem m) d (load_list m s k).
Proof.
  revert d s m. induction k as [|k IH]; intros d s m Hd; [done|]. simpl.
  rewrite IH.
  - rewrite load_list_store_out; [done|].
    assert (Hout : d < s + 1 \/ s + 1 + Z.of_nat k <= d).
    { apply outside_range. intros j Hj. specialize (Hd 0%nat j). lia. }
    lia.
  - intros i j Hij. specialize (Hd (S i) (S j)). lia.
Qed.

(** The backward loop, from the end pointers [d] and [s], copies the
    snapshot when no write lands on a source byte still to be read. *)
Lemma copy_bwd_spec k d s m :
  (forall i j, (i < j < k)%nat -> d - 1 - Z.of_nat i <> s - 1 - Z.of_nat j) ->
  mem (copy_bwd k d s m) = store_list (mem m) (d - Z.of_nat k) (load_list m (s - Z.of_nat k) k).
Proof.
  revert d s m. induction k as [|k IH]; intros d s m Hd; cbn [copy_bwd].
  - reflexivity.
  - rewrite IH.
    + rewrite load_list_store_out.
      * rewrite mem_plain_store, store_list_insert_comm by (rewrite length_load_list; lia).
        rewrite load_list_snoc, store_list_snoc, length_load_list.
        replace (d - 1 - Z.of_nat k) with (d - Z.of_nat (S k)) by lia.
        replace (s - 1 - Z.of_nat k) with (s - Z.of_nat (S k)) by lia.
        replace (d - Z.of_nat (S k) + Z.of_nat k) with (d - 1) by lia.
        by replace (s - Z.of_nat (S k) + Z.of_nat k) with (s - 1) by lia.
      * assert (Hout : d - 1 < s - 2 - Z.of_nat k + 1 \/ s - 2 - Z.of_nat k + 1 + Z.of_nat k <= d - 1).
        { apply outside_range. intros j Hj. specialize (Hd 0%nat (S k - j)%nat). lia. }
        lia.
    + intros i j Hij. specialize (Hd (S i) (S j)). lia.
Qed.

(** C14: [memmove] is the copy of a snapshot of the source, whatever the
    overlap of the two buffers: afterwards the destination holds the
    [n] bytes the source held before the call. *)
Theorem memmove_correct dst src n m :
  0 <= n ->
  fst (memmove dst src n m) = dst /\
  mem (snd (memmove dst src n m)) = store_list (mem m) dst (load_list m src (Z.to_nat n)).
Proof.
  intros Hn. unfold memmove. case_decide as Hov; split; try done; simpl.
  - rewrite copy_bwd_spec by lia. rewrite Z2Nat.id by lia.
    by replace (dst + n - n) with dst by lia; replace (src + n - n) with src by lia.
  - apply copy_fwd_spec. intros i j Hij. lia.
Qed.

(** C15: [memcpy] copies forward; it agrees with the snapshot copy
    exactly when the destination does not start strictly inside the
    source. *)
Theorem memcpy_correct dst src n m :
  0 <= n -> dst <= src \/ src + n <= dst ->
  fst (memcpy dst src n m) = dst /\
  mem (snd (memcpy dst src n m)) = store_list (mem m) dst (load_list m src (Z.to_nat n)).
Proof. intros Hn Hd. split; [done|]. apply copy_fwd_spec. intros i j Hij. lia. Qed.

(** ** [memset], [memcmp], [strlen] *)

Lemma memset_spec s c n m :
  fst (memset s c n m) = s /\
  mem (snd (memset s c n m)) = store_list (mem m) s (repeat c (Z.to_nat n)).
Proof.
  split; [done|]. unfold memset; simpl. generalize (Z.to_nat n) as k. intros k.
  revert s m. induction k as [|k IH]; intros s m; [done|]. simpl. by rewrite IH.
Qed.

Lemma memcmp_loop_range k s1 s2 m : -255 <= memcmp_loop k s1 s2 m <= 255.
Proof.
  revert s1 s2. induction k as [|k IH]; intros s1 s2; simpl; [lia|].
  case_decide; [|apply IH]. unfold byte_at.
  pose proof (wrap_range 8 (default 0 (mem m !! s1))).
  pose proof (wrap_range 8 (default 0 (mem m !! s2))). simpl in *. lia.
Qed.

(** C24: [memcmp] returns 0 exactly when the two [n]-byte ranges hold
    the same bytes, and otherwise a value in [-255, 255] whose sign is
    that of the first differing byte pair, compared as [unsigned char]. *)
Theorem memcmp_correct v1 v2 n m :
  (memcmp v1 v2 n m = 0 <-> load_list m v1 (Z.to_nat n) = load_list m v2 (Z.to_nat n)) /\
  -255 <= memcmp v1 v2 n m <= 255 /\
  (memcmp v1 v2 n m <> 0 ->
   exists i, (i < Z.to_nat n)%nat /\
     take i (load_list m v1 (Z.to_nat n)) = take i (load_list m v2 (Z.to_nat n)) /\
     memcmp v1 v2 n m = byte_at m (v1 + Z.of_nat i) - byte_at m (v2 + Z.of_nat i) /\
     byte_at m (v1 + Z.of_nat i) <> byte_at m (v2 + Z.of_nat i)).
Proof.
  unfold memcmp. generalize (Z.to_nat n) as k. intros k.
  split; [|split; [apply memcmp_loop_range|]].
  - revert v1 v2. induction k as [|k IH]; intros v1 v2; simpl; [done|].
    case_decide as Hne.
    + split; [lia|]. by intros [= ? _].
    + rewrite IH. split; [by intros ->; f_equal; lia|]. by intros [= _ ?].
  - revert v1 v2. induction k as [|k IH]; intros v1 v2; simpl; [done|].
    case_decide as Hne.
    + intros _. exists 0%nat. rewrite !Z.add_0_r. split_and!; done || lia.
    + intros Hz. destruct (IH (v1 + 1) (v2 + 1) Hz) as (i & Hi & Ht & Hv & Hd).
      exists (S i). simpl. rewrite Ht.
      replace (v1 + Z.of_nat (S i)) with (v1 + 1 + Z.of_nat i) by lia.
      replace (v2 + Z.of_nat (S i)) with (v2 + 1 + Z.of_nat i) by lia.
      split_and!; try done; [lia|]. f_equal. lia.
Qed.

(** C25: [strlen] terminates at the first NUL: when the bytes at
    [s, ..., s+k-1] are non-zero and the byte at [s+k] is 0, the loop
    given more than [k] iterations returns [k]. *)
Theorem strlen_correct fuel m s k :
  (forall i, (i < k)%nat -> byte_at m (s + Z.of_nat i) <> 0) ->
  byte_at m (s + Z.of_nat k) = 0 -> (k < fuel)%nat -> Z.of_nat k < 2 ^ 64 ->
  strlen fuel m s = Some (Z.of_nat k).
Proof.
  intros Hnz Hz Hf Hk. unfold strlen.
  assert (Hgen : forall f a c, (k - a < f)%nat -> (a <= k)%nat -> c = Z.of_nat a ->
            strlen_loop f m (s + Z.of_nat a) c = Some (Z.of_nat k)).
  { induction f as [|f IH]; intros a c Ha Hak ->; [lia|]. simpl.
    case_decide as Hb.
    - destruct (decide (a = k)) as [->|Hne]; [done|]. exfalso. apply (Hnz a); [lia|done].
    - destruct (decide (a = k)) as [->|Hne]; [done|].
      replace (s + Z.of_nat a + 1) with (s + Z.of_nat (S a)) by lia.
      apply IH; [lia|lia|]. rewrite wrap_small; lia. }
  replace s with (s + Z.of_nat 0) at 1 by lia. apply Hgen; lia.
Qed.

(** What a returned length says: the bytes before it are non-zero and
    the byte at it is the NUL, within the fuel. *)
Lemma strlen_sound fuel m s r :
  Z.of_nat fuel < 2 ^ 64 -> strlen fuel m s = Some r ->
  exists k, r = Z.of_nat k /\ (k < fuel)%nat /\
    (forall i, (i < k)%nat -> byte_at m (s + Z.of_nat i) <> 0) /\ byte_at m (s + Z.of_nat k) = 0.
Proof.
  intros Hf. unfold strlen.
  assert (Hgen : forall f a, Z.of_nat (a + f) < 2 ^ 64 ->
            (forall i, (i < a)%nat -> byte_at m (s + Z.of_nat i) <> 0) ->
            strlen_loop f m (s + Z.of_nat a) (Z.of_nat a) = Some r ->
            exists k, r = Z.of_nat k /\ (k < a + f)%nat /\
              (forall i, (i < k)%nat -> byte_at m (s + Z.of_nat i) <> 0) /\
              byte_at m (s + Z.of_nat k) = 0).
  { induction f as [|f IH]; intros a Ha Hnz; [done|]. simpl. case_decide as Hb.
    - intros [= <-]. exists a. split; [done|]. split; [lia|done].
    - rewrite wrap_small by lia. replace (s + Z.of_nat a + 1) with (s + Z.of_nat (S a)) by lia.
      replace (Z.of_nat a + 1) with (Z.of_nat (S a)) by lia. intros Hr.
      destruct (IH (S a)) as (k & Hk & Hkf & Hk1 & Hk2); [lia| |done|].
      + intros i Hi. destruct (decide (i = a)) as [->|]; [done|]. apply Hnz. lia.
      + exists k. split; [done|]. split; [lia|done]. }
  intros Hr. replace s with (s + Z.of_nat 0) in Hr by lia.
  destruct (Hgen fuel 0%nat) as (k & Hk); [lia|lia|done|]. by exists k.
Qed.

(** ** Witnesses *)

(** A machine holding ["hello"] and its NUL at address 100. *)
Definition hello_mach : mach := Mach (store_list ∅ 100 [104; 101; 108; 108; 111; 0]) [].

Lemma memmove_correct_witness :
  0 <= 4 /\
  fst (memmove 102 100 4 hello_mach) = 102 /\
  mem (snd (memmove 102 100 4 hello_mach))
  = store_list (mem hello_mach) 102 (load_list hello_mach 100 (Z.to_nat 4)).
Proof. split; [lia|]. apply memmove_correct. lia. Defined.

Lemma memcpy_correct_witness :
  0 <= 3 /\ (200 <= 100 \/ 100 + 3 <= 200) /\
  fst (memcpy 200 100 3 hello_mach) = 200 /\
  mem (snd (memcpy 200 100 3 hello_mach))
  = store_list (mem hello_mach) 200 (load_list hello_mach 100 (Z.to_nat 3)).
Proof. split; [lia|]. split; [lia|]. apply memcpy_correct; lia. Defined.

Lemma strlen_correct_witness :
  byte_at hello_mach (100 + Z.of_nat 5) = 0 /\ strlen 10 hello_mach 100 = Some 5.
Proof.
  split; [vm_compute; reflexivity|].
  apply (strlen_correct 10 hello_mach 100 5); [|vm_compute; reflexivity|lia|lia].
  intros i Hi. do 5 (destruct i as [|i]; [vm_compute; discriminate|]). lia.
Defined.
