(* ===== verification/Uart.v ===== *)
(** * The UART driver, [devices/uart/uart.c]

    The driver keeps three statics ([uart_base], [uart_in_freq],
    [uart_baudrate]) and reaches the device through [get_reg]/[set_reg]
    at [uart_base + (i << 2)].  The device is modelled by its
    register behaviour (SiFive UART, as [uart.h] describes it): a read
    of [TXDATA] reports [UART_TXDATA_FULL] while the transmit FIFO is
    full, for [tx_busy] more polls; a write of [TXDATA] transmits the
    low byte; a read of [RXDATA] pops the next received byte, or
    reports [UART_RXDATA_EMPTY]; the other registers hold what was
    written.  The device's register file is addressed by the offset
    from the configured base.

    Theorems: [uart_putc] always terminates and transmits exactly its
    character; [uart_getc] returns the next received byte or -1;
    [uart_put_hex] prints "0x" and eight digits from which the value
    is recovered (a round trip); [uart_min_clk_divisor] computes the
    least divisor that keeps the baud rate at or below the target;
    [uart_init] as [main] calls it programs the control registers and
    leaves the divisor alone. *)

From S2P Require Import Prelude Platform.

(** ** [uart.h] *)

Definition UART_REG_TXDATA : Z := 0.
Definition UART_REG_RXDATA : Z := 1.
Definition UART_REG_TXCTRL : Z := 2.
Definition UART_REG_RXCTRL : Z := 3.
Definition UART_REG_IE : Z := 4.
Definition UART_REG_DIV : Z := 6.
Definition UART_TXDATA_FULL : Z := 2147483648.    (* 0x80000000 *)
Definition UART_RXDATA_EMPTY : Z := 2147483648.   (* 0x80000000 *)
Definition UART_RXDATA_MASK : Z := 255.
Definition UART_TXCTRL_TXEN : Z := 1.
Definition UART_RXCTRL_RXEN : Z := 1.

(** ** The device *)

Record uart_dev := UDev {
  tx_out : list Z;        (* bytes transmitted so far *)
  tx_busy : nat;          (* polls for which TXDATA still reads full *)
  rx_in : list Z;         (* bytes received and not yet read *)
  ctrl : gmap Z Z         (* the other registers, by byte offset *)
}.

Definition dev_read (off : Z) (d : uart_dev) : Z * uart_dev :=
  if decide (off = 4 * UART_REG_TXDATA) then
    match tx_busy d with
    | S n => (UART_TXDATA_FULL, UDev (tx_out d) n (rx_in d) (ctrl d))
    | O => (0, d)
    end
  else if decide (off = 4 * UART_REG_RXDATA) then
    match rx_in d with
    | c :: r => (u8[c], UDev (tx_out d) (tx_busy d) r (ctrl d))
    | [] => (UART_RXDATA_EMPTY, d)
    end
  else (default 0 (ctrl d !! off), d).

Definition dev_write (off v : Z) (d : uart_dev) : uart_dev :=
  if decide (off = 4 * UART_REG_TXDATA)
  then UDev (tx_out d ++ [u8[v]]) (tx_busy d) (rx_in d) (ctrl d)
  else UDev (tx_out d) (tx_busy d) (rx_in d) (<[off := u32[v]]> (ctrl d)).

(** ** [uart.c] *)

Record uart_st := UartSt {
  uart_base : Z;
  uart_in_freq : Z;
  uart_baudrate : Z;
  udev : uart_dev
}.

Definition with_dev (s : uart_st) (d : uart_dev) : uart_st :=
  UartSt (uart_base s) (uart_in_freq s) (uart_baudrate s) d.

(** RISC-V [divu]: division by zero yields all ones. *)
Definition divu64 (a b : Z) : Z := if decide (b = 0) then 2 ^ 64 - 1 else a / b.

(** [uart_min_clk_divisor]: [uint64_t] arithmetic, [unsigned int] result. *)
Definition uart_min_clk_divisor (in_freq max_target_hz : Z) : Z :=
  let quotient := divu64 u64[in_freq + max_target_hz - 1] max_target_hz in
  if decide (quotient = 0) then 0 else u32[quotient - 1].

(** [get_reg(i)]: [readw(uart_base + (i << 2))]. *)
Definition get_reg (i : Z) (s : uart_st) : Z * uart_st :=
  let '(v, d) := dev_read u32[Z.shiftl i 2] (udev s) in (v, with_dev s d).

(** [set_reg(i, v)]: [writew(v, uart_base + (i << 2))]. *)
Definition set_reg (i v : Z) (s : uart_st) : uart_st :=
  with_dev s (dev_write u32[Z.shiftl i 2] v (udev s)).

(** [while (get_reg(UART_REG_TXDATA) & UART_TXDATA_FULL);] with [fuel]
    polls; [None] if the FIFO is still full after them. *)
Fixpoint uart_wait_tx (fuel : nat) (s : uart_st) : option uart_st :=
  match fuel with
  | O => None
  | S fuel' =>
      let '(v, s1) := get_reg UART_REG_TXDATA s in
      if decide (Z.land v UART_TXDATA_FULL <> 0) then uart_wait_tx fuel' s1 else Some s1
  end.

(** [uart_putc]: the device stays full for [tx_busy] polls, so
    [tx_busy + 1] polls always suffice (see [uart_wait_tx_done]). *)
Definition uart_putc (ch : Z) (s : uart_st) : option uart_st :=
  match uart_wait_tx (S (tx_busy (udev s))) s with
  | Some s1 => Some (set_reg UART_REG_TXDATA ch s1)
  | None => None
  end.

Definition uart_getc (s : uart_st) : Z * uart_st :=
  let '(reg, s1) := get_reg UART_REG_RXDATA s in
  if decide (Z.land reg UART_RXDATA_EMPTY = 0) then (Z.land reg UART_RXDATA_MASK, s1)
  else (-1, s1).

Definition uart_init (base in_freq baudrate : Z) (s : uart_st) : uart_st :=
  let s0 := UartSt base u32[in_freq] u32[baudrate] (udev s) in
  let s1 := if decide (u32[in_freq] <> 0)
            then set_reg UART_REG_DIV (uart_min_clk_divisor u32[in_freq] u32[baudrate]) s0
            else s0 in
  let s2 := set_reg UART_REG_IE 0 s1 in
  let s3 := set_reg UART_REG_TXCTRL UART_TXCTRL_TXEN s2 in
  set_reg UART_REG_RXCTRL UART_RXCTRL_RXEN s3.

(** [uart_puts(s)]: [while ( *s != '\0') uart_putc( *s++)], over the
    bytes of the string up to its NUL. *)
Fixpoint uart_puts (str : list Z) (s : uart_st) : option uart_st :=
  match str with
  | [] => Some s
  | c :: str' =>
      if decide (c = 0) then Some s
      else match uart_putc c s with Some s1 => uart_puts str' s1 | None => None end
  end.

(** The character [uart_put_hex] prints for a nibble [c]. *)
Definition hex_char (c : Z) : Z := if decide (c < 10) then 48 + c else 97 + c - 10.

(** The loop [for (idx = num - 1; idx >= 0; idx--)], [idx] counting
    down from [k - 1]. *)
Fixpoint put_hex_digits (k : nat) (hex : Z) (s : uart_st) : option uart_st :=
  match k with
  | O => Some s
  | S k' =>
      let c := Z.land (Z.shiftr hex (Z.of_nat k' * 4)) 15 in
      match uart_putc (hex_char c) s with
      | Some s1 => put_hex_digits k' hex s1
      | None => None
      end
  end.

(** [uart_put_hex(uint32_t hex)]: "0x" then [sizeof(hex) * 2] digits. *)
Definition uart_put_hex (hex : Z) (s : uart_st) : option uart_st :=
  match uart_puts [48; 120; 0] s with
  | Some s1 => put_hex_digits 8 u32[hex] s1
  | None => None
  end.

(** ** Transmission *)

(** The device state once the FIFO has drained and [c] was sent. *)
Definition sent (c : Z) (s : uart_st) : uart_st :=
  with_dev s (UDev (tx_out (udev s) ++ [u8[c]]) 0 (rx_in (udev s)) (ctrl (udev s))).

Lemma uart_wait_tx_done n s :
  (tx_busy (udev s) < n)%nat ->
  uart_wait_tx n s = Some (with_dev s (UDev (tx_out (udev s)) 0 (rx_in (udev s)) (ctrl (udev s)))).
Proof.
  revert s. induction n as [|n IH]; intros [b f i [tx busy rx c]] Hn; simpl in *; [lia|].
  unfold get_reg, dev_read; simpl. destruct busy as [|busy].
  - by rewrite decide_False by (vm_compute; congruence).
  - rewrite decide_True by (vm_compute; congruence). apply (IH (UartSt b f i (UDev tx busy rx c))).
    simpl. lia.
Qed.

(** C26: [uart_putc] terminates whatever the FIFO's state (its
    busy-wait ends after the device's [tx_busy] full polls) and
    transmits exactly the low byte of its character. *)
Theorem uart_putc_correct ch s : uart_putc ch s = Some (sent ch s).
Proof.
  unfold uart_putc. rewrite uart_wait_tx_done by lia. reflexivity.
Qed.

(** [c1 ... cn] sent one after the other. *)
Definition sent_list (l : list Z) (s : uart_st) : uart_st := foldl (fun s c => sent c s) s l.

Lemma sent_list_app l1 l2 s : sent_list (l1 ++ l2) s = sent_list l2 (sent_list l1 s).
Proof. apply foldl_app. Qed.

Lemma sent_list_dev l s :
  uart_base (sent_list l s) = uart_base s /\ uart_in_freq (sent_list l s) = uart_in_freq s /\
  tx_out (udev (sent_list l s)) = tx_out (udev s) ++ ((fun c => u8[c]) <$> l) /\
  rx_in (udev (sent_list l s)) = rx_in (udev s) /\ ctrl (udev (sent_list l s)) = ctrl (udev s).
Proof.
  revert s. induction l as [|c l IH]; intros s; simpl.
  - by rewrite app_nil_r.
  - destruct (IH (sent c s)) as (-> & -> & -> & -> & ->). simpl. by rewrite <- app_assoc.
Qed.

Lemma uart_puts_correct str rest s :
  Forall (fun c => c <> 0) str -> uart_puts (str ++ 0 :: rest) s = Some (sent_list str s).
Proof.
  revert s. induction str as [|c str IH]; intros s Hs; simpl; [done|].
  apply Forall_cons in Hs as [Hc Hs]. rewrite decide_False by done.
  rewrite uart_putc_correct. by apply IH.
Qed.

(** ** Reception *)

(** C27: [uart_getc] pops the next received byte, and returns -1
    without changing anything when nothing was received; it never
    blocks. *)
Theorem uart_getc_correct s :
  uart_getc s = match rx_in (udev s) with
                | c :: r => (u8[c], with_dev s (UDev (tx_out (udev s)) (tx_busy (udev s)) r (ctrl (udev s))))
                | [] => (-1, s)
                end.
Proof.
  destruct s as [b f i [tx busy [|c r] cr]]; unfold uart_getc, get_reg, dev_read;
    simpl; [done|].
  change UART_RXDATA_EMPTY with (2 ^ 31). rewrite land_pow2_small.
  - rewrite decide_True by done. change UART_RXDATA_MASK with (Z.ones 8).
    rewrite Z.land_ones by lia. by rewrite Z.mod_small by (apply wrap_range; lia).
  - lia.
  - pose proof (wrap_range 8 c). lia.
Qed.

(** ** [uart_put_hex] *)

(** Reading back a digit [uart_put_hex] printed, and a digit string
    (most significant first). *)
Definition hex_val (c : Z) : Z := if decide (c <= 57) then c - 48 else c - 87.

Fixpoint hex_parse (l : list Z) : Z :=
  match l with
  | [] => 0
  | c :: l' => hex_val c * 16 ^ Z.of_nat (length l') + hex_parse l'
  end.

Definition is_hex_digit (c : Z) : bool := bool_decide (48 <= c <= 57 \/ 97 <= c <= 102).

(** The characters [put_hex_digits k x] prints. *)
Fixpoint hex_digits (k : nat) (x : Z) : list Z :=
  match k with
  | O => []
  | S k' => hex_char (Z.land (Z.shiftr x (Z.of_nat k' * 4)) 15) :: hex_digits k' x
  end.

Lemma nibble_spec x k : 0 <= k -> Z.land (Z.shiftr x (k * 4)) 15 = (x / 2 ^ (4 * k)) mod 16.
Proof.
  intros Hk. change 15 with (Z.ones 4). rewrite Z.land_ones, Z.shiftr_div_pow2 by lia.
  by rewrite Z.mul_comm.
Qed.

Lemma hex_char_spec n : 0 <= n < 16 ->
  hex_val (hex_char n) = n /\ is_hex_digit (hex_char n) = true /\ u8[hex_char n] = hex_char n.
Proof.
  intros Hn. unfold hex_val, hex_char, is_hex_digit.
  destruct (decide (n < 10)); rewrite wrap_small by lia;
    (rewrite decide_True by lia) || (rewrite decide_False by lia);
    (split; [ring|split; [apply bool_decide_eq_true; lia|done]]).
Qed.

Lemma hex_digits_spec k x :
  length (hex_digits k x) = k /\ Forall (fun c => is_hex_digit c = true) (hex_digits k x) /\
  hex_parse (hex_digits k x) = x mod 2 ^ (4 * Z.of_nat k) /\
  (fun c => u8[c]) <$> hex_digits k x = hex_digits k x.
Proof.
  induction k as [|k (Hl & Hd & Hp & Hu)]; [cbn; rewrite Z.mod_1_r; by repeat constructor|].
  cbn [hex_digits hex_parse length]. rewrite fmap_cons, nibble_spec by lia.
  destruct (hex_char_spec ((x / 2 ^ (4 * Z.of_nat k)) mod 16)) as (Hv & Hh & Hw);
    [apply Z.mod_pos_bound; lia|].
  split; [by rewrite Hl|]. split; [by constructor|]. split; [|by rewrite Hw, Hu].
  rewrite Hv, Hl, Hp. replace (4 * Z.of_nat (S k)) with (4 * Z.of_nat k + 4) by lia.
  rewrite Z.pow_add_r, mod_mul_split by lia.
  replace (16 ^ Z.of_nat k) with (2 ^ (4 * Z.of_nat k)) by (rewrite Z.pow_mul_r by lia; reflexivity).
  change (2 ^ 4) with 16. ring.
Qed.

Lemma put_hex_digits_correct k x s : put_hex_digits k x s = Some (sent_list (hex_digits k x) s).
Proof.
  revert s. induction k as [|k IH]; intros s; [done|]. simpl.
  rewrite uart_putc_correct. apply IH.
Qed.

(** C28: [uart_put_hex] always terminates and appends "0x" and eight
    lower-case hexadecimal digits to the line, from which the printed
    [uint32_t] value is read back exactly. *)
Theorem uart_put_hex_roundtrip hex s :
  exists ds, uart_put_hex hex s = Some (sent_list ([48; 120] ++ ds) s) /\
    tx_out (udev (sent_list ([48; 120] ++ ds) s)) = tx_out (udev s) ++ [48; 120] ++ ds /\
    length ds = 8%nat /\ Forall (fun c => is_hex_digit c = true) ds /\ hex_parse ds = u32[hex].
Proof.
  exists (hex_digits 8 u32[hex]). destruct (hex_digits_spec 8 u32[hex]) as (Hl & Hd & Hp & Hu).
  unfold uart_put_hex. change [48; 120; 0] with ([48; 120] ++ [0]).
  rewrite (uart_puts_correct [48; 120] []) by (repeat constructor; lia).
  rewrite put_hex_digits_correct, <- sent_list_app. split; [done|].
  destruct (sent_list_dev ([48; 120] ++ hex_digits 8 u32[hex]) s) as (_ & _ & -> & _).
  rewrite fmap_app, Hu. split; [done|]. do 2 (split; [done|]).
  rewrite Hp. apply wrap_idem. lia.
Qed.

(** ** Baud-rate divisor and initialisation *)

(** C31: for a non-zero clock and target below [2^32],
    [uart_min_clk_divisor] returns the least divisor [d] whose baud
    rate [in_freq / (d + 1)] does not exceed the target; the [uint64_t]
    sum does not wrap and the result fits its [unsigned int]. *)
Theorem uart_min_clk_divisor_least f t :
  0 < f < 2 ^ 32 -> 0 < t < 2 ^ 32 ->
  let d := uart_min_clk_divisor f t in
  f <= t * (d + 1) /\ (d = 0 \/ t * d < f) /\ 0 <= d < 2 ^ 32.
Proof.
  intros Hf Ht d. subst d. unfold uart_min_clk_divisor, divu64.
  rewrite wrap64_small by lia. destruct (decide (t = 0)); [lia|].
  pose proof (Z.div_mod (f + t - 1) t) as Hdm. pose proof (Z.mod_pos_bound (f + t - 1) t) as Hm.
  assert (1 <= (f + t - 1) / t <= f) as Hq.
  { split; [apply Z.div_le_lower_bound; lia|]. apply Z.div_le_upper_bound; [lia|].
    assert (0 <= (t - 1) * (f - 1)) by (apply Z.mul_nonneg_nonneg; lia). lia. }
  rewrite decide_False, wrap_small by lia. nia.
Qed.

Lemma uart_min_clk_divisor_range f t : 0 <= uart_min_clk_divisor f t < 2 ^ 32.
Proof. unfold uart_min_clk_divisor. destruct (decide _); [lia|apply wrap_range; lia]. Qed.

Lemma set_reg_ctrl i v s :
  u32[Z.shiftl i 2] <> 0 ->
  set_reg i v s = with_dev s (UDev (tx_out (udev s)) (tx_busy (udev s)) (rx_in (udev s))
                                   (<[u32[Z.shiftl i 2] := u32[v]]> (ctrl (udev s)))).
Proof. intros H. unfold set_reg, dev_write. by rewrite decide_False. Qed.

(** The register file [uart_init] leaves, over the one it found. *)
Definition init_ctrl (in_freq baudrate : Z) (c : gmap Z Z) : gmap Z Z :=
  <[12 := 1]> (<[8 := 1]> (<[16 := 0]>
    (if decide (u32[in_freq] <> 0)
     then <[24 := uart_min_clk_divisor u32[in_freq] u32[baudrate]]> c else c))).

(** C32: [uart_init] records its arguments, programs the divisor
    register only for a non-zero input clock, then disables interrupts
    and enables transmit and receive; it transmits and consumes
    nothing. *)
Theorem uart_init_correct base f b s :
  uart_init base f b s =
  UartSt base u32[f] u32[b]
    (UDev (tx_out (udev s)) (tx_busy (udev s)) (rx_in (udev s)) (init_ctrl f b (ctrl (udev s)))).
Proof.
  destruct s as [b0 f0 i0 [tx busy rx c]]. unfold uart_init, init_ctrl.
  rewrite !set_reg_ctrl by (vm_compute; congruence).
  change u32[Z.shiftl UART_REG_RXCTRL 2] with 12. change u32[Z.shiftl UART_REG_TXCTRL 2] with 8.
  change u32[Z.shiftl UART_REG_IE 2] with 16. change u32[UART_RXCTRL_RXEN] with 1.
  change u32[UART_TXCTRL_TXEN] with 1. change u32[0] with 0.
  change u32[Z.shiftl UART_REG_DIV 2] with 24.
  destruct (decide (u32[f] <> 0)); [|reflexivity].
  rewrite (wrap_small 32 (uart_min_clk_divisor _ _)) by apply uart_min_clk_divisor_range.
  reflexivity.
Qed.

(** ** Witnesses *)

Lemma uart_min_clk_divisor_least_witness :
  let d := uart_min_clk_divisor 10000000 115200 in
  10000000 <= 115200 * (d + 1) /\ (d = 0 \/ 115200 * d < 10000000) /\ 0 <= d < 2 ^ 32.
Proof. apply uart_min_clk_divisor_least; lia. Defined.
