(* ===== verification/Console.v ===== *)
(** * The console, [libs/console.c]

    [getchar] polls [uart_getc] until it returns something other than
    -1; [readline] echoes and collects characters into its static
    buffer [buf[BUFSIZE]] until a newline or carriage return, treating
    backspace as an erase, and returns the buffer.  The buffer is a
    region of the byte memory of [Mmio] at the address [buf] (the
    static's address), written by plain stores, so that [main] can pass
    it to [strlen] and [memcpy] of [StringLib].

    The polling loop of [getchar] does not end while nothing is
    received: it takes fuel, and returns [None] when the fuel runs out.
    [readline]'s loop consumes one received character per iteration and
    shares that fuel.

    Theorems: [getchar] on an empty receiver never returns (for every
    fuel); [readline] never returns [NULL]; [readline] refines a pure
    line editor [edit] over the received characters (the buffer holds
    the edited line, NUL-terminated, the echo is the accepted
    characters); the line is at most [BUFSIZE - 1] bytes and no byte
    outside [buf[0 .. BUFSIZE - 1]] is written. *)

From S2P Require Import Prelude Platform Mmio StringLib Uart.

Definition BUFSIZE : Z := 1024.

(** ** [getchar] *)

(** [while ((c = uart_getc()) == -1);] with [fuel] polls. *)
Fixpoint getchar (fuel : nat) (u : uart_st) : option (Z * uart_st) :=
  match fuel with
  | O => None
  | S fuel' =>
      let '(c, u1) := uart_getc u in
      if decide (c = -1) then getchar fuel' u1 else Some (c, u1)
  end.

(** ** [readline] *)

(** What [readline] returns: [NULL] or the buffer's address. *)
Inductive cptr := NULL | Ptr (a : Z).

#[export] Instance cptr_eq_dec : EqDecision cptr.
Proof. solve_decision. Defined.

(** The [while (1)] loop of [readline], with the index [i]. *)
Fixpoint readline_loop (fuel : nat) (buf i : Z) (u : uart_st) (m : mach)
    : option (cptr * uart_st * mach) :=
  match fuel with
  | O => None
  | S fuel' =>
      match getchar fuel u with
      | None => None
      | Some (c, u1) =>
          if decide (c < 0) then Some (NULL, u1, m)
          else if decide (c >= 32 /\ i < BUFSIZE - 1) then
            match uart_putc c u1 with
            | Some u2 => readline_loop fuel' buf (i + 1) u2 (plain_store (buf + i) c m)
            | None => None
            end
          else if decide (c = 8 /\ i > 0) then
            match uart_putc c u1 with
            | Some u2 => readline_loop fuel' buf (i - 1) u2 m
            | None => None
            end
          else if decide (c = 10 \/ c = 13) then
            match uart_putc c u1 with
            | Some u2 => Some (Ptr buf, u2, plain_store (buf + i) 0 m)
            | None => None
            end
          else readline_loop fuel' buf i u1 m
      end
  end.

(** [readline(prompt)]: the prompt, if not [NULL], is printed first. *)
Definition readline (fuel : nat) (prompt : option (list Z)) (buf : Z) (u : uart_st) (m : mach)
    : option (cptr * uart_st * mach) :=
  match prompt with
  | Some p => match uart_puts p u with
              | Some u1 => readline_loop fuel buf 0 u1 m
              | None => None
              end
  | None => readline_loop fuel buf 0 u m
  end.

(** ** The line editor [readline] implements *)

(** The line and the echo for the characters [l] received after the
    line [acc]: a printable character is appended while the line is
    shorter than [BUFSIZE - 1], a backspace erases the last character
    of a non-empty line, anything else is dropped unechoed. *)
Fixpoint edit (acc : list Z) (l : list Z) : list Z * list Z :=
  match l with
  | [] => (acc, [])
  | c :: l' =>
      if decide (32 <= c /\ Z.of_nat (length acc) < BUFSIZE - 1) then
        prod_map id (cons c) (edit (acc ++ [c]) l')
      else if decide (c = 8 /\ acc <> []) then
        prod_map id (cons c) (edit (removelast acc) l')
      else edit acc l'
  end.

Definition is_byte (c : Z) : bool := bool_decide (0 <= c < 256).
Definition is_newline (c : Z) : bool := bool_decide (c = 10 \/ c = 13).

(** ** Reception *)

(** The device with its next received character consumed. *)
Definition rx_pop (u : uart_st) : uart_st :=
  with_dev u (UDev (tx_out (udev u)) (tx_busy (udev u)) (tail (rx_in (udev u))) (ctrl (udev u))).

Lemma getchar_next fuel c r u :
  rx_in (udev u) = c :: r -> getchar (S fuel) u = Some (u8[c], rx_pop u).
Proof.
  intros Hrx. simpl. rewrite uart_getc_correct, Hrx. unfold rx_pop. rewrite Hrx.
  pose proof (wrap_range 8 c). by rewrite decide_False by lia.
Qed.

(** C29: [getchar] blocks while nothing is received: on an empty
    receiver no number of polls returns. *)
Theorem getchar_blocks fuel u : rx_in (udev u) = [] -> getchar fuel u = None.
Proof.
  intros Hrx. induction fuel as [|fuel IH]; [done|]. simpl.
  rewrite uart_getc_correct, Hrx. by rewrite decide_True.
Qed.

Lemma getchar_byte fuel u c u' : getchar fuel u = Some (c, u') -> 0 <= c < 256.
Proof.
  revert u. induction fuel as [|fuel IH]; intros u; [done|]. simpl.
  rewrite uart_getc_correct. destruct (rx_in (udev u)) as [|c0 r].
  - rewrite decide_True by done. apply IH.
  - rewrite decide_False by (pose proof (wrap_range 8 c0); lia).
    intros [= <- _]. apply wrap_range. lia.
Qed.

(** C30: [readline] never returns [NULL]: [uart_getc] yields -1 or a
    byte and [getchar] filters the -1, so the [c < 0] branch is dead
    and the [NULL] checks of its callers never fire. *)
Theorem readline_never_null fuel prompt buf u m u' m' :
  readline fuel prompt buf u m <> Some (NULL, u', m').
Proof.
  assert (Hloop : forall n i u0 m0, readline_loop n buf i u0 m0 <> Some (NULL, u', m')).
  { intros n. induction n as [|f IH]; intros i u0 m0; [done|]. cbn [readline_loop].
    destruct (getchar (S f) u0) as [[c u1]|] eqn:Hg; [|done].
    apply getchar_byte in Hg. rewrite decide_False by lia.
    repeat (case_decide; [rewrite uart_putc_correct; try done; apply IH|]). apply IH. }
  unfold readline. destruct prompt as [p|]; [|apply Hloop].
  destruct (uart_puts p u); [apply Hloop|done].
Qed.

(** ** [readline] against the line editor *)

Lemma load_list_take m a k n : (k <= n)%nat -> load_list m a k = take k (load_list m a n).
Proof.
  revert a k. induction n as [|n IH]; intros a [|k] Hk; simpl; try done; [lia|].
  f_equal. apply IH. lia.
Qed.

Lemma load_list_push m buf acc c :
  load_list m buf (length acc) = acc -> 0 <= c < 256 ->
  load_list (plain_store (buf + Z.of_nat (length acc)) c m) buf (S (length acc)) = acc ++ [c].
Proof.
  intros Hacc Hc. rewrite load_list_snoc, load_list_store_out, Hacc by lia.
  rewrite byte_at_plain_store, decide_True, wrap_small by lia. done.
Qed.

Lemma load_list_removelast m buf acc :
  load_list m buf (length acc) = acc -> load_list m buf (length (removelast acc)) = removelast acc.
Proof.
  intros Hacc. rewrite removelast_firstn_len, length_take, (load_list_take _ _ _ (length acc)), Hacc by lia.
  f_equal. lia.
Qed.

Lemma plain_store_lookup_ne a v m x : x <> a -> mem (plain_store a v m) !! x = mem m !! x.
Proof. intros. rewrite mem_plain_store. by apply lookup_insert_ne. Qed.

Lemma edit_length acc l :
  Z.of_nat (length acc) <= BUFSIZE - 1 -> Z.of_nat (length (edit acc l).1) <= BUFSIZE - 1.
Proof.
  revert acc. induction l as [|c l IH]; intros acc Hacc; simpl; [done|].
  case_decide; [apply IH; rewrite length_app; simpl; lia|].
  case_decide; [|by apply IH]. apply IH. rewrite removelast_firstn_len, length_take. lia.
Qed.

Section Readline.
Context (buf nl : Z) (rest : list Z).
Hypothesis Hnl : is_newline nl = true.

(** The state after accepting the line [acc]: [i = length acc], the
    buffer holds [acc]. *)
Lemma readline_loop_edit pre : forall fuel acc u m,
  Z.of_nat (length acc) <= BUFSIZE - 1 ->
  load_list m buf (length acc) = acc ->
  Forall (fun c => is_byte c = true /\ is_newline c = false) pre ->
  rx_in (udev u) = pre ++ nl :: rest -> (length pre < fuel)%nat ->
  exists u' m', readline_loop fuel buf (Z.of_nat (length acc)) u m = Some (Ptr buf, u', m') /\
    rx_in (udev u') = rest /\
    tx_out (udev u') = tx_out (udev u) ++ (edit acc pre).2 ++ [nl] /\
    load_list m' buf (S (length (edit acc pre).1)) = (edit acc pre).1 ++ [0] /\
    (forall a, a < buf \/ buf + BUFSIZE <= a -> mem m' !! a = mem m !! a).
Proof.
  apply bool_decide_eq_true in Hnl.
  induction pre as [|c pre IH]; intros [|f] acc u m Hlen Hacc Hpre Hrx Hf; try (simpl in Hf; lia);
    cbn [readline_loop]; rewrite (getchar_next f _ _ u Hrx).
  - rewrite wrap_small by lia.
    destruct (decide (nl < 0)); [lia|]. destruct (decide (nl >= 32 /\ _)); [lia|].
    destruct (decide (nl = 8 /\ _)); [lia|]. rewrite decide_True by lia.
    rewrite uart_putc_correct. eexists _, _. split; [reflexivity|].
    cbn. rewrite Hrx, wrap_small by lia. split; [done|]. split; [done|].
    split; [apply load_list_push; [done|lia]|].
    intros a Ha. apply plain_store_lookup_ne. lia.
  - apply Forall_cons in Hpre as [[Hb Hn] Hpre].
    apply bool_decide_eq_true in Hb. apply bool_decide_eq_false in Hn.
    rewrite wrap_small by lia. simpl in Hf. cbn [edit].
    destruct (decide (c < 0)); [lia|].
    destruct (decide (32 <= c /\ Z.of_nat (length acc) < BUFSIZE - 1)) as [HA|HA].
    + rewrite decide_True by lia. rewrite uart_putc_correct.
      destruct (IH f (acc ++ [c]) (sent c (rx_pop u)) (plain_store (buf + Z.of_nat (length acc)) c m))
        as (u' & m' & Hrun & Hr & Ht & Hl & Ho).
      * rewrite length_app. simpl. lia.
      * rewrite length_app, Nat.add_1_r. by apply load_list_push.
      * done.
      * cbn. by rewrite Hrx.
      * lia.
      * rewrite length_app in Hrun. simpl in Hrun. rewrite Nat2Z.inj_add in Hrun.
        exists u', m'. split; [done|]. split; [done|]. cbn.
        split; [rewrite Ht; cbn; rewrite wrap_small by lia; by rewrite <- app_assoc|].
        split; [done|]. intros a Ha. rewrite Ho by done. apply plain_store_lookup_ne. lia.
    + rewrite decide_False by lia.
      destruct (decide (c = 8 /\ acc <> [])) as [HB|HB].
      * rewrite decide_True by (destruct acc; simpl in *; [destruct HB; congruence|lia]).
        rewrite uart_putc_correct.
        destruct (IH f (removelast acc) (sent c (rx_pop u)) m) as (u' & m' & Hrun & Hr & Ht & Hl & Ho).
        -- rewrite removelast_firstn_len, length_take. lia.
        -- by apply load_list_removelast.
        -- done.
        -- cbn. by rewrite Hrx.
        -- lia.
        -- rewrite removelast_firstn_len, length_take in Hrun.
           replace (Z.of_nat (Init.Nat.min (Init.Nat.pred (length acc)) (length acc)))
             with (Z.of_nat (length acc) - 1) in Hrun by (destruct acc; simpl in *; [destruct HB; congruence|lia]).
           exists u', m'. split; [done|]. split; [done|]. cbn.
           split; [rewrite Ht; cbn; rewrite wrap_small by lia; by rewrite <- app_assoc|].
           rewrite removelast_firstn_len. by rewrite removelast_firstn_len in Hl.
      * rewrite decide_False
          by (destruct acc; simpl in *; [lia|intros [? ?]; apply HB; split; [done|congruence]]).
        rewrite decide_False by lia.
        destruct (IH f acc (rx_pop u) m) as (u' & m' & Hrun & Hr & Ht & Hl & Ho);
          [done|done|done|cbn; by rewrite Hrx|lia|].
        exists u', m'. split; [done|]. split; [done|]. by rewrite Ht.
Qed.

End Readline.

Lemma load_list_lookup m a n i :
  (i < n)%nat -> load_list m a n !! i = Some (byte_at m (a + Z.of_nat i)).
Proof.
  revert a i. induction n as [|n IH]; intros a [|i] Hi; simpl; try lia.
  - by rewrite Z.add_0_r.
  - rewrite IH by lia. do 2 f_equal. lia.
Qed.

Lemma edit_printable acc l :
  Forall (fun c => 32 <= c) acc -> Forall (fun c => 32 <= c) (edit acc l).1.
Proof.
  revert acc. induction l as [|c l IH]; intros acc Hacc; simpl; [done|].
  case_decide; [apply IH, Forall_app; split; [done|by constructor; [lia|]]|].
  case_decide; [|by apply IH]. apply IH. rewrite removelast_firstn_len.
  by apply Forall_take.
Qed.

(** C16: [readline(NULL)], as [main] calls it, refines the line
    editor: when the receiver holds bytes [pre] without a line end,
    then a newline or carriage return [nl], it returns the buffer
    holding [edit [] pre] and a NUL, consumes exactly [pre] and [nl],
    echoes the accepted characters and [nl], and writes no byte
    outside [buf[0 .. BUFSIZE - 1]]. *)
Theorem readline_refines fuel buf pre nl rest u m :
  is_newline nl = true ->
  Forall (fun c => is_byte c = true /\ is_newline c = false) pre ->
  rx_in (udev u) = pre ++ nl :: rest -> (length pre < fuel)%nat ->
  exists u' m', readline fuel None buf u m = Some (Ptr buf, u', m') /\
    rx_in (udev u') = rest /\
    tx_out (udev u') = tx_out (udev u) ++ (edit [] pre).2 ++ [nl] /\
    load_list m' buf (S (length (edit [] pre).1)) = (edit [] pre).1 ++ [0] /\
    (forall a, a < buf \/ buf + BUFSIZE <= a -> mem m' !! a = mem m !! a).
Proof.
  intros Hnl Hpre Hrx Hf.
  by apply (readline_loop_edit buf nl rest Hnl pre fuel [] u m).
Qed.

(** C23: the line [readline] returns is a C string of at most
    [BUFSIZE - 1] printable bytes: [strlen] on the buffer terminates
    with the line's length, so [strlen(line) + 1 <= BUFSIZE]. *)
Theorem readline_strlen_bounded fuel buf pre nl rest u m :
  is_newline nl = true ->
  Forall (fun c => is_byte c = true /\ is_newline c = false) pre ->
  rx_in (udev u) = pre ++ nl :: rest -> (length pre < fuel)%nat ->
  exists u' m', readline fuel None buf u m = Some (Ptr buf, u', m') /\
    strlen (S (length (edit [] pre).1)) m' buf = Some (Z.of_nat (length (edit [] pre).1)) /\
    Z.of_nat (length (edit [] pre).1) + 1 <= BUFSIZE.
Proof.
  intros Hnl Hpre Hrx Hf.
  destruct (readline_refines fuel buf pre nl rest u m Hnl Hpre Hrx Hf)
    as (u' & m' & Hrun & _ & _ & Hl & _).
  pose proof (edit_length [] pre ltac:(simpl; unfold BUFSIZE; lia)) as Hlen.
  pose proof (edit_printable [] pre (Forall_nil_2 _)) as Hpr.
  exists u', m'. split; [done|]. split; [|lia].
  set (r := (edit [] pre).1) in *.
  apply strlen_correct; [| |lia|unfold BUFSIZE in Hlen; lia].
  - intros i Hi. pose proof (load_list_lookup m' buf (S (length r)) i ltac:(lia)) as Hi'.
    rewrite Hl, lookup_app_l in Hi' by done.
    pose proof (Forall_lookup_1 _ _ i _ Hpr Hi') as Hc. simpl in Hc. lia.
  - pose proof (load_list_lookup m' buf (S (length r)) (length r) ltac:(lia)) as Hi'.
    rewrite Hl, lookup_app_r, Nat.sub_diag in Hi' by lia. simpl in Hi'. congruence.
Qed.

(** C20: for every input, [readline] returns [NULL] or its buffer and
    writes no byte outside [buf[0 .. BUFSIZE - 1]]. *)
Theorem readline_frame fuel buf u m p u' m' :
  readline fuel None buf u m = Some (p, u', m') ->
  (p = NULL \/ p = Ptr buf) /\ (forall a, a < buf \/ buf + BUFSIZE <= a -> mem m' !! a = mem m !! a).
Proof.
  unfold readline.
  assert (Hi : forall i, 0 <= i <= BUFSIZE - 1 -> forall f u0 m0,
    readline_loop f buf i u0 m0 = Some (p, u', m') ->
    (p = NULL \/ p = Ptr buf) /\ (forall a, a < buf \/ buf + BUFSIZE <= a -> mem m' !! a = mem m0 !! a)).
  { clear. intros i Hi f. revert i Hi. induction f as [|f IH]; intros i Hi u0 m0; [done|].
    cbn [readline_loop]. destruct (getchar (S f) u0) as [[c u1]|]; [|done].
    case_decide; [intros [= <- <- <-]; by split; [left|]|].
    case_decide; [rewrite uart_putc_correct; intros Hr;
      destruct (IH (i + 1) ltac:(lia) _ _ Hr) as [Hp Ho]; split; [done|];
      intros a Ha; rewrite Ho by done; apply plain_store_lookup_ne; lia|].
    case_decide; [rewrite uart_putc_correct; intros Hr; exact (IH (i - 1) ltac:(lia) _ _ Hr)|].
    case_decide; [rewrite uart_putc_correct; intros [= <- <- <-]; split; [by right|];
      intros a Ha; apply plain_store_lookup_ne; lia|].
    apply IH. done. }
  intros Hr. exact (Hi 0 ltac:(unfold BUFSIZE; lia) _ _ _ Hr).
Qed.

(** ** Witnesses *)

(** The UART after "ab", backspace, "c", newline and "x" were
    received, nothing sent yet. *)
Definition typed_uart : uart_st := UartSt UART0_ADDR 0 115200 (UDev [] 0 [97; 98; 8; 99; 10; 120] ∅).

(** What [readline(NULL)] returns on [typed_uart] with [buf] at [b]. *)
Definition readline_result (fuel : nat) (b : Z) : cptr * uart_st * mach :=
  default (NULL, typed_uart, Mach ∅ []) (readline fuel None b typed_uart (Mach ∅ [])).

Lemma getchar_blocks_witness : getchar 100 (UartSt UART0_ADDR 0 115200 (UDev [] 0 [] ∅)) = None.
Proof. apply getchar_blocks. reflexivity. Defined.

Lemma readline_refines_witness :
  exists u' m', readline 6 None 8192 typed_uart (Mach ∅ []) = Some (Ptr 8192, u', m') /\
    rx_in (udev u') = [120] /\
    tx_out (udev u') = tx_out (udev typed_uart) ++ (edit [] [97; 98; 8; 99]).2 ++ [10] /\
    load_list m' 8192 (S (length (edit [] [97; 98; 8; 99]).1)) = (edit [] [97; 98; 8; 99]).1 ++ [0] /\
    (forall a, a < 8192 \/ 8192 + BUFSIZE <= a -> mem m' !! a = mem (Mach ∅ []) !! a).
Proof.
  apply (readline_refines 6 8192 [97; 98; 8; 99] 10 [120]); [reflexivity|repeat constructor|reflexivity|simpl; lia].
Defined.

Lemma readline_strlen_bounded_witness :
  exists u' m', readline 6 None 8192 typed_uart (Mach ∅ []) = Some (Ptr 8192, u', m') /\
    strlen (S (length (edit [] [97; 98; 8; 99]).1)) m' 8192
    = Some (Z.of_nat (length (edit [] [97; 98; 8; 99]).1)) /\
    Z.of_nat (length (edit [] [97; 98; 8; 99]).1) + 1 <= BUFSIZE.
Proof.
  apply (readline_strlen_bounded 6 8192 [97; 98; 8; 99] 10 [120]); [reflexivity|repeat constructor|reflexivity|simpl; lia].
Defined.

Lemma readline_frame_witness :
  readline 6 None 8192 typed_uart (Mach ∅ []) =
    Some (Ptr 8192, (readline_result 6 8192).1.2, (readline_result 6 8192).2) /\
  ((Ptr 8192 = NULL \/ Ptr 8192 = Ptr 8192) /\
   forall a, a < 8192 \/ 8192 + BUFSIZE <= a -> mem (readline_result 6 8192).2 !! a = mem (Mach ∅ []) !! a).
Proof.
  assert (H : readline 6 None 8192 typed_uart (Mach ∅ []) =
    Some (Ptr 8192, (readline_result 6 8192).1.2, (readline_result 6 8192).2)) by (vm_compute; reflexivity).
  split; [exact H|]. exact (readline_frame 6 8192 typed_uart (Mach ∅ []) _ _ _ H).
Defined.
