(* ===== verification/Mailbox.v ===== *)
(** * The mailbox and the IPI test loop, [main.c]

    After the boot barrier the primary runs [main] then [test_ipi]; the
    secondaries run [other_main].  The primary reads a target hart id
    and a message with [readline], copies the message and its NUL to
    the mailbox at [SMP_ADDR] with [memcpy], raises the target's [msip]
    and waits in [wait_ipi] for its own; the target, woken in
    [wait_ipi], clears its [msip], prints the mailbox with
    [uart_puts(SMP_ADDR)] and raises hart 0's [msip] as the
    acknowledgement.

    The model is an interleaving transition system like [Barrier]'s.
    A world holds the harts' local state (program label, the locals
    [to_hartid], [line]/[m], [memcpy]'s and [uart_puts]' loop
    variables, and the CSR [mie]), the CLINT driver state of [Clint]
    (its static [clint_base] and the shared machine of [Mmio]: memory
    with the CLINT, the mailbox and [readline]'s buffer) and the UART of
    [Uart].  A step runs one statement of [main.c]: a call to [puts],
    [uart_put_hex], [readline], [strlen], a CLINT function, or one
    iteration of the loops [memcpy] and [uart_puts(SMP_ADDR)], whose
    bytes the other harts may interleave with.  [wfi] returns when
    the hart's [msip] is set and enabled, and may return spuriously at
    any time ([wfi_spurious]); the loop of [wait_ipi] then re-tests
    [mip].  The UART output of one [puts]
    call is one step: the harts' lines are interleaved per call.

    [readline]'s static buffer is at the address [buf], disjoint from
    the CLINT and from the mailbox.

    Theorems: the invariant [minv] of every reachable world gives the
    delivery of the message to its target and the exclusive use of
    the mailbox; a schedule that raises a target before its first
    clear loses the raise, and from that world the primary waits in
    [wait_ipi] for ever and nothing more is printed. *)

From S2P Require Import Prelude Platform Mmio Clint Barrier StringLib Uart Console.

(** ** String literals (with their NUL) *)

Definition S_HART_OPEN : list Z := [13; 10; 91; 72; 65; 82; 84; 32; 0].          (* "\r\n[HART " *)
Definition S_HART_CLOSE : list Z := [93; 32; 0].                                  (* "] " *)
Definition S_RUNNING : list Z := [82; 117; 110; 110; 105; 110; 103; 32; 83; 66; 73; 33; 0].
Definition S_TEST_HEX : list Z :=
  [84; 101; 115; 116; 32; 112; 117; 116; 32; 104; 101; 120; 97; 100; 101; 99; 105; 109; 97; 108; 58; 32; 0].
Definition S_TEST_CONSOLE : list Z := [84; 101; 115; 116; 32; 99; 111; 110; 115; 111; 108; 101; 58; 32; 0].
Definition S_CONSOLE_OK : list Z :=
  [84; 101; 115; 116; 32; 99; 111; 110; 115; 111; 108; 101; 32; 79; 75; 58; 32; 0].
Definition S_TEST_IPI : list Z := [84; 101; 115; 116; 32; 73; 80; 73; 0].
Definition S_INPUT_HARTID : list Z :=
  [73; 110; 112; 117; 116; 32; 104; 97; 114; 116; 105; 100; 32; 116; 111; 32; 119; 97; 107; 101; 32;
   117; 112; 32; 116; 97; 114; 103; 101; 116; 32; 104; 97; 114; 116; 58; 32; 0].
Definition S_OUT_OF_RANGE : list Z :=
  [72; 97; 114; 116; 105; 100; 32; 111; 117; 116; 32; 111; 102; 32; 114; 97; 110; 103; 101; 33; 0].
Definition S_INPUT_MESSAGE : list Z := [73; 110; 112; 117; 116; 32; 109; 101; 115; 115; 97; 103; 101; 58; 32; 0].
Definition S_SEND : list Z :=
  [83; 101; 110; 100; 32; 115; 111; 102; 116; 119; 97; 114; 101; 32; 105; 110; 116; 101; 114; 114;
   117; 112; 116; 46; 32; 72; 97; 114; 116; 105; 100; 61; 0].
Definition S_FINISHED : list Z :=
  [70; 105; 110; 105; 115; 104; 101; 100; 32; 114; 101; 99; 101; 105; 118; 105; 110; 103; 46; 32;
   72; 97; 114; 116; 105; 100; 61; 0].
Definition S_SOFT_IRQ : list Z :=
  [83; 111; 102; 116; 119; 97; 114; 101; 32; 105; 110; 116; 101; 114; 114; 117; 112; 116; 32; 102;
   114; 111; 109; 32; 72; 97; 114; 116; 32; 48; 0].
Definition S_MESSAGE_FROM : list Z :=
  [77; 101; 115; 115; 97; 103; 101; 32; 102; 114; 111; 109; 32; 72; 97; 114; 116; 32; 48; 58; 32; 0].

(** ** [puts] and the configuration of [main.c] *)

Definition DEFAULT_UART : Z := UART0_ADDR.
Definition DEFAULT_UART_FREQ : Z := 0.
Definition DEFAULT_UART_BAUDRATE : Z := 115200.

(** [puts(s)]: the hart tag, then [s]; [char hartid = read_csr(mhartid)]. *)
Definition puts (hartid : nat) (s : list Z) (u : uart_st) : option uart_st :=
  u1 ← uart_puts S_HART_OPEN u;
  u2 ← uart_putc (48 + u8[Z.of_nat hartid]) u1;
  u3 ← uart_puts S_HART_CLOSE u2;
  uart_puts s u3.

(** ** Harts *)

Inductive mpc :=
(* main *)
| M_uart_init | M_clint_init | M_puts_running | M_puts_hex | M_put_hex | M_puts_console
| M_readline | M_puts_console_ok | M_puts_line | M_puts_ipi
(* test_ipi *)
| T_clear | T_mie | T_prompt_id | T_read_id | T_out_of_range | T_prompt_msg | T_read_msg
| T_strlen | T_copy | T_puts_send | T_hex_send | T_send | T_wait_chk | T_wfi | T_wait_clear
| T_puts_fin | T_hex_fin
(* other_main *)
| O_uart_init | O_clint_init | O_clear | O_mie | O_wait_chk | O_wfi | O_wait_clear
| O_puts_irq | O_puts_msg | O_print | O_send.

#[export] Instance mpc_eq_dec : EqDecision mpc.
Proof. solve_decision. Defined.

(** A hart's locals: [to_hartid]; [line] / [m], the pointer [readline]
    returned; [n], [d], [s] of [memcpy]'s loop ([s] also the pointer of
    [uart_puts]' loop); and the CSR [mie]. *)
Record mhart := MHart {
  h_pc : mpc; h_to : Z; h_line : Z; h_n : Z; h_d : Z; h_s : Z; h_mie : Z
}.

Record mworld := MWorld { mw_harts : nat -> mhart; mw_clint : clint_st; mw_uart : uart_st }.

Definition mw_mach (w : mworld) : mach := cmach (mw_clint w).

Definition goto (hs : mhart) (pc : mpc) : mhart :=
  MHart pc (h_to hs) (h_line hs) (h_n hs) (h_d hs) (h_s hs) (h_mie hs).

Definition upd (w : mworld) (h : nat) (hs : mhart) (c : clint_st) (u : uart_st) : mworld :=
  MWorld (fupd (mw_harts w) h hs) c u.

(** A step that only writes the UART. *)
Definition say (w : mworld) (h : nat) (hs : mhart) (r : option uart_st) : option mworld :=
  u ← r; Some (upd w h hs (mw_clint w) u).

(** A step that only moves the hart. *)
Definition move (w : mworld) (h : nat) (hs : mhart) : option mworld :=
  Some (upd w h hs (mw_clint w) (mw_uart w)).

(** [while (!(read_csr(mip) & MIP_MSIP))]: the test of [wait_ipi]. *)
Definition mip_pending (m : mach) (h : nat) : bool :=
  negb (Z.land (read_mip m h) MIP_MSIP =? 0).

(** The [readline(NULL)] call of a step: enough fuel for every
    received character; [None] (the hart waits) while no line end was
    received; a [NULL] result is dereferenced by [test_ipi] and has no
    step either (it never happens: [readline_never_null]). *)
Definition read_line (buf : Z) (w : mworld) : option (Z * uart_st * mach) :=
  match readline (S (length (rx_in (udev (mw_uart w))))) None buf (mw_uart w) (mw_mach w) with
  | Some (Ptr p, u, m) => Some (p, u, m)
  | _ => None
  end.

Section Step.
Variable buf : Z.

(** One statement of hart [h]. *)
Definition mstep_hart (h : nat) (w : mworld) : option mworld :=
  let hs := mw_harts w h in
  let c := mw_clint w in
  let u := mw_uart w in
  let m := mw_mach w in
  let hid := Z.of_nat h in
  match h_pc hs with
  (* main *)
  | M_uart_init =>
      Some (upd w h (goto hs M_clint_init) c (uart_init DEFAULT_UART DEFAULT_UART_FREQ DEFAULT_UART_BAUDRATE u))
  | M_clint_init => Some (upd w h (goto hs M_puts_running) (clint_init CLINT_CTRL_ADDR c) u)
  | M_puts_running => say w h (goto hs M_puts_hex) (puts h S_RUNNING u)
  | M_puts_hex => say w h (goto hs M_put_hex) (puts h S_TEST_HEX u)
  | M_put_hex => say w h (goto hs M_puts_console) (uart_put_hex 305419896 u)   (* 0x12345678 *)
  | M_puts_console => say w h (goto hs M_readline) (puts h S_TEST_CONSOLE u)
  | M_readline =>
      match readline (S (length (rx_in (udev u)))) None buf u m with
      | Some (Ptr p, u', m') =>
          Some (upd w h (MHart M_puts_console_ok (h_to hs) p (h_n hs) (h_d hs) p (h_mie hs))
                  (with_mach c m') u')
      | Some (NULL, u', m') => Some (upd w h (goto hs M_puts_ipi) (with_mach c m') u')
      | None => None
      end
  | M_puts_console_ok => say w h (goto hs M_puts_line) (puts h S_CONSOLE_OK u)
  | M_puts_line =>
      (* uart_puts(line): one iteration of [while ( *s != '\0') uart_putc( *s++)] *)
      let ch := byte_at m (h_s hs) in
      if decide (ch = 0) then move w h (goto hs M_puts_ipi)
      else say w h (MHart M_puts_line (h_to hs) (h_line hs) (h_n hs) (h_d hs) (h_s hs + 1) (h_mie hs))
             (uart_putc ch u)
  | M_puts_ipi => say w h (goto hs T_clear) (puts h S_TEST_IPI u)
  (* test_ipi *)
  | T_clear => Some (upd w h (goto hs T_mie) (clint_clear_soft hid c) u)
  | T_mie => move w h (MHart T_prompt_id (h_to hs) (h_line hs) (h_n hs) (h_d hs) (h_s hs)
                          (Z.lor (h_mie hs) MIP_MSIP))
  | T_prompt_id => say w h (goto hs T_read_id) (puts h S_INPUT_HARTID u)
  | T_read_id =>
      (* to_hartid = readline(NULL)[0] - '0'; the range test *)
      '(p, u', m') ← read_line buf w;
      let to := u64[byte_at m' p - 48] in
      let pc := if decide (Z.of_nat ZERO_HART + 1 <= to /\ to <= Z.of_nat MAX_HARTS - 1)
                then T_prompt_msg else T_out_of_range in
      Some (upd w h (MHart pc to p (h_n hs) (h_d hs) (h_s hs) (h_mie hs)) (with_mach c m') u')
  | T_out_of_range => say w h (goto hs T_prompt_id) (puts h S_OUT_OF_RANGE u)
  | T_prompt_msg => say w h (goto hs T_read_msg) (puts h S_INPUT_MESSAGE u)
  | T_read_msg =>
      '(p, u', m') ← read_line buf w;
      Some (upd w h (MHart T_strlen (h_to hs) p (h_n hs) (h_d hs) (h_s hs) (h_mie hs)) (with_mach c m') u')
  | T_strlen =>
      (* memcpy(SMP_ADDR, m, strlen(m) + 1): the arguments *)
      len ← strlen (Z.to_nat BUFSIZE) m (h_line hs);
      move w h (MHart T_copy (h_to hs) (h_line hs) u64[len + 1] SMP_ADDR (h_line hs) (h_mie hs))
  | T_copy =>
      (* one iteration of memcpy's [while (n-- > 0) *d++ = *s++] *)
      if decide (h_n hs > 0) then
        Some (upd w h (MHart T_copy (h_to hs) (h_line hs) (h_n hs - 1) (h_d hs + 1) (h_s hs + 1) (h_mie hs))
                (with_mach c (plain_store (h_d hs) (byte_at m (h_s hs)) m)) u)
      else move w h (goto hs T_puts_send)
  | T_puts_send => say w h (goto hs T_hex_send) (puts h S_SEND u)
  | T_hex_send => say w h (goto hs T_send) (uart_put_hex u32[h_to hs] u)
  | T_send => Some (upd w h (goto hs T_wait_chk) (clint_send_soft (h_to hs) c) u)
  | T_wait_chk => move w h (goto hs (if mip_pending m h then T_wait_clear else T_wfi))
  | T_wfi => if wfi_resumes m h (h_mie hs) then move w h (goto hs T_wait_chk) else None
  | T_wait_clear => Some (upd w h (goto hs T_puts_fin) (clint_clear_soft hid c) u)
  | T_puts_fin => say w h (goto hs T_hex_fin) (puts h S_FINISHED u)
  | T_hex_fin => say w h (goto hs T_prompt_id) (uart_put_hex u32[h_to hs] u)
  (* other_main *)
  | O_uart_init =>
      Some (upd w h (goto hs O_clint_init) c (uart_init DEFAULT_UART DEFAULT_UART_FREQ DEFAULT_UART_BAUDRATE u))
  | O_clint_init => Some (upd w h (goto hs O_clear) (clint_init CLINT_CTRL_ADDR c) u)
  | O_clear => Some (upd w h (goto hs O_mie) (clint_clear_soft hid c) u)
  | O_mie => move w h (MHart O_wait_chk (h_to hs) (h_line hs) (h_n hs) (h_d hs) (h_s hs)
                         (Z.lor (h_mie hs) MIP_MSIP))
  | O_wait_chk => move w h (goto hs (if mip_pending m h then O_wait_clear else O_wfi))
  | O_wfi => if wfi_resumes m h (h_mie hs) then move w h (goto hs O_wait_chk) else None
  | O_wait_clear => Some (upd w h (goto hs O_puts_irq) (clint_clear_soft hid c) u)
  | O_puts_irq => say w h (goto hs O_puts_msg) (puts h S_SOFT_IRQ u)
  | O_puts_msg =>
      say w h (MHart O_print (h_to hs) (h_line hs) (h_n hs) (h_d hs) SMP_ADDR (h_mie hs))
        (puts h S_MESSAGE_FROM u)
  | O_print =>
      (* uart_puts(SMP_ADDR): one iteration *)
      let ch := byte_at m (h_s hs) in
      if decide (ch = 0) then move w h (goto hs O_send)
      else say w h (MHart O_print (h_to hs) (h_line hs) (h_n hs) (h_d hs) (h_s hs + 1) (h_mie hs))
             (uart_putc ch u)
  | O_send => Some (upd w h (goto hs O_wait_chk) (clint_send_soft (Z.of_nat ZERO_HART) c) u)
  end.

(** The [wfi] of [wait_ipi] (riscv.h:144) may also return with no
    interrupt pending; the loop then re-tests [mip]. *)
Definition wfi_spurious (h : nat) (w : mworld) : option mworld :=
  let hs := mw_harts w h in
  match h_pc hs with
  | T_wfi => move w h (goto hs T_wait_chk)
  | O_wfi => move w h (goto hs O_wait_chk)
  | _ => None
  end.

(** Interleaving: a hart in range takes a step of its program, or
    returns spuriously from [wfi]. *)
Inductive mstep : mworld -> mworld -> Prop :=
| mstep_intro h w w' : hart_ok h -> mstep_hart h w = Some w' -> mstep w w'
| mstep_wfi h w w' : hart_ok h -> wfi_spurious h w = Some w' -> mstep w w'.

End Step.

(** ** Views of a world *)

Definition msip (w : mworld) (j : nat) : Z := msip_word (mw_mach w) j.

Definition target (w : mworld) : nat := Z.to_nat (h_to (mw_harts w ZERO_HART)).

(** A secondary between its wake-up and its acknowledgement: it owns
    the mailbox. *)
Definition holding (p : mpc) : bool :=
  match p with O_wait_clear | O_puts_irq | O_puts_msg | O_print | O_send => true | _ => false end.

(** The primary between raising the target and clearing the
    acknowledgement. *)
Definition awaiting (p : mpc) : bool :=
  match p with T_wait_chk | T_wfi | T_wait_clear => true | _ => false end.

(** The primary with the message copied, not yet raised. *)
Definition loaded (p : mpc) : bool :=
  match p with T_puts_send | T_hex_send | T_send => true | _ => false end.

(** The primary past the range test of [to_hartid]. *)
Definition targeted (p : mpc) : bool :=
  match p with T_prompt_msg | T_read_msg | T_strlen | T_copy => true | _ => loaded p || awaiting p end.

(** The primary past [m = readline(NULL)]. *)
Definition on_line (p : mpc) : bool :=
  match p with T_strlen | T_copy => true | _ => loaded p || awaiting p end.

Definition is_main (p : mpc) : bool :=
  match p with
  | O_uart_init | O_clint_init | O_clear | O_mie | O_wait_chk | O_wfi | O_wait_clear
  | O_puts_irq | O_puts_msg | O_print | O_send => false
  | _ => true
  end.

(** Past the hart's own [clint_init]. *)
Definition inited (p : mpc) : bool :=
  match p with M_uart_init | M_clint_init | O_uart_init | O_clint_init => false | _ => true end.

(** The bytes [puts(s)] prints on hart [h] for a literal [s]. *)
Definition puts_text (h : nat) (s : list Z) : list Z :=
  removelast S_HART_OPEN ++ [48 + Z.of_nat h] ++ removelast S_HART_CLOSE ++ removelast s.

(** A C string of length [L] at [a]. *)
Definition cstr_at (m : mach) (a : Z) (L : nat) : Prop :=
  (forall i, (i < L)%nat -> byte_at m (a + Z.of_nat i) <> 0) /\ byte_at m (a + Z.of_nat L) = 0.

(** Reset, as the barrier leaves it: the primary at [main], the
    secondaries at [other_main], every [msip] clear. *)
Definition minit (w : mworld) : Prop :=
  forall h, hart_ok h ->
    h_pc (mw_harts w h) = (if decide (h = ZERO_HART) then M_uart_init else O_uart_init) /\ msip w h = 0.

Definition mreachable (buf : Z) (w : mworld) : Prop :=
  exists w0, minit w0 /\ rtc (mstep buf) w0 w.

(** ** Frame lemmas *)

Lemma mw_harts_upd w h hs c u j :
  mw_harts (upd w h hs c u) j = if decide (j = h) then hs else mw_harts w j.
Proof. unfold upd. simpl. case_decide; subst; [apply fupd_eq|by apply fupd_ne]. Qed.

Lemma load_list_agree m m' a n :
  (forall i, (i < n)%nat -> byte_at m' (a + Z.of_nat i) = byte_at m (a + Z.of_nat i)) ->
  load_list m' a n = load_list m a n.
Proof.
  revert a. induction n as [|n IH]; intros a H; [done|]. simpl. f_equal.
  - specialize (H 0%nat ltac:(lia)). by rewrite Z.add_0_r in H.
  - apply IH. intros i Hi. specialize (H (S i) ltac:(lia)).
    by replace (a + 1 + Z.of_nat i) with (a + Z.of_nat (S i)) by lia.
Qed.

Lemma msip_word_ext m m' j :
  (forall x, CLINT_CTRL_ADDR + 4 * Z.of_nat j <= x < CLINT_CTRL_ADDR + 4 * Z.of_nat j + 4 ->
     mem m' !! x = mem m !! x) ->
  msip_word m' j = msip_word m j.
Proof. intros H. unfold msip_word. apply load_bytes_ext. intros x Hx. rewrite H; [done|]. simpl in Hx. lia. Qed.

Lemma byte_at_ext m m' a : mem m' !! a = mem m !! a -> byte_at m' a = byte_at m a.
Proof. unfold byte_at. by intros ->. Qed.

(** The CLINT words written by the driver for harts in range. *)
Lemma clint_write_msip v c k j :
  clint_base c = CLINT_CTRL_ADDR -> hart_ok k -> hart_ok j ->
  msip_word (cmach (with_mach c (writew v (CLINT_SOFT (clint_base c) (Z.of_nat k)) (cmach c)))) j
  = if decide (j = k) then u32[v] else msip_word (cmach c) j.
Proof.
  intros Hb Hk Hj. rewrite Hb, CLINT_SOFT_eq by (unfold hart_ok, MAX_HARTS in Hk; lia). cbn [cmach with_mach].
  unfold writew, write, __io_aw, __io_bw. rewrite msip_word_write by done.
  by rewrite msip_word_emit.
Qed.

Lemma clint_write_mem v c k x :
  clint_base c = CLINT_CTRL_ADDR -> hart_ok k ->
  (x < CLINT_CTRL_ADDR \/ CLINT_CTRL_ADDR + CLINT_CTRL_SIZE <= x) ->
  mem (cmach (with_mach c (writew v (CLINT_SOFT (clint_base c) (Z.of_nat k)) (cmach c)))) !! x
  = mem (cmach c) !! x.
Proof.
  unfold hart_ok, MAX_HARTS. intros Hb Hk Hx. rewrite Hb, CLINT_SOFT_eq by lia. cbn [cmach with_mach].
  unfold writew. rewrite write_mem. apply store_bytes_lookup_out. platform_consts. simpl. lia.
Qed.

(** ** [puts] on literals *)

(** Decidable facts about literals, by evaluation. *)
Ltac lit_check := apply (bool_decide_unpack _); vm_compute; exact I.

Lemma bind_Some {A B} (x : A) (f : A -> option B) : Some x ≫= f = f x.
Proof. reflexivity. Qed.

Lemma fmap_u8_bytes (l : list Z) : Forall (fun c => 0 <= c < 256) l -> (fun c => u8[c]) <$> l = l.
Proof.
  induction 1 as [|c l Hc Hl IH]; [done|]. rewrite fmap_cons, IH, wrap_small by lia. done.
Qed.

Lemma uart_puts_literal s u :
  s = removelast s ++ [0] -> Forall (fun c => c <> 0) (removelast s) ->
  uart_puts s u = Some (sent_list (removelast s) u).
Proof. intros Hs Hf. rewrite Hs at 1. by apply uart_puts_correct. Qed.

(** [puts(s)] on hart [h] for a literal [s] appends the tag and the
    text of [s]. *)
Lemma puts_tx h s u u' :
  (h < 10)%nat -> s = removelast s ++ [0] -> Forall (fun c => 0 < c < 256) (removelast s) ->
  puts h s u = Some u' -> tx_out (udev u') = tx_out (udev u) ++ puts_text h s.
Proof.
  intros Hh Hs Hb. unfold puts.
  rewrite (uart_puts_literal S_HART_OPEN) by lit_check.
  rewrite bind_Some, uart_putc_correct, bind_Some.
  rewrite (uart_puts_literal S_HART_CLOSE) by lit_check.
  rewrite bind_Some, (uart_puts_literal s); [|done|by eapply Forall_impl; [done|]; simpl; lia].
  intros Hu. apply Some_inj in Hu. subst u'.
  destruct (sent_list_dev (removelast s) (sent_list (removelast S_HART_CLOSE)
    (sent (48 + u8[Z.of_nat h]) (sent_list (removelast S_HART_OPEN) u)))) as (_ & _ & -> & _).
  destruct (sent_list_dev (removelast S_HART_CLOSE)
    (sent (48 + u8[Z.of_nat h]) (sent_list (removelast S_HART_OPEN) u))) as (_ & _ & -> & _).
  cbn [sent with_dev udev tx_out].
  destruct (sent_list_dev (removelast S_HART_OPEN) u) as (_ & _ & -> & _).
  rewrite (fmap_u8_bytes (removelast s)) by (eapply Forall_impl; [done|]; simpl; lia).
  rewrite (wrap_small 8 (Z.of_nat h)), (wrap_small 8 (48 + Z.of_nat h)) by lia.
  unfold puts_text. rewrite !fmap_u8_bytes by lit_check.
  by rewrite <- !app_assoc.
Qed.

(** ** The protocol invariant *)

Section Protocol.
(** [readline]'s static buffer, disjoint from the mailbox and the CLINT. *)
Variable buf : Z.
Hypothesis Hbuf_smp : buf + BUFSIZE <= SMP_ADDR \/ SMP_ADDR + SMP_SIZE <= buf.
Hypothesis Hbuf_clint : buf + BUFSIZE <= CLINT_CTRL_ADDR \/ CLINT_CTRL_ADDR + CLINT_CTRL_SIZE <= buf.

(** The mailbox holds a copy of the C string in the buffer. *)
Definition mailbox_holds (m : mach) (L : nat) : Prop :=
  Z.of_nat L < BUFSIZE /\ cstr_at m buf L /\ load_list m SMP_ADDR (S L) = load_list m buf (S L).

(** [memcpy(SMP_ADDR, m, strlen(m) + 1)] after [k] iterations. *)
Definition copy_inv (hs : mhart) (m : mach) : Prop :=
  exists L k, Z.of_nat L < BUFSIZE /\ cstr_at m buf L /\ (k <= S L)%nat /\
    h_d hs = SMP_ADDR + Z.of_nat k /\ h_s hs = buf + Z.of_nat k /\ h_n hs = Z.of_nat (S L - k) /\
    load_list m SMP_ADDR k = load_list m buf k.

(** The target's [uart_puts(SMP_ADDR)] after [k] iterations: the
    output ends with its tag, the prefix text and the [k] bytes. *)
Definition print_ok (t : nat) (hs : mhart) (m : mach) (tx : list Z) (L : nat) : Prop :=
  (h_pc hs = O_print \/ h_pc hs = O_send) ->
  exists pre k, h_s hs = SMP_ADDR + Z.of_nat k /\ (k <= L)%nat /\ (h_pc hs = O_send -> k = L) /\
    tx = pre ++ puts_text t S_MESSAGE_FROM ++ load_list m SMP_ADDR k.

(** While the primary waits: the target is raised and has not woken
    (a), owns the mailbox (b), or has acknowledged, or lost the raise
    to its initial clear (c). *)
Definition target_ok (w : mworld) : Prop :=
  let t := target w in
  let ht := mw_harts w t in
  let p0 := h_pc (mw_harts w ZERO_HART) in
  (msip w t = 1 /\ holding (h_pc ht) = false /\ msip w ZERO_HART = 0 /\ p0 <> T_wait_clear /\
     exists L, mailbox_holds (mw_mach w) L)
  \/ (holding (h_pc ht) = true /\ msip w ZERO_HART = 0 /\ p0 <> T_wait_clear /\
      msip w t = (if decide (h_pc ht = O_wait_clear) then 1 else 0) /\
      exists L, mailbox_holds (mw_mach w) L /\
        print_ok t ht (mw_mach w) (tx_out (udev (mw_uart w))) L)
  \/ (holding (h_pc ht) = false /\ msip w t = 0).

Record minv (w : mworld) : Prop := {
  mi_prog h : hart_ok h -> is_main (h_pc (mw_harts w h)) = bool_decide (h = ZERO_HART);
  mi_base h : hart_ok h -> inited (h_pc (mw_harts w h)) = true ->
    clint_base (mw_clint w) = CLINT_CTRL_ADDR;
  mi_to : targeted (h_pc (mw_harts w ZERO_HART)) = true -> 1 <= h_to (mw_harts w ZERO_HART) <= 4;
  mi_line : on_line (h_pc (mw_harts w ZERO_HART)) = true -> h_line (mw_harts w ZERO_HART) = buf;
  mi_copy : h_pc (mw_harts w ZERO_HART) = T_copy -> copy_inv (mw_harts w ZERO_HART) (mw_mach w);
  mi_loaded : loaded (h_pc (mw_harts w ZERO_HART)) = true -> exists L, mailbox_holds (mw_mach w) L;
  mi_idle : awaiting (h_pc (mw_harts w ZERO_HART)) = false ->
    msip w ZERO_HART = 0 /\
    forall j, hart_ok j -> j <> ZERO_HART -> msip w j = 0 /\ holding (h_pc (mw_harts w j)) = false;
  mi_wait : awaiting (h_pc (mw_harts w ZERO_HART)) = true ->
    (forall j, hart_ok j -> j <> ZERO_HART -> j <> target w ->
       msip w j = 0 /\ holding (h_pc (mw_harts w j)) = false) /\ target_ok w
}.

(** Two machines that agree on the buffer and the mailbox. *)
Definition agree (m m' : mach) : Prop :=
  forall a, (buf <= a < buf + BUFSIZE \/ SMP_ADDR <= a < SMP_ADDR + BUFSIZE) -> byte_at m' a = byte_at m a.

Lemma cstr_at_agree m m' L :
  agree m m' -> Z.of_nat L < BUFSIZE -> cstr_at m buf L -> cstr_at m' buf L.
Proof.
  intros Ha HL [Hnz Hz]. split.
  - intros i Hi. rewrite Ha by lia. auto.
  - rewrite Ha by lia. done.
Qed.

Lemma mailbox_holds_agree m m' L : agree m m' -> mailbox_holds m L -> mailbox_holds m' L.
Proof.
  intros Ha (HL & Hc & Hl). split; [done|]. split; [by apply (cstr_at_agree m)|].
  rewrite (load_list_agree m m' SMP_ADDR), (load_list_agree m m' buf); [done| |];
    intros i Hi; apply Ha; lia.
Qed.

Lemma print_ok_agree t hs m m' tx L :
  agree m m' -> mailbox_holds m L -> print_ok t hs m tx L -> print_ok t hs m' tx L.
Proof.
  intros Ha (HL & _) Hp Hpc. destruct (Hp Hpc) as (pre & k & Hs & Hk & Hsend & Htx).
  exists pre, k. do 3 (split; [done|]). rewrite Htx, (load_list_agree m m' SMP_ADDR); [done|].
  intros i Hi. apply Ha. lia.
Qed.

(** The CLINT driver's writes leave the buffer and the mailbox alone. *)
Lemma agree_clint_write v c k :
  clint_base c = CLINT_CTRL_ADDR -> hart_ok k ->
  agree (cmach c) (cmach (with_mach c (writew v (CLINT_SOFT (clint_base c) (Z.of_nat k)) (cmach c)))).
Proof.
  intros Hb Hk a Ha. apply byte_at_ext. apply clint_write_mem; [done|done|].
  pose proof Hbuf_clint. platform_consts. unfold BUFSIZE in *. lia.
Qed.

Lemma copy_inv_agree hs m m' : agree m m' -> copy_inv hs m -> copy_inv hs m'.
Proof.
  intros Ha (L & k & HL & Hc & Hk & Hd & Hs & Hn & Hl). exists L, k.
  split; [done|]. split; [by apply (cstr_at_agree m)|]. do 4 (split; [done|]).
  rewrite (load_list_agree m m' SMP_ADDR), (load_list_agree m m' buf); [done| |];
    intros i Hi; apply Ha; lia.
Qed.

Lemma mip_pending_clear m j : msip_word m j = 0 -> mip_pending m j = false.
Proof. unfold mip_pending, read_mip. intros ->. reflexivity. Qed.

Lemma msip_upd w h hs c u j : msip (upd w h hs c u) j = msip_word (cmach c) j.
Proof. reflexivity. Qed.

Lemma mw_uart_upd w h hs c u : mw_uart (upd w h hs c u) = u.
Proof. reflexivity. Qed.

Lemma mw_mach_upd w h hs c u : mw_mach (upd w h hs c u) = cmach c.
Proof. reflexivity. Qed.

Lemma mw_clint_upd w h hs c u : mw_clint (upd w h hs c u) = c.
Proof. reflexivity. Qed.

Lemma target_upd_secondary w j hs c u : j <> ZERO_HART -> target (upd w j hs c u) = target w.
Proof. intros. unfold target. by rewrite mw_harts_upd, decide_False. Qed.

Lemma awaiting_targeted p : awaiting p = true -> targeted p = true.
Proof. by destruct p. Qed.

Lemma target_hart w :
  minv w -> awaiting (h_pc (mw_harts w ZERO_HART)) = true ->
  hart_ok (target w) /\ target w <> ZERO_HART /\ h_to (mw_harts w ZERO_HART) = Z.of_nat (target w).
Proof.
  intros Hi Ha. pose proof (mi_to w Hi (awaiting_targeted _ Ha)). unfold target. hart_tac.
Qed.

(** A step of the primary while no secondary owns the mailbox or is
    raised. *)
Lemma minv_primary_idle w hs' c' u' :
  minv w ->
  (forall j, hart_ok j -> j <> ZERO_HART -> msip w j = 0 /\ holding (h_pc (mw_harts w j)) = false) ->
  awaiting (h_pc hs') = false -> is_main (h_pc hs') = true ->
  (inited (h_pc hs') = true -> clint_base c' = CLINT_CTRL_ADDR) ->
  (clint_base c' = clint_base (mw_clint w) \/ clint_base c' = CLINT_CTRL_ADDR) ->
  msip_word (cmach c') ZERO_HART = 0 ->
  (forall j, hart_ok j -> j <> ZERO_HART -> msip_word (cmach c') j = msip w j) ->
  (targeted (h_pc hs') = true -> 1 <= h_to hs' <= 4) ->
  (on_line (h_pc hs') = true -> h_line hs' = buf) ->
  (h_pc hs' = T_copy -> copy_inv hs' (cmach c')) ->
  (loaded (h_pc hs') = true -> exists L, mailbox_holds (cmach c') L) ->
  minv (upd w ZERO_HART hs' c' u').
Proof.
  intros Hi Hidle Ha' Hm Hin Hb H0 Hj Hto Hl Hc Hld.
  split; rewrite ?mw_harts_upd, ?decide_True by done; try done.
  - intros h Hh. rewrite mw_harts_upd. case_decide; subst; [done|]. by apply (mi_prog w Hi).
  - intros h Hh. rewrite mw_harts_upd. case_decide; subst; [done|].
    intros Hinit. pose proof (mi_base w Hi h Hh Hinit). simpl. destruct Hb; congruence.
  - intros _. rewrite msip_upd. split; [done|]. intros j Hjok Hj0.
    rewrite msip_upd, Hj, mw_harts_upd, decide_False by done. by apply Hidle.
  - by rewrite Ha'.
Qed.

Lemma idle_secondaries w :
  minv w -> awaiting (h_pc (mw_harts w ZERO_HART)) = false ->
  forall j, hart_ok j -> j <> ZERO_HART -> msip w j = 0 /\ holding (h_pc (mw_harts w j)) = false.
Proof. intros Hi Ha. apply (mi_idle w Hi Ha). Qed.

(** A step of the primary inside [wait_ipi] that only moves it. *)
Lemma minv_primary_wait w pc' :
  minv w -> awaiting (h_pc (mw_harts w ZERO_HART)) = true -> awaiting pc' = true ->
  (pc' = T_wait_clear -> msip w ZERO_HART <> 0) ->
  minv (upd w ZERO_HART (goto (mw_harts w ZERO_HART) pc') (mw_clint w) (mw_uart w)).
Proof.
  intros Hi Ha Ha' Hclr.
  assert (Ht : target (upd w ZERO_HART (goto (mw_harts w ZERO_HART) pc') (mw_clint w) (mw_uart w)) = target w).
  { unfold target. by rewrite mw_harts_upd, decide_True. }
  destruct (target_hart w Hi Ha) as (Htok & Ht0 & _).
  split; rewrite ?mw_harts_upd, ?decide_True by done; cbn [h_pc h_to h_line goto].
  - intros h Hh. rewrite mw_harts_upd. case_decide; subst; [|by apply (mi_prog w Hi)].
    cbn [h_pc goto]. by destruct pc'.
  - intros h Hh. rewrite mw_harts_upd. case_decide; subst; [|by apply (mi_base w Hi)].
    intros _. apply (mi_base w Hi ZERO_HART); [hart_tac|]. by destruct (h_pc (mw_harts w ZERO_HART)).
  - intros _. apply (mi_to w Hi). by apply awaiting_targeted.
  - intros _. apply (mi_line w Hi). by destruct (h_pc (mw_harts w ZERO_HART)).
  - intros ->. done.
  - by destruct pc'.
  - by rewrite Ha'.
  - intros _. destruct (mi_wait w Hi Ha) as [Hoth Hto]. rewrite Ht. split.
    + intros j Hj Hj0 Hjt. rewrite msip_upd, mw_harts_upd, decide_False by done. by apply Hoth.
    + unfold target_ok in *. rewrite Ht, !msip_upd, !mw_harts_upd.
      destruct (decide (target w = ZERO_HART)); [done|].
      destruct (decide (ZERO_HART = ZERO_HART)); [|done].
      cbn [h_pc goto mw_uart upd]. destruct Hto as [(H1 & H2 & H3 & H4 & H5)|[(H1 & H2 & H3 & H4 & H5)|H5]].
      * left. do 3 (split; [done|]). split; [|done]. intros ->. by apply Hclr.
      * right; left. do 2 (split; [done|]). split; [|done]. intros ->. by apply Hclr.
      * by right; right.
Qed.

(** A step of a secondary that does not own the mailbox and does not
    print. *)
Lemma minv_secondary_idle w j hs' c' u' :
  minv w -> hart_ok j -> j <> ZERO_HART ->
  holding (h_pc (mw_harts w j)) = false -> holding (h_pc hs') = false -> is_main (h_pc hs') = false ->
  (inited (h_pc hs') = true -> clint_base c' = CLINT_CTRL_ADDR) ->
  (clint_base c' = clint_base (mw_clint w) \/ clint_base c' = CLINT_CTRL_ADDR) ->
  (forall k, hart_ok k -> k <> j -> msip_word (cmach c') k = msip w k) ->
  (msip_word (cmach c') j = msip w j \/ msip_word (cmach c') j = 0) ->
  agree (mw_mach w) (cmach c') ->
  tx_out (udev u') = tx_out (udev (mw_uart w)) ->
  minv (upd w j hs' c' u').
Proof.
  intros Hi Hjok Hj0 Hh Hh' Hm Hin Hb Hk Hjm Hag Htx.
  split; rewrite ?mw_harts_upd, ?decide_False by done.
  - intros h Hh0. rewrite mw_harts_upd. case_decide; subst; [by rewrite bool_decide_false|].
    by apply (mi_prog w Hi).
  - intros h Hh0. rewrite mw_harts_upd. case_decide; subst; [done|].
    intros Hinit. pose proof (mi_base w Hi h Hh0 Hinit). simpl. destruct Hb; congruence.
  - apply (mi_to w Hi).
  - apply (mi_line w Hi).
  - intros Hc. apply (copy_inv_agree _ (mw_mach w)); [done|]. by apply (mi_copy w Hi).
  - intros Hl. destruct (mi_loaded w Hi Hl) as [L HL]. exists L. by apply (mailbox_holds_agree (mw_mach w)).
  - intros Ha. destruct (mi_idle w Hi Ha) as [H0 Hidle]. rewrite msip_upd, Hk by hart_tac.
    split; [done|]. intros k Hkok Hk0. rewrite msip_upd, mw_harts_upd.
    case_decide; subst.
    + split; [|done]. destruct Hjm as [->| ->]; [by apply Hidle|done].
    + rewrite Hk by done. by apply Hidle.
  - intros Ha. destruct (mi_wait w Hi Ha) as [Hothers Ht]. rewrite target_upd_secondary by done.
    split.
    + intros k Hkok Hk0 Hkt. rewrite msip_upd, mw_harts_upd. case_decide; subst.
      * split; [|done]. destruct Hjm as [->| ->]; [by apply Hothers|done].
      * rewrite Hk by done. by apply Hothers.
    + unfold target_ok in *. rewrite target_upd_secondary, !msip_upd, (mw_harts_upd w j hs' c' u' ZERO_HART)
        by done.
      destruct (decide (ZERO_HART = j)); [hart_tac|]. rewrite mw_harts_upd.
      rewrite (Hk ZERO_HART) by hart_tac.
      destruct (decide (target w = j)) as [Htj|Htj].
      * subst j.
        destruct Ht as [(H1 & H2 & H3 & H4 & L & HL)|[(H1 & _)|(H1 & H2)]]; [|congruence|].
        -- destruct Hjm as [Hjm|Hjm].
           ++ left. rewrite Hjm. do 4 (split; [done|]). exists L. by apply (mailbox_holds_agree (mw_mach w)).
           ++ right; right. done.
        -- right; right. split; [done|]. destruct Hjm as [->| ->]; done.
      * destruct (target_hart w Hi Ha) as (Ht1 & Ht2 & _). rewrite (Hk (target w)) by done.
        destruct Ht as [(H1 & H2 & H3 & H4 & L & HL)|[(H1 & H2 & H3 & H4 & L & HL & Hp)|Hc]].
        -- left. do 4 (split; [done|]). exists L. by apply (mailbox_holds_agree (mw_mach w)).
        -- right; left. do 4 (split; [done|]). exists L. split; [by apply (mailbox_holds_agree (mw_mach w))|].
           rewrite mw_uart_upd, Htx. by apply (print_ok_agree _ _ (mw_mach w)).
        -- by right; right.
Qed.

(** A step of the target while the primary waits. *)
Lemma minv_target_step w j hs' c' u' :
  minv w -> awaiting (h_pc (mw_harts w ZERO_HART)) = true -> j = target w ->
  is_main (h_pc hs') = false -> inited (h_pc hs') = true ->
  clint_base c' = clint_base (mw_clint w) ->
  (forall k, hart_ok k -> k <> j -> k <> ZERO_HART -> msip_word (cmach c') k = msip w k) ->
  target_ok (upd w j hs' c' u') ->
  minv (upd w j hs' c' u').
Proof.
  intros Hi Ha -> Hm Hin Hb Hk Ht.
  destruct (target_hart w Hi Ha) as (Htok & Ht0 & _).
  assert (Hbase : clint_base (mw_clint w) = CLINT_CTRL_ADDR).
  { apply (mi_base w Hi ZERO_HART); [hart_tac|]. by destruct (h_pc (mw_harts w ZERO_HART)). }
  split; rewrite ?mw_harts_upd, ?(decide_False (P := ZERO_HART = target w)) by done.
  - intros h Hh. rewrite mw_harts_upd. case_decide; subst; [by rewrite bool_decide_false|].
    by apply (mi_prog w Hi).
  - intros h Hh _. rewrite mw_clint_upd, Hb. done.
  - apply (mi_to w Hi).
  - apply (mi_line w Hi).
  - intros Hc. by rewrite Hc in Ha.
  - intros Hl. by destruct (h_pc (mw_harts w ZERO_HART)).
  - by rewrite Ha.
  - intros _. split; [|done]. rewrite target_upd_secondary by done.
    intros k Hkok Hk0 Hkt. rewrite msip_upd, Hk, mw_harts_upd, decide_False by done.
    by apply (mi_wait w Hi Ha).
Qed.

(** Only the target owns the mailbox, and only while the primary
    waits. *)
Lemma holding_inv w j :
  minv w -> hart_ok j -> j <> ZERO_HART -> holding (h_pc (mw_harts w j)) = true ->
  awaiting (h_pc (mw_harts w ZERO_HART)) = true /\ j = target w /\
  msip w ZERO_HART = 0 /\ h_pc (mw_harts w ZERO_HART) <> T_wait_clear /\
  msip w j = (if decide (h_pc (mw_harts w j) = O_wait_clear) then 1 else 0) /\
  exists L, mailbox_holds (mw_mach w) L /\
    print_ok j (mw_harts w j) (mw_mach w) (tx_out (udev (mw_uart w))) L.
Proof.
  intros Hi Hj Hj0 Hh. destruct (awaiting (h_pc (mw_harts w ZERO_HART))) eqn:Ha.
  - destruct (mi_wait w Hi Ha) as [Hoth Ht].
    destruct (decide (j = target w)) as [->|Hne]; [|by destruct (Hoth j Hj Hj0 Hne) as [_ Hf]; congruence].
    destruct Ht as [(_ & Hf & _)|[(_ & H2 & H3 & H4 & H5)|(Hf & _)]]; [congruence| |congruence].
    by do 2 (split; [done|]).
  - destruct (mi_idle w Hi Ha) as [_ Hidle]. destruct (Hidle j Hj Hj0) as [_ Hf]. congruence.
Qed.

(** ** Inversion of the steps *)

Lemma say_inv w h hs r w' : say w h hs r = Some w' -> exists u, r = Some u /\ w' = upd w h hs (mw_clint w) u.
Proof. unfold say. destruct r as [u|]; [|done]. intros [= <-]. by exists u. Qed.

Lemma move_inv w h hs w' : move w h hs = Some w' -> w' = upd w h hs (mw_clint w) (mw_uart w).
Proof. unfold move. by intros [= <-]. Qed.

Lemma msip_word_plain_store a v m j :
  hart_ok j -> (a < CLINT_CTRL_ADDR \/ CLINT_CTRL_ADDR + CLINT_CTRL_SIZE <= a) ->
  msip_word (plain_store a v m) j = msip_word m j.
Proof.
  intros Hj Ha. apply msip_word_ext. intros x Hx. apply plain_store_lookup_ne.
  revert Hj Ha Hx. unfold hart_ok. platform_consts. lia.
Qed.

Lemma readline_msip n u m q u' m' :
  readline n None buf u m = Some (q, u', m') ->
  (q = NULL \/ q = Ptr buf) /\ forall j, hart_ok j -> msip_word m' j = msip_word m j.
Proof.
  intros Hr. destruct (readline_frame n buf u m q u' m' Hr) as [Hq Ho]. split; [done|].
  intros j Hj. apply msip_word_ext. intros x Hx. apply Ho.
  pose proof Hbuf_clint. revert Hj Hx. unfold hart_ok. platform_consts. unfold BUFSIZE in *. lia.
Qed.

Lemma read_line_inv w p u' m' :
  read_line buf w = Some (p, u', m') ->
  p = buf /\ forall j, hart_ok j -> msip_word m' j = msip w j.
Proof.
  unfold read_line. destruct (readline _ None buf _ _) as [[[[|q] u1] m1]|] eqn:Hr; try done.
  intros [= -> <- <-]. destruct (readline_msip _ _ _ _ _ _ Hr) as [[Hq|Hq] Hm]; [done|].
  by injection Hq as ->.
Qed.

(** ** The copy to the mailbox *)

Lemma copy_start w len :
  minv w -> h_pc (mw_harts w ZERO_HART) = T_strlen ->
  strlen (Z.to_nat BUFSIZE) (mw_mach w) (h_line (mw_harts w ZERO_HART)) = Some len ->
  let hs := mw_harts w ZERO_HART in
  copy_inv (MHart T_copy (h_to hs) (h_line hs) u64[len + 1] SMP_ADDR (h_line hs) (h_mie hs)) (mw_mach w).
Proof.
  intros Hi Hpc Hlen hs. subst hs. rewrite (mi_line w Hi) in Hlen |- * by (by rewrite Hpc).
  apply strlen_sound in Hlen as (L & -> & HL & Hnz & Hz); [|unfold BUFSIZE; simpl; lia].
  exists L, 0%nat. cbn [h_d h_s h_n]. unfold BUFSIZE in *.
  split; [lia|]. split; [done|]. split; [lia|]. split; [lia|]. split; [lia|].
  split; [rewrite wrap_small; lia|done].
Qed.

Lemma copy_step hs m :
  copy_inv hs m -> h_n hs > 0 ->
  copy_inv (MHart T_copy (h_to hs) (h_line hs) (h_n hs - 1) (h_d hs + 1) (h_s hs + 1) (h_mie hs))
    (plain_store (h_d hs) (byte_at m (h_s hs)) m) /\
  forall j, hart_ok j -> msip_word (plain_store (h_d hs) (byte_at m (h_s hs)) m) j = msip_word m j.
Proof.
  intros (L & k & HL & [Hnz Hz] & Hk & Hd & Hs & Hn & Hl) Hpos.
  pose proof Hbuf_smp as Hbs. unfold BUFSIZE, SMP_SIZE in *.
  assert (Hbuf : forall i, (i <= L)%nat -> byte_at (plain_store (h_d hs) (byte_at m (h_s hs)) m) (buf + Z.of_nat i)
                           = byte_at m (buf + Z.of_nat i)).
  { intros i Hi. rewrite byte_at_plain_store, decide_False; [done|]. rewrite Hd. unfold SMP_ADDR in *. lia. }
  split.
  - exists L, (S k). cbn [h_d h_s h_n]. split; [done|]. split.
    { split; [intros i Hi; rewrite Hbuf by lia; apply Hnz; lia|by rewrite Hbuf]. }
    split; [lia|]. split; [lia|]. split; [lia|]. split; [lia|].
    rewrite Hd, Hs in Hbuf |- *. rewrite !load_list_snoc, load_list_store_out by lia.
    rewrite (load_list_agree _ _ buf k), Hl by (intros i Hi; apply Hbuf; lia).
    f_equal. rewrite Hbuf by lia. rewrite byte_at_plain_store, decide_True by done.
    unfold byte_at at 1. by rewrite wrap_idem by lia.
  - intros j Hj. apply msip_word_plain_store; [done|]. rewrite Hd. platform_consts. lia.
Qed.

Lemma copy_done hs m : copy_inv hs m -> ~ h_n hs > 0 -> exists L, mailbox_holds m L.
Proof.
  intros (L & k & HL & Hc & Hk & Hd & Hs & Hn & Hl) Hpos. exists L.
  assert (k = S L) as -> by lia. done.
Qed.

(** ** The primary's steps *)

Lemma minv_send w :
  minv w -> h_pc (mw_harts w ZERO_HART) = T_send ->
  minv (upd w ZERO_HART (goto (mw_harts w ZERO_HART) T_wait_chk)
          (clint_send_soft (h_to (mw_harts w ZERO_HART)) (mw_clint w)) (mw_uart w)).
Proof.
  intros Hi Hpc.
  pose proof (mi_to w Hi ltac:(by rewrite Hpc)) as Hto.
  assert (Hbase : clint_base (mw_clint w) = CLINT_CTRL_ADDR)
    by (apply (mi_base w Hi ZERO_HART); [hart_tac|by rewrite Hpc]).
  destruct (mi_idle w Hi ltac:(by rewrite Hpc)) as [H0 Hidle].
  destruct (mi_loaded w Hi ltac:(by rewrite Hpc)) as [L HL].
  set (t := Z.to_nat (h_to (mw_harts w ZERO_HART))).
  assert (Ht : h_to (mw_harts w ZERO_HART) = Z.of_nat t) by (subst t; lia).
  assert (Htok : hart_ok t) by (subst t; hart_tac).
  assert (Ht0 : t <> ZERO_HART) by (subst t; hart_tac).
  assert (Htarget : target (upd w ZERO_HART (goto (mw_harts w ZERO_HART) T_wait_chk)
          (clint_send_soft (h_to (mw_harts w ZERO_HART)) (mw_clint w)) (mw_uart w)) = t).
  { unfold target. by rewrite mw_harts_upd, decide_True. }
  rewrite Ht in Htarget |- *. unfold clint_send_soft in *.
  split; rewrite ?mw_harts_upd, ?decide_True by done; cbn [h_pc h_to h_line goto].
  - intros h Hh. rewrite mw_harts_upd. case_decide; subst; [done|by apply (mi_prog w Hi)].
  - intros h Hh _. by rewrite mw_clint_upd, with_mach_base.
  - intros _. exact Hto.
  - intros _. apply (mi_line w Hi). by rewrite Hpc.
  - done.
  - done.
  - done.
  - intros _. rewrite Htarget. split.
    + intros j Hj Hj0 Hjt. rewrite msip_upd, mw_harts_upd, decide_False by done.
      rewrite clint_write_msip, decide_False by done. by apply Hidle.
    + unfold target_ok. rewrite Htarget, !msip_upd, !mw_harts_upd, decide_False, decide_True by done.
      left. rewrite !clint_write_msip by hart_tac.
      destruct (decide (t = t)); [|done]. destruct (decide (ZERO_HART = t)); [done|].
      destruct (Hidle t Htok Ht0) as [_ Hh]. split; [done|]. split; [done|]. split; [done|].
      split; [done|]. exists L. rewrite mw_mach_upd.
      by apply (mailbox_holds_agree (mw_mach w)); [apply agree_clint_write|].
Qed.

Ltac prim_side Hi Hpc :=
  first
  [ exact Hi
  | (apply (idle_secondaries _ Hi); by rewrite Hpc)
  | reflexivity
  | (intros ?; discriminate)
  | (intros _; apply (mi_base _ Hi ZERO_HART); [hart_tac|by rewrite Hpc])
  | (left; reflexivity)
  | (right; reflexivity)
  | exact (proj1 (mi_idle _ Hi ltac:(by rewrite Hpc)))
  | (intros; reflexivity)
  | (intros _; cbn [h_to goto]; apply (mi_to _ Hi); by rewrite Hpc)
  | (intros _; cbn [h_line goto]; apply (mi_line _ Hi); by rewrite Hpc)
  | (intros _; apply (mi_loaded _ Hi); by rewrite Hpc) ].

Ltac prim_idle Hi Hpc := apply minv_primary_idle; prim_side Hi Hpc.

Ltac prim_say Hi Hpc Hst := apply say_inv in Hst as (? & _ & ->); prim_idle Hi Hpc.

Lemma minv_step_primary w w' :
  minv w -> mstep_hart buf ZERO_HART w = Some w' -> minv w'.
Proof.
  intros Hi Hst.
  pose proof (mi_prog w Hi ZERO_HART ltac:(hart_tac)) as Hprog.
  rewrite bool_decide_true in Hprog by done.
  unfold mstep_hart in Hst. cbv beta zeta in Hst.
  destruct (h_pc (mw_harts w ZERO_HART)) eqn:Hpc; try discriminate Hprog.
  - injection Hst as <-. prim_idle Hi Hpc.
  - injection Hst as <-. prim_idle Hi Hpc.
  - prim_say Hi Hpc Hst.
  - prim_say Hi Hpc Hst.
  - prim_say Hi Hpc Hst.
  - prim_say Hi Hpc Hst.
  - (* M_readline *)
    destruct (readline _ None buf _ _) as [[[q u'] m']|] eqn:Hr; [|done].
    destruct (readline_msip _ _ _ _ _ _ Hr) as [_ Hm].
    destruct q; injection Hst as <-; apply minv_primary_idle; try prim_side Hi Hpc;
      cbn [cmach with_mach]; try (intros; rewrite Hm; [done|hart_tac]).
    rewrite Hm by hart_tac. exact (proj1 (mi_idle _ Hi ltac:(by rewrite Hpc))).
    rewrite Hm by hart_tac. exact (proj1 (mi_idle _ Hi ltac:(by rewrite Hpc))).
  - prim_say Hi Hpc Hst.
  - (* M_puts_line *)
    case_decide; [apply move_inv in Hst as ->; prim_idle Hi Hpc|prim_say Hi Hpc Hst].
  - prim_say Hi Hpc Hst.
  - (* T_clear *)
    injection Hst as <-.
    assert (Hb : clint_base (mw_clint w) = CLINT_CTRL_ADDR)
      by (apply (mi_base w Hi ZERO_HART); [hart_tac|by rewrite Hpc]).
    unfold clint_clear_soft. apply minv_primary_idle; try prim_side Hi Hpc;
      try (rewrite clint_write_msip by hart_tac; by rewrite decide_True);
      try (intros j Hj Hj0; rewrite clint_write_msip, decide_False by hart_tac; done).
  - apply move_inv in Hst as ->. prim_idle Hi Hpc.
  - prim_say Hi Hpc Hst.
  - (* T_read_id *)
    destruct (read_line buf w) as [[[p u'] m']|] eqn:Hr; [|done]. simpl in Hst.
    destruct (read_line_inv w p u' m' Hr) as [-> Hm]. injection Hst as <-.
    apply minv_primary_idle; try prim_side Hi Hpc; cbn [cmach with_mach h_pc h_to];
      try (rewrite Hm by hart_tac; exact (proj1 (mi_idle _ Hi ltac:(by rewrite Hpc))));
      try (intros j Hj Hj0; by rewrite Hm);
      try (case_decide; [|done]; intros _; unfold ZERO_HART, MAX_HARTS in *; lia);
      case_decide; done.
  - prim_say Hi Hpc Hst.
  - prim_say Hi Hpc Hst.
  - (* T_read_msg *)
    destruct (read_line buf w) as [[[p u'] m']|] eqn:Hr; [|done]. simpl in Hst.
    destruct (read_line_inv w p u' m' Hr) as [-> Hm]. injection Hst as <-.
    apply minv_primary_idle; try prim_side Hi Hpc; cbn [cmach with_mach h_pc h_to h_line];
      try (rewrite Hm by hart_tac; exact (proj1 (mi_idle _ Hi ltac:(by rewrite Hpc))));
      try (intros j Hj Hj0; by rewrite Hm);
      intros _; apply (mi_to _ Hi); by rewrite Hpc.
  - (* T_strlen *)
    destruct (strlen _ _ _) as [len|] eqn:Hlen; [|done]. simpl in Hst. apply move_inv in Hst as ->.
    apply minv_primary_idle; try prim_side Hi Hpc; cbn [h_pc h_to h_line];
      try (intros _; apply (mi_line _ Hi); by rewrite Hpc);
      intros _; by apply copy_start.
  - (* T_copy *)
    pose proof (mi_copy w Hi Hpc) as Hc. case_decide as Hn.
    + injection Hst as <-. destruct (copy_step _ _ Hc Hn) as [Hc' Hm].
      apply minv_primary_idle; try prim_side Hi Hpc; cbn [cmach with_mach h_pc h_to h_line];
        try (rewrite Hm by hart_tac; exact (proj1 (mi_idle _ Hi ltac:(by rewrite Hpc))));
        try (intros j Hj Hj0; by rewrite Hm);
        try (intros _; apply (mi_line _ Hi); by rewrite Hpc);
        intros _; exact Hc'.
    + apply move_inv in Hst as ->. apply minv_primary_idle; try prim_side Hi Hpc.
      intros _. by apply (copy_done (mw_harts w ZERO_HART)).
  - prim_say Hi Hpc Hst.
  - prim_say Hi Hpc Hst.
  - (* T_send *)
    injection Hst as <-. by apply minv_send.
  - (* T_wait_chk *)
    apply move_inv in Hst as ->. apply minv_primary_wait; [done|by rewrite Hpc|by destruct (mip_pending _ _)|].
    destruct (mip_pending _ _) eqn:Hp; [|done]. intros _ H0.
    by rewrite mip_pending_clear in Hp.
  - (* T_wfi *)
    destruct (wfi_resumes _ _ _); [|done]. apply move_inv in Hst as ->.
    by apply minv_primary_wait; [|rewrite Hpc|..].
  - (* T_wait_clear *)
    injection Hst as <-.
    assert (Hb : clint_base (mw_clint w) = CLINT_CTRL_ADDR)
      by (apply (mi_base w Hi ZERO_HART); [hart_tac|by rewrite Hpc]).
    destruct (mi_wait w Hi ltac:(by rewrite Hpc)) as [Hoth Ht].
    destruct (target_hart w Hi ltac:(by rewrite Hpc)) as (Htok & Ht0 & _).
    assert (Hc : msip w (target w) = 0 /\ holding (h_pc (mw_harts w (target w))) = false).
    { destruct Ht as [(_ & _ & _ & Hf & _)|[(_ & _ & Hf & _)|(H1 & H2)]]; [done|done|done]. }
    unfold clint_clear_soft. apply minv_primary_idle; try prim_side Hi Hpc;
      try (intros j Hj Hj0; destruct (decide (j = target w)) as [->|]; [done|]; by apply Hoth);
      try (rewrite clint_write_msip by hart_tac; by rewrite decide_True);
      intros j Hj Hj0; rewrite clint_write_msip, decide_False by hart_tac; done.
  - prim_say Hi Hpc Hst.
  - prim_say Hi Hpc Hst.
Qed.

(** ** The secondaries' steps *)

Lemma mailbox_byte m L i :
  mailbox_holds m L -> (i <= L)%nat -> byte_at m (SMP_ADDR + Z.of_nat i) = byte_at m (buf + Z.of_nat i).
Proof.
  intros (_ & _ & Hl) Hi.
  pose proof (load_list_lookup m SMP_ADDR (S L) i ltac:(lia)) as H1.
  pose proof (load_list_lookup m buf (S L) i ltac:(lia)) as H2.
  rewrite Hl, H2 in H1. congruence.
Qed.

(** A secondary whose [msip] is set is the target, raised and not yet
    awake. *)
Lemma pending_target w j :
  minv w -> hart_ok j -> j <> ZERO_HART -> holding (h_pc (mw_harts w j)) = false -> msip w j <> 0 ->
  awaiting (h_pc (mw_harts w ZERO_HART)) = true /\ j = target w /\ msip w j = 1 /\
  msip w ZERO_HART = 0 /\ h_pc (mw_harts w ZERO_HART) <> T_wait_clear /\
  exists L, mailbox_holds (mw_mach w) L.
Proof.
  intros Hi Hj Hj0 Hh Hm. destruct (awaiting (h_pc (mw_harts w ZERO_HART))) eqn:Ha.
  - destruct (mi_wait w Hi Ha) as [Hoth Ht].
    destruct (decide (j = target w)) as [->|Hne]; [|by destruct (Hoth j Hj Hj0 Hne)].
    destruct Ht as [(H1 & H2 & H3 & H4 & H5)|[(Hf & _)|(_ & Hf)]]; [done|congruence|done].
  - destruct (mi_idle w Hi Ha) as [_ Hidle]. by destruct (Hidle j Hj Hj0).
Qed.

Lemma mip_pending_set m j : mip_pending m j = true -> msip_word m j <> 0.
Proof. intros Hp H0. by rewrite mip_pending_clear in Hp. Qed.

Ltac sec_side Hi Hpc :=
  first
  [ exact Hi
  | done
  | (by rewrite Hpc)
  | reflexivity
  | (intros ?; discriminate)
  | (left; reflexivity)
  | (intros; reflexivity)
  | (intros a _; reflexivity)
  | (intros _; eapply (mi_base _ Hi); [eassumption|by rewrite Hpc])
  | (rewrite mw_uart_upd, uart_init_correct; reflexivity)
  | (rewrite uart_init_correct; reflexivity) ].

Ltac sec_idle Hi Hpc := apply minv_secondary_idle; try sec_side Hi Hpc.

Lemma minv_step_secondary w w' j :
  minv w -> hart_ok j -> j <> ZERO_HART -> mstep_hart buf j w = Some w' -> minv w'.
Proof.
  intros Hi Hj Hj0 Hst.
  pose proof (mi_prog w Hi j Hj) as Hprog. rewrite bool_decide_false in Hprog by done.
  unfold mstep_hart in Hst. cbv beta zeta in Hst.
  destruct (h_pc (mw_harts w j)) eqn:Hpc; try discriminate Hprog.
  - (* O_uart_init *) injection Hst as <-. sec_idle Hi Hpc.
  - (* O_clint_init *) injection Hst as <-. sec_idle Hi Hpc. by right.
  - (* O_clear *)
    injection Hst as <-.
    assert (Hb : clint_base (mw_clint w) = CLINT_CTRL_ADDR) by (apply (mi_base w Hi j); [done|by rewrite Hpc]).
    unfold clint_clear_soft. sec_idle Hi Hpc;
      try (intros k Hk Hkj; rewrite clint_write_msip, decide_False by hart_tac; done);
      try (right; rewrite clint_write_msip, decide_True by hart_tac; done).
    by apply agree_clint_write.
  - apply move_inv in Hst as ->. sec_idle Hi Hpc.
  - (* O_wait_chk *)
    apply move_inv in Hst as ->. destruct (mip_pending _ _) eqn:Hp; [|sec_idle Hi Hpc].
    apply mip_pending_set in Hp.
    destruct (pending_target w j Hi Hj Hj0 ltac:(by rewrite Hpc) Hp) as (Ha & -> & H1 & H0 & Hc & L & HL).
    apply minv_target_step; try done.
    unfold target_ok. rewrite target_upd_secondary, !msip_upd, !mw_harts_upd by done.
    destruct (decide (target w = target w)); [|done]. destruct (decide (ZERO_HART = target w)); [done|].
    right; left. cbn [h_pc goto].
    split; [done|]. split; [done|]. split; [done|]. split; [by rewrite decide_True|].
    exists L. split; [done|]. intros [H|H]; cbn in H; discriminate.
  - (* O_wfi *)
    destruct (wfi_resumes _ _ _); [|done]. apply move_inv in Hst as ->. sec_idle Hi Hpc.
  - (* O_wait_clear *)
    injection Hst as <-.
    destruct (holding_inv w j Hi Hj Hj0 ltac:(by rewrite Hpc)) as (Ha & -> & H0 & Hc & Hm & L & HL & _).
    assert (Hb : clint_base (mw_clint w) = CLINT_CTRL_ADDR)
      by (apply (mi_base w Hi (target w)); [done|by rewrite Hpc]).
    unfold clint_clear_soft. apply minv_target_step; try done.
    + intros k Hk Hkj Hk0. by rewrite clint_write_msip, decide_False by hart_tac.
    + unfold target_ok. rewrite target_upd_secondary, !msip_upd, !mw_harts_upd by done.
      destruct (decide (target w = target w)); [|done]. destruct (decide (ZERO_HART = target w)); [done|].
      right; left. cbn [h_pc goto]. rewrite !clint_write_msip by hart_tac.
      destruct (decide (ZERO_HART = target w)); [done|]. destruct (decide (target w = target w)); [|done].
      split; [done|]. split; [done|]. split; [done|]. split; [done|]. exists L.
      split; [by apply (mailbox_holds_agree (mw_mach w)); [apply agree_clint_write|]|].
      intros [H|H]; cbn in H; discriminate.
  - (* O_puts_irq *)
    apply say_inv in Hst as (u' & _ & ->).
    destruct (holding_inv w j Hi Hj Hj0 ltac:(by rewrite Hpc)) as (Ha & -> & H0 & Hc & Hm & L & HL & _).
    apply minv_target_step; try done.
    unfold target_ok. rewrite target_upd_secondary, !msip_upd, !mw_harts_upd by done.
    destruct (decide (target w = target w)); [|done]. destruct (decide (ZERO_HART = target w)); [done|].
    right; left. cbn [h_pc goto]. rewrite Hpc in Hm.
    split; [done|]. split; [done|]. split; [done|]. split; [done|]. exists L. split; [done|].
    intros [H|H]; cbn in H; discriminate.
  - (* O_puts_msg *)
    apply say_inv in Hst as (u' & Hput & ->).
    destruct (holding_inv w j Hi Hj Hj0 ltac:(by rewrite Hpc)) as (Ha & -> & H0 & Hc & Hm & L & HL & _).
    apply minv_target_step; try done.
    unfold target_ok. rewrite target_upd_secondary, !msip_upd, !mw_harts_upd by done.
    destruct (decide (target w = target w)); [|done]. destruct (decide (ZERO_HART = target w)); [done|].
    right; left. cbn [h_pc goto h_s]. rewrite Hpc in Hm.
    split; [done|]. split; [done|]. split; [done|]. split; [done|]. exists L. split; [done|].
    intros _. exists (tx_out (udev (mw_uart w))), 0%nat. cbn [h_s h_pc].
    split; [lia|]. split; [lia|]. split; [discriminate|].
    rewrite mw_uart_upd, (puts_tx (target w) S_MESSAGE_FROM (mw_uart w) u'); [|hart_tac|lit_check|lit_check|done].
    by rewrite app_nil_r.
  - (* O_print *)
    destruct (holding_inv w j Hi Hj Hj0 ltac:(by rewrite Hpc)) as (Ha & -> & H0 & Hc & Hm & L & HL & Hp).
    destruct (Hp ltac:(by left)) as (pre & k & Hs & Hk & _ & Htx).
    pose proof (mailbox_byte _ L k HL Hk) as Hbk. destruct HL as (HL1 & [Hnz Hz] & HL3).
    rewrite Hpc in Hm. destruct (decide (byte_at (mw_mach w) (h_s (mw_harts w (target w))) = 0)) as [Hch|Hch].
    + apply move_inv in Hst as ->. apply minv_target_step; try done.
      unfold target_ok. rewrite target_upd_secondary, !msip_upd, !mw_harts_upd by done.
      destruct (decide (target w = target w)); [|done]. destruct (decide (ZERO_HART = target w)); [done|].
      right; left. cbn [h_pc goto h_s].
      split; [done|]. split; [done|]. split; [done|]. split; [done|]. exists L. split; [done|].
      intros _. exists pre, k. split; [done|]. split; [done|]. split; [|done].
      intros _. destruct (decide (k = L)) as [|Hne]; [done|]. exfalso.
      apply (Hnz k); [lia|]. rewrite <- Hbk, <- Hs. done.
    + apply say_inv in Hst as (u' & Hput & ->). rewrite uart_putc_correct in Hput. injection Hput as <-.
      assert (Hkl : (k < L)%nat).
      { destruct (decide (k = L)) as [->|]; [|lia]. exfalso. apply Hch. by rewrite Hs, Hbk. }
      apply minv_target_step; try done.
      unfold target_ok. rewrite target_upd_secondary, !msip_upd, !mw_harts_upd by done.
      destruct (decide (target w = target w)); [|done]. destruct (decide (ZERO_HART = target w)); [done|].
      right; left. cbn [h_pc goto h_s].
      split; [done|]. split; [done|]. split; [done|]. split; [done|]. exists L. split; [done|].
      intros _. exists pre, (S k). cbn [h_s h_pc].
      split; [rewrite Hs; lia|]. split; [lia|]. split; [discriminate|].
      rewrite mw_uart_upd. cbn [sent with_dev udev tx_out]. rewrite Htx, load_list_snoc, <- Hs.
      unfold byte_at at 1. rewrite wrap_idem by lia. by rewrite <- !app_assoc.
  - (* O_send *)
    injection Hst as <-.
    destruct (holding_inv w j Hi Hj Hj0 ltac:(by rewrite Hpc)) as (Ha & -> & H0 & Hc & Hm & L & HL & _).
    assert (Hb : clint_base (mw_clint w) = CLINT_CTRL_ADDR)
      by (apply (mi_base w Hi (target w)); [done|by rewrite Hpc]).
    unfold clint_send_soft. apply minv_target_step; try done.
    + intros k Hk Hkj Hk0. by rewrite clint_write_msip, decide_False by hart_tac.
    + unfold target_ok. rewrite target_upd_secondary, !msip_upd, !mw_harts_upd by done.
      destruct (decide (target w = target w)); [|done].
      right; right. cbn [h_pc goto]. split; [done|].
      rewrite clint_write_msip by hart_tac. rewrite Hpc in Hm.
      destruct (decide (target w = ZERO_HART)); [done|]. done.
Qed.

(** ** The invariant on reachable worlds *)

(** A spurious return leads to the re-test of [mip], as a forced one. *)
Lemma minv_wfi_spurious w w' h : minv w -> hart_ok h -> wfi_spurious h w = Some w' -> minv w'.
Proof.
  intros Hi Hh Hst. pose proof (mi_prog w Hi h Hh) as Hprog. unfold wfi_spurious in Hst.
  destruct (h_pc (mw_harts w h)) eqn:Hpc; try discriminate Hst; apply move_inv in Hst as ->.
  - symmetry in Hprog. apply bool_decide_eq_true_1 in Hprog as ->.
    by apply minv_primary_wait; [|rewrite Hpc|..].
  - symmetry in Hprog. apply bool_decide_eq_false_1 in Hprog as Hh0. sec_idle Hi Hpc.
Qed.

Lemma minv_step w w' : minv w -> mstep buf w w' -> minv w'.
Proof.
  intros Hi Hs. inversion Hs as [h w1 w2 Hh Hst|h w1 w2 Hh Hst]; subst;
    [|by apply (minv_wfi_spurious w w' h)].
  destruct (decide (h = ZERO_HART)) as [->|Hh0].
  - by apply (minv_step_primary w).
  - by apply (minv_step_secondary w w' h).
Qed.

Lemma minv_init w : minit w -> minv w.
Proof.
  intros H0. assert (Hpc : forall h, hart_ok h -> h_pc (mw_harts w h) =
    if decide (h = ZERO_HART) then M_uart_init else O_uart_init) by (intros; apply H0; done).
  assert (Hp0 : h_pc (mw_harts w ZERO_HART) = M_uart_init)
    by (rewrite Hpc by hart_tac; by rewrite decide_True).
  split; rewrite ?Hp0; try done.
  - intros h Hh. rewrite Hpc by done. case_decide; [by rewrite bool_decide_true|by rewrite bool_decide_false].
  - intros h Hh. rewrite Hpc by done. by case_decide.
  - intros _. split; [apply H0; hart_tac|]. intros j Hj Hj0. split; [by apply H0|].
    rewrite Hpc by done. by rewrite decide_False.
Qed.

Lemma minv_reachable w : mreachable buf w -> minv w.
Proof.
  intros (w0 & H0 & Hr). eapply rtc_invariant; [apply minv_step|apply minv_init, H0|done].
Qed.

(** C1: delivery.  In every reachable world, a secondary about to
    acknowledge ([clint_send_soft(ZERO_HART)] in [other_main]) is the
    primary's target, the primary is waiting in [wait_ipi], and the
    UART output ends with that secondary's tag, the text "Message from
    Hart 0: " and exactly the C string in the primary's line buffer. *)
Theorem mailbox_delivery w j :
  mreachable buf w -> hart_ok j -> j <> ZERO_HART -> h_pc (mw_harts w j) = O_send ->
  awaiting (h_pc (mw_harts w ZERO_HART)) = true /\ target w = j /\
  exists pre L, cstr_at (mw_mach w) buf L /\
    tx_out (udev (mw_uart w)) = pre ++ puts_text j S_MESSAGE_FROM ++ load_list (mw_mach w) buf L.
Proof.
  intros Hr Hj Hj0 Hpc. pose proof (minv_reachable w Hr) as Hi.
  destruct (holding_inv w j Hi Hj Hj0 ltac:(by rewrite Hpc)) as (Ha & Ht & _ & _ & _ & L & HL & Hp).
  destruct (Hp ltac:(by right)) as (pre & k & _ & _ & Hk & Htx). rewrite (Hk Hpc) in Htx.
  destruct HL as (_ & Hc & Hl). split; [done|]. split; [done|]. exists pre, L. split; [done|].
  rewrite Htx, (load_list_take _ SMP_ADDR L (S L)), Hl, <- load_list_take by lia. done.
Qed.

(** C2: exclusivity of the mailbox.  In every reachable world at most
    one secondary owns the mailbox (is between its wake-up and its
    acknowledgement), and none does while the primary copies the
    message or holds it unsent. *)
Theorem mailbox_exclusive w :
  mreachable buf w ->
  (forall j k, hart_ok j -> hart_ok k -> j <> ZERO_HART -> k <> ZERO_HART ->
     holding (h_pc (mw_harts w j)) = true -> holding (h_pc (mw_harts w k)) = true -> j = k) /\
  (h_pc (mw_harts w ZERO_HART) = T_copy \/ loaded (h_pc (mw_harts w ZERO_HART)) = true ->
   forall j, hart_ok j -> j <> ZERO_HART -> holding (h_pc (mw_harts w j)) = false).
Proof.
  intros Hr. pose proof (minv_reachable w Hr) as Hi. split.
  - intros j k Hj Hk Hj0 Hk0 Hhj Hhk.
    destruct (holding_inv w j Hi Hj Hj0 Hhj) as (_ & -> & _).
    by destruct (holding_inv w k Hi Hk Hk0 Hhk) as (_ & -> & _).
  - intros Hc j Hj Hj0. destruct (holding (h_pc (mw_harts w j))) eqn:Hh; [|done].
    destruct (holding_inv w j Hi Hj Hj0 Hh) as (Ha & _).
    destruct Hc as [Hc|Hc]; rewrite ?Hc in Ha; [done|].
    by destruct (h_pc (mw_harts w ZERO_HART)).
Qed.

End Protocol.

(** ** Executions *)

(** Run the harts in the order of a schedule; a blocked hart, or an id
    out of range, does not move. *)
Fixpoint mrun (buf : Z) (sched : list nat) (w : mworld) : mworld :=
  match sched with
  | [] => w
  | h :: sched' => mrun buf sched' (if decide (hart_ok h) then default w (mstep_hart buf h w) else w)
  end.

Lemma mrun_rtc buf sched w : rtc (mstep buf) w (mrun buf sched w).
Proof.
  revert w. induction sched as [|h sched IH]; intros w; simpl; [done|].
  case_decide; [|apply IH]. destruct (mstep_hart buf h w) eqn:E; simpl; [|apply IH].
  eapply rtc_l; [by econstructor|]. apply IH.
Qed.

(** The world at the entry of [main] and [other_main], with the bytes
    [rx] received by the UART and nothing else in memory. *)
Definition mailbox_boot (rx : list Z) : mworld :=
  MWorld (fun h => MHart (if decide (h = ZERO_HART) then M_uart_init else O_uart_init) 0 0 0 0 0 MIP_MSIP)
         (ClintSt 0 (Mach ∅ [])) (UartSt 0 0 0 (UDev [] 0 rx ∅)).

Lemma mailbox_boot_minit rx : minit (mailbox_boot rx).
Proof. intros h Hh. split; [done|]. reflexivity. Qed.

Lemma mrun_reachable buf sched rx : mreachable buf (mrun buf sched (mailbox_boot rx)).
Proof. exists (mailbox_boot rx). split; [apply mailbox_boot_minit|apply mrun_rtc]. Qed.

(** The received bytes "hi\n1\nyo\n": the console test line, the target
    hart id 1 and the message "yo". *)
Definition mailbox_rx : list Z := [104; 105; 10; 49; 10; 121; 111; 10].

(** The static [buf] of [readline] at 0x2000, clear of the CLINT and the
    mailbox. *)
Definition test_buf : Z := 8192.

Lemma test_buf_smp : test_buf + BUFSIZE <= SMP_ADDR \/ SMP_ADDR + SMP_SIZE <= test_buf.
Proof. unfold test_buf, BUFSIZE, SMP_ADDR. lia. Qed.

Lemma test_buf_clint :
  test_buf + BUFSIZE <= CLINT_CTRL_ADDR \/ CLINT_CTRL_ADDR + CLINT_CTRL_SIZE <= test_buf.
Proof. unfold test_buf, BUFSIZE, CLINT_CTRL_ADDR. lia. Qed.

(** The secondaries initialise and wait, the primary runs to its wait,
    hart 1 prints the mailbox and reaches its acknowledgement. *)
Definition delivery_sched : list nat :=
  repeat 1%nat 8 ++ repeat 2%nat 8 ++ repeat 3%nat 8 ++ repeat 4%nat 8 ++ repeat 0%nat 60 ++ repeat 1%nat 8.

Definition delivery_world : mworld := mrun test_buf delivery_sched (mailbox_boot mailbox_rx).

(** Witness of C1: hart 1 about to acknowledge, having printed "yo". *)
Lemma mailbox_delivery_witness :
  mreachable test_buf delivery_world /\ h_pc (mw_harts delivery_world 1) = O_send /\
  (awaiting (h_pc (mw_harts delivery_world ZERO_HART)) = true /\ target delivery_world = 1%nat /\
   exists pre L, cstr_at (mw_mach delivery_world) test_buf L /\
     tx_out (udev (mw_uart delivery_world))
     = pre ++ puts_text 1 S_MESSAGE_FROM ++ load_list (mw_mach delivery_world) test_buf L).
Proof.
  split; [apply mrun_reachable|]. split; [vm_compute; reflexivity|].
  apply (mailbox_delivery test_buf test_buf_smp test_buf_clint delivery_world 1);
    [apply mrun_reachable|cbv; lia|cbv; lia|vm_compute; reflexivity].
Defined.

(** Witness of C2: the same world, where hart 1 owns the mailbox. *)
Lemma mailbox_exclusive_witness :
  mreachable test_buf delivery_world /\ holding (h_pc (mw_harts delivery_world 1)) = true /\
  ((forall j k, hart_ok j -> hart_ok k -> j <> ZERO_HART -> k <> ZERO_HART ->
     holding (h_pc (mw_harts delivery_world j)) = true ->
     holding (h_pc (mw_harts delivery_world k)) = true -> j = k) /\
   (h_pc (mw_harts delivery_world ZERO_HART) = T_copy \/
    loaded (h_pc (mw_harts delivery_world ZERO_HART)) = true ->
    forall j, hart_ok j -> j <> ZERO_HART -> holding (h_pc (mw_harts delivery_world j)) = false)).
Proof.
  split; [apply mrun_reachable|]. split; [vm_compute; reflexivity|].
  apply (mailbox_exclusive test_buf test_buf_smp test_buf_clint). apply mrun_reachable.
Defined.

(** ** Parked worlds

    Every hart in the loop of [wait_ipi] with its [msip] clear: no
    interrupt forces a [wfi] to return, and a spurious return finds
    [mip] clear and waits again. *)
Definition parked_at (h : nat) (p : mpc) : bool :=
  match p with
  | T_wait_chk | T_wfi => bool_decide (h = ZERO_HART)
  | O_wait_chk | O_wfi => bool_decide (h <> ZERO_HART)
  | _ => false
  end.

Definition parked (w : mworld) : Prop :=
  forall h, hart_ok h -> parked_at h (h_pc (mw_harts w h)) = true /\ read_mip (mw_mach w) h = 0.

Lemma parked_move w h pc' :
  parked w -> parked_at h pc' = true ->
  parked (upd w h (goto (mw_harts w h) pc') (mw_clint w) (mw_uart w)).
Proof.
  intros Hp Ha j Hj. rewrite mw_harts_upd. split; [|apply Hp, Hj].
  case_decide; subst; [done|apply Hp, Hj].
Qed.

Lemma parked_step buf w w' : parked w -> mstep buf w w' -> parked w' /\ mw_uart w' = mw_uart w.
Proof.
  intros Hp Hs. destruct Hs as [h w w' Hh Hst|h w w' Hh Hst];
    destruct (Hp h Hh) as [Ha Hm]; revert Hst;
    unfold mstep_hart, wfi_spurious, mip_pending, wfi_resumes; cbv beta zeta;
    rewrite ?Hm, ?Z.land_0_l; cbn;
    destruct (h_pc (mw_harts w h)); try discriminate Ha; try discriminate;
    intros Hst%move_inv; subst w'; (split; [by apply parked_move|done]).
Qed.

Lemma parked_rtc buf w w' : parked w -> rtc (mstep buf) w w' -> parked w' /\ mw_uart w' = mw_uart w.
Proof.
  intros Hp Hr. induction Hr as [w|w1 w2 w3 Hs Hr IH]; [done|].
  destruct (parked_step buf w1 w2 Hp Hs) as [Hp2 Hu]. rewrite <- Hu. by apply IH.
Qed.

Lemma parked_awaiting w : parked w -> awaiting (h_pc (mw_harts w ZERO_HART)) = true.
Proof.
  intros Hp. destruct (Hp ZERO_HART ltac:(hart_tac)) as [Ha _]. revert Ha.
  by destruct (h_pc (mw_harts w ZERO_HART)); cbn; rewrite ?bool_decide_eq_true, ?bool_decide_eq_false.
Qed.

(** The world after the primary raised hart 1 before hart 1's clear. *)
Definition lost_world : mworld :=
  mrun test_buf (repeat 0%nat 80 ++ concat (repeat [1; 2; 3; 4]%nat 8)) (mailbox_boot mailbox_rx).

Lemma lost_world_parked : parked lost_world.
Proof.
  intros h Hh. unfold hart_ok, MAX_HARTS in Hh.
  do 5 (destruct h as [|h]; [split; vm_compute; reflexivity|]). lia.
Qed.

(** C8: the lost raise.  [other_main] clears its own [msip] after the
    barrier; when the primary raises the target before that clear, the
    raise is lost: there is a reachable world in which the primary waits
    in [wait_ipi] for an acknowledgement that never comes.  No hart has
    a step forced by an interrupt, and whatever the harts do from there,
    spurious returns from [wfi] included, the primary stays in
    [wait_ipi] and nothing more is printed. *)
Theorem lost_ipi_deadlock :
  exists w, mreachable test_buf w /\ awaiting (h_pc (mw_harts w ZERO_HART)) = true /\
    msip w (target w) = 0 /\ (forall h, hart_ok h -> mstep_hart test_buf h w = None) /\
    forall w', rtc (mstep test_buf) w w' ->
      awaiting (h_pc (mw_harts w' ZERO_HART)) = true /\ mw_uart w' = mw_uart w.
Proof.
  exists lost_world. split; [apply mrun_reachable|]. split; [vm_compute; reflexivity|].
  split; [vm_compute; reflexivity|]. split.
  - intros h Hh. unfold hart_ok, MAX_HARTS in Hh.
    do 5 (destruct h as [|h]; [vm_compute; reflexivity|]). lia.
  - intros w' Hr. destruct (parked_rtc _ _ _ lost_world_parked Hr) as [Hp ->].
    split; [by apply parked_awaiting|done].
Qed.

