(* ===== verification/MailboxSpec.v ===== *)
(** * The mailbox against the channel of the specification

    The specification describes the mailbox as a channel: [send(j,
    msg)] hands a message to hart [j], [receive] on [j] returns it; in
    the code the receiver also acknowledges ([clint_send_soft(ZERO_HART)]
    in [other_main]), and the sender waits for that acknowledgement
    before its next send.  [chan] and [cstep] are that channel: idle, a
    message sent to [j], the message delivered to [j].

    The five-hart system of [Mailbox] refines it.  [mlabel] names the
    steps the channel sees: the primary's raise ([clint_send_soft] in
    [test_ipi]) sends the C string [m] it read with [readline] (the
    source of its [memcpy]); a secondary leaving
    its [uart_puts(SMP_ADDR)] loop receives the bytes it walked; its
    acknowledgement acknowledges.  Every other step is silent, and so
    is a spurious return from [wfi] ([Mailbox.wfi_spurious]).
    [abs_chan] reads the channel state off a world.  The refinement
    theorem is a forward simulation in the style of a simulation
    diagram: a silent step keeps [abs_chan], a labelled step is a step
    of the channel; hence the events of every execution from reset are
    a run of the channel.  Messages are delivered to their target
    exactly, one at a time, in the order sent; a lost raise
    ([lost_ipi_deadlock]) stops the run at a sent message and violates
    none of this. *)

From S2P Require Import Prelude Platform Mmio Clint Barrier StringLib Uart Console Mailbox.

(** ** The channel *)

Inductive chan := Idle | Sent (j : nat) (msg : list Z) | Delivered (j : nat).

Inductive cevent := ESend (j : nat) (msg : list Z) | ERecv (j : nat) (msg : list Z) | EAck (j : nat).

#[export] Instance chan_eq_dec : EqDecision chan.
Proof. solve_decision. Defined.
#[export] Instance cevent_eq_dec : EqDecision cevent.
Proof. solve_decision. Defined.

Inductive cstep : chan -> cevent -> chan -> Prop :=
| cstep_send j msg : hart_ok j -> j <> ZERO_HART -> cstep Idle (ESend j msg) (Sent j msg)
| cstep_recv j msg : cstep (Sent j msg) (ERecv j msg) (Delivered j)
| cstep_ack j : cstep (Delivered j) (EAck j) Idle.

(** Runs of the channel, events in order. *)
Inductive crun : chan -> list cevent -> chan -> Prop :=
| crun_nil a : crun a [] a
| crun_snoc a evs b e c : crun a evs b -> cstep b e c -> crun a (evs ++ [e]) c.

(** ** Control flow of [main.c] *)

(** The labels a statement can go on to. *)
Definition mpc_next (p : mpc) : list mpc :=
  match p with
  | M_uart_init => [M_clint_init] | M_clint_init => [M_puts_running]
  | M_puts_running => [M_puts_hex] | M_puts_hex => [M_put_hex] | M_put_hex => [M_puts_console]
  | M_puts_console => [M_readline] | M_readline => [M_puts_console_ok; M_puts_ipi]
  | M_puts_console_ok => [M_puts_line] | M_puts_line => [M_puts_ipi; M_puts_line]
  | M_puts_ipi => [T_clear] | T_clear => [T_mie] | T_mie => [T_prompt_id]
  | T_prompt_id => [T_read_id] | T_read_id => [T_prompt_msg; T_out_of_range]
  | T_out_of_range => [T_prompt_id] | T_prompt_msg => [T_read_msg] | T_read_msg => [T_strlen]
  | T_strlen => [T_copy] | T_copy => [T_copy; T_puts_send] | T_puts_send => [T_hex_send]
  | T_hex_send => [T_send] | T_send => [T_wait_chk] | T_wait_chk => [T_wait_clear; T_wfi]
  | T_wfi => [T_wait_chk] | T_wait_clear => [T_puts_fin] | T_puts_fin => [T_hex_fin]
  | T_hex_fin => [T_prompt_id]
  | O_uart_init => [O_clint_init] | O_clint_init => [O_clear] | O_clear => [O_mie]
  | O_mie => [O_wait_chk] | O_wait_chk => [O_wait_clear; O_wfi] | O_wfi => [O_wait_chk]
  | O_wait_clear => [O_puts_irq] | O_puts_irq => [O_puts_msg] | O_puts_msg => [O_print]
  | O_print => [O_send; O_print] | O_send => [O_wait_chk]
  end.

(** ** Observing the system *)

(** The C string at [a], read for at most [n] bytes. *)
Fixpoint cstring (n : nat) (m : mach) (a : Z) : list Z :=
  match n with
  | O => []
  | S n' => if decide (byte_at m a = 0) then [] else byte_at m a :: cstring n' m (a + 1)
  end.

(** The message in the mailbox page. *)
Definition mailbox_msg (m : mach) : list Z := cstring (Z.to_nat SMP_SIZE) m SMP_ADDR.

(** The channel event of hart [h]'s next step, if any. *)
Definition mlabel (h : nat) (w : mworld) : option cevent :=
  let hs := mw_harts w h in
  let m := mw_mach w in
  match h_pc hs with
  | T_send => Some (ESend (target w) (cstring (Z.to_nat BUFSIZE) m (h_line hs)))
  | O_print =>
      if decide (byte_at m (h_s hs) = 0)
      then Some (ERecv h (load_list m SMP_ADDR (Z.to_nat (h_s hs - SMP_ADDR)))) else None
  | O_send => Some (EAck h)
  | _ => None
  end.

(** The channel state of a world: while the primary waits, its target
    has acknowledged (about to, or the primary's [msip] is up), or the
    message is in flight. *)
Definition abs_chan (w : mworld) : chan :=
  let p0 := h_pc (mw_harts w ZERO_HART) in
  let t := target w in
  if awaiting p0 then
    if decide (h_pc (mw_harts w t) = O_send) then Delivered t
    else if decide (msip w ZERO_HART = 0 /\ p0 <> T_wait_clear) then Sent t (mailbox_msg (mw_mach w))
    else Idle
  else Idle.

(** Executions with their channel events; a spurious return from
    [wfi] is silent. *)
Inductive mtrace (buf : Z) : mworld -> list cevent -> mworld -> Prop :=
| mtrace_nil w : mtrace buf w [] w
| mtrace_snoc w0 evs w h w' :
    mtrace buf w0 evs w -> hart_ok h -> mstep_hart buf h w = Some w' ->
    mtrace buf w0 (evs ++ option_list (mlabel h w)) w'
| mtrace_wfi w0 evs w h w' :
    mtrace buf w0 evs w -> hart_ok h -> wfi_spurious h w = Some w' -> mtrace buf w0 evs w'.

(** ** The shape of a step *)

Lemma mstep_hart_upd buf h w w' :
  mstep_hart buf h w = Some w' ->
  exists hs c u, w' = upd w h hs c u /\ h_pc hs ∈ mpc_next (h_pc (mw_harts w h)).
Proof.
  intros Hs. unfold mstep_hart in Hs. cbv beta zeta in Hs.
  destruct (h_pc (mw_harts w h)) eqn:Hpc;
    repeat first [ apply say_inv in Hs as (? & _ & Hs) | apply move_inv in Hs
                 | injection Hs as Hs | case_match
                 | match type of Hs with
                   | context [read_line ?b ?w0] => destruct (read_line b w0) as [[[? ?] ?]|]
                   | context [strlen ?f ?m ?a] => destruct (strlen f m a)
                   end; cbn [mbind option_bind] in Hs ]; subst;
    try discriminate; eexists _, _, _; (split; [reflexivity|]); cbn; set_solver.
Qed.

Lemma mstep_hart_frame buf h w w' j :
  mstep_hart buf h w = Some w' -> j <> h -> mw_harts w' j = mw_harts w j.
Proof.
  intros Hs Hj. destruct (mstep_hart_upd buf h w w' Hs) as (hs & c & u & -> & _).
  by rewrite mw_harts_upd, decide_False.
Qed.

Lemma mstep_hart_next buf h w w' :
  mstep_hart buf h w = Some w' -> h_pc (mw_harts w' h) ∈ mpc_next (h_pc (mw_harts w h)).
Proof.
  intros Hs. destruct (mstep_hart_upd buf h w w' Hs) as (hs & c & u & -> & Hn).
  by rewrite mw_harts_upd, decide_True.
Qed.

(** Only the raise starts a wait, and only the end of the print loop
    reaches the acknowledgement. *)
Lemma awaiting_next p p' :
  p' ∈ mpc_next p -> awaiting p' = true -> awaiting p = true \/ p = T_send.
Proof.
  intros Hin. destruct p; cbn in Hin; repeat (apply elem_of_cons in Hin as [->|Hin]);
    try (by apply elem_of_nil in Hin); auto.
Qed.

Lemma O_send_next p : O_send ∈ mpc_next p -> p = O_print.
Proof.
  intros Hin. destruct p; cbn in Hin; repeat (apply elem_of_cons in Hin as [Hin|Hin]);
    try (by apply elem_of_nil in Hin); done.
Qed.

(** ** C strings and the mailbox page *)

(** Two machines that agree outside the CLINT. *)
Definition clint_frame (m m' : mach) : Prop :=
  forall a, a < CLINT_CTRL_ADDR \/ CLINT_CTRL_ADDR + CLINT_CTRL_SIZE <= a -> mem m' !! a = mem m !! a.

Lemma cstring_ext n m m' a :
  (forall i, (i < n)%nat -> mem m' !! (a + Z.of_nat i) = mem m !! (a + Z.of_nat i)) ->
  cstring n m' a = cstring n m a.
Proof.
  revert a. induction n as [|n IH]; intros a H; [done|]. cbn [cstring].
  assert (Hb : byte_at m' a = byte_at m a).
  { apply byte_at_ext. specialize (H 0%nat ltac:(lia)). by rewrite Z.add_0_r in H. }
  rewrite Hb, (IH (a + 1)); [done|]. intros i Hi. specialize (H (S i) ltac:(lia)).
  by replace (a + 1 + Z.of_nat i) with (a + Z.of_nat (S i)) by lia.
Qed.

Lemma cstring_load n m a L : cstr_at m a L -> (L < n)%nat -> cstring n m a = load_list m a L.
Proof.
  intros [Hnz Hz]. revert n a Hnz Hz. induction L as [|L IH]; intros n a Hnz Hz Hn;
    (destruct n as [|n]; [lia|]); cbn [cstring load_list].
  - rewrite Z.add_0_r in Hz. by rewrite decide_True.
  - rewrite decide_False by (specialize (Hnz 0%nat ltac:(lia)); by rewrite Z.add_0_r in Hnz).
    f_equal. apply IH; [| |lia].
    + intros i Hi. specialize (Hnz (S i) ltac:(lia)). by replace (a + 1 + Z.of_nat i) with (a + Z.of_nat (S i)) by lia.
    + by replace (a + 1 + Z.of_nat L) with (a + Z.of_nat (S L)) by lia.
Qed.

Lemma mailbox_msg_frame m m' : clint_frame m m' -> mailbox_msg m' = mailbox_msg m.
Proof.
  intros H. apply cstring_ext. intros i Hi. apply H. revert Hi. platform_consts. simpl. lia.
Qed.

Lemma clint_frame_refl m : clint_frame m m.
Proof. done. Qed.

Lemma clint_frame_write v c k :
  clint_base c = CLINT_CTRL_ADDR -> hart_ok k ->
  clint_frame (cmach c) (cmach (with_mach c (writew v (CLINT_SOFT (clint_base c) (Z.of_nat k)) (cmach c)))).
Proof. intros Hb Hk a Ha. by apply clint_write_mem. Qed.

#[local] Hint Resolve clint_frame_refl clint_frame_write : tcore.

(** ** The abstraction *)

Lemma awaiting_ne_send p : awaiting p = true -> p <> O_send.
Proof. by destruct p. Qed.

Lemma abs_chan_idle w : awaiting (h_pc (mw_harts w ZERO_HART)) = false -> abs_chan w = Idle.
Proof. unfold abs_chan. by intros ->. Qed.

(** A step that keeps the primary, the target's acknowledgement, hart
    0's [msip] and the memory outside the CLINT keeps the channel. *)
Lemma abs_chan_ext w w' :
  mw_harts w' ZERO_HART = mw_harts w ZERO_HART ->
  (h_pc (mw_harts w' (target w)) = O_send <-> h_pc (mw_harts w (target w)) = O_send) ->
  msip w' ZERO_HART = msip w ZERO_HART -> clint_frame (mw_mach w) (mw_mach w') ->
  abs_chan w' = abs_chan w.
Proof.
  intros H0 Ht Hm Hf. unfold abs_chan.
  assert (Htg : target w' = target w) by (unfold target; by rewrite H0).
  rewrite Htg, H0, Hm, (mailbox_msg_frame _ _ Hf).
  destruct (awaiting _); [|done].
  destruct (decide (h_pc (mw_harts w' (target w)) = O_send)), (decide (h_pc (mw_harts w (target w)) = O_send));
    tauto || done.
Qed.

(** A step of the waiting primary that stays in [wait_ipi] and keeps
    [to_hartid]. *)
Lemma abs_chan_prim w hs' c' :
  target w <> ZERO_HART ->
  awaiting (h_pc (mw_harts w ZERO_HART)) = true -> awaiting (h_pc hs') = true ->
  h_to hs' = h_to (mw_harts w ZERO_HART) ->
  (h_pc hs' = T_wait_clear <-> h_pc (mw_harts w ZERO_HART) = T_wait_clear) ->
  msip_word (cmach c') ZERO_HART = msip w ZERO_HART -> clint_frame (mw_mach w) (cmach c') ->
  abs_chan (upd w ZERO_HART hs' c' (mw_uart w)) = abs_chan w.
Proof.
  intros Ht Ha Ha' Hto Hc Hm Hf. unfold abs_chan, target in *.
  rewrite !mw_harts_upd, decide_True by done. rewrite Hto, (decide_False (P := Z.to_nat (h_to (mw_harts w ZERO_HART)) = ZERO_HART)) by done.
  rewrite Ha, Ha', msip_upd, Hm, mw_mach_upd, (mailbox_msg_frame _ _ Hf).
  destruct (decide (_ = O_send)); [done|].
  destruct (decide (msip w ZERO_HART = 0 /\ h_pc hs' <> T_wait_clear)),
    (decide (msip w ZERO_HART = 0 /\ h_pc (mw_harts w ZERO_HART) <> T_wait_clear)); tauto || done.
Qed.

(** Leaving the print loop is the only way into the acknowledgement. *)
Lemma O_send_step buf j w w' :
  mstep_hart buf j w = Some w' -> h_pc (mw_harts w' j) = O_send ->
  h_pc (mw_harts w j) = O_print /\ byte_at (mw_mach w) (h_s (mw_harts w j)) = 0.
Proof.
  intros Hs Hp. pose proof (mstep_hart_next _ _ _ _ Hs) as Hn. rewrite Hp in Hn.
  apply O_send_next in Hn. split; [done|].
  unfold mstep_hart in Hs. cbv beta zeta in Hs. rewrite Hn in Hs.
  destruct (decide _) as [|Hb]; [done|]. apply say_inv in Hs as (? & _ & ->).
  rewrite mw_harts_upd, decide_True in Hp by done. discriminate.
Qed.

(** The C string in the mailbox is the one in the line buffer. *)
Lemma mailbox_cstr buf m L : mailbox_holds buf m L -> cstr_at m SMP_ADDR L.
Proof.
  intros HL. pose proof HL as (_ & [Hnz Hz] & _). split.
  - intros i Hi. rewrite (mailbox_byte buf m L i HL) by lia. auto.
  - by rewrite (mailbox_byte buf m L L HL).
Qed.

Lemma mailbox_msg_holds buf m L : mailbox_holds buf m L -> mailbox_msg m = load_list m SMP_ADDR L.
Proof.
  intros HL. apply cstring_load; [by apply (mailbox_cstr buf)|].
  destruct HL as [HL _]. revert HL. unfold BUFSIZE, SMP_SIZE. lia.
Qed.

(** The mailbox's C string is the line's. *)
Lemma mailbox_msg_line buf m L :
  mailbox_holds buf m L -> mailbox_msg m = cstring (Z.to_nat BUFSIZE) m buf.
Proof.
  intros HL. rewrite (mailbox_msg_holds buf m L HL).
  pose proof HL as (HLb & Hc & Hl). rewrite (cstring_load _ m buf L Hc) by (revert HLb; unfold BUFSIZE; lia).
  by rewrite (load_list_take m SMP_ADDR L (S L)), Hl, <- load_list_take by lia.
Qed.

(** ** The simulation *)

Section Refinement.
Variable buf : Z.
Hypothesis Hbuf_smp : buf + BUFSIZE <= SMP_ADDR \/ SMP_ADDR + SMP_SIZE <= buf.
Hypothesis Hbuf_clint : buf + BUFSIZE <= CLINT_CTRL_ADDR \/ CLINT_CTRL_ADDR + CLINT_CTRL_SIZE <= buf.

(** A secondary's step writes at most CLINT words, and hart 0's only
    when it acknowledges. *)
Lemma sec_step w j w' :
  minv buf w -> hart_ok j -> j <> ZERO_HART -> mstep_hart buf j w = Some w' ->
  clint_frame (mw_mach w) (mw_mach w') /\
  (h_pc (mw_harts w j) <> O_send -> msip w' ZERO_HART = msip w ZERO_HART).
Proof.
  intros Hi Hj Hj0 Hs. pose proof (mi_prog buf w Hi j Hj) as Hprog.
  rewrite bool_decide_false in Hprog by done.
  unfold mstep_hart in Hs. cbv beta zeta in Hs.
  destruct (h_pc (mw_harts w j)) eqn:Hpc; try discriminate Hprog;
    repeat first [ apply say_inv in Hs as (? & _ & Hs) | apply move_inv in Hs
                 | injection Hs as Hs | case_match ]; subst;
    rewrite ?mw_mach_upd, ?msip_upd; (split; [|intros Hns]);
    try (assert (Hb : clint_base (mw_clint w) = CLINT_CTRL_ADDR)
           by (apply (mi_base buf w Hi j Hj); by rewrite Hpc));
    unfold clint_clear_soft, clint_send_soft, clint_init in *; cbn [cmach] in *;
    first [ apply clint_frame_refl | reflexivity | done
          | (apply clint_frame_write; hart_tac)
          | (rewrite clint_write_msip, decide_False by hart_tac; reflexivity) ].
Qed.

(** A secondary's step: its acknowledgement, its last print
    iteration, or a silent step. *)
Lemma sim_secondary w j w' :
  minv buf w -> hart_ok j -> j <> ZERO_HART -> mstep_hart buf j w = Some w' ->
  match mlabel j w with
  | None => abs_chan w' = abs_chan w
  | Some e => cstep (abs_chan w) e (abs_chan w')
  end.
Proof.
  intros Hi Hj Hj0 Hs. destruct (sec_step w j w' Hi Hj Hj0 Hs) as [Hf Hm0].
  assert (H0 : mw_harts w' ZERO_HART = mw_harts w ZERO_HART) by (apply (mstep_hart_frame buf j); [done|hart_tac]).
  destruct (decide (h_pc (mw_harts w j) = O_send)) as [Hsend|Hsend].
  - (* the acknowledgement *)
    destruct (holding_inv buf w j Hi Hj Hj0 ltac:(by rewrite Hsend)) as (Ha & Ht & _).
    assert (Hb : clint_base (mw_clint w) = CLINT_CTRL_ADDR) by (apply (mi_base buf w Hi j Hj); by rewrite Hsend).
    unfold mlabel. cbv zeta. rewrite Hsend.
    assert (Hw : abs_chan w = Delivered j) by (unfold abs_chan; rewrite Ha, <- Ht, decide_True; done).
    unfold mstep_hart in Hs. cbv beta zeta in Hs. rewrite Hsend in Hs. injection Hs as <-.
    rewrite Hw. replace (abs_chan _) with Idle; [constructor|]. symmetry.
    unfold abs_chan. rewrite mw_harts_upd, decide_False, Ha by hart_tac.
    rewrite (target_upd_secondary _ _ _ _ _ Hj0), <- Ht, mw_harts_upd, (decide_True (P := j = j)) by done.
    cbn [h_pc goto]. rewrite decide_False by done.
    rewrite msip_upd. unfold clint_send_soft. rewrite clint_write_msip, (decide_True (P := ZERO_HART = ZERO_HART)) by hart_tac.
    rewrite decide_False; [done|]. intros [Hz _]. by vm_compute in Hz.
  - destruct (decide (h_pc (mw_harts w j) = O_print /\ byte_at (mw_mach w) (h_s (mw_harts w j)) = 0))
      as [[Hp Hz]|Hnp].
    + (* the end of uart_puts(SMP_ADDR) *)
      destruct (holding_inv buf w j Hi Hj Hj0 ltac:(by rewrite Hp)) as (Ha & Ht & H0m & Hc & _ & L & HL & Hpr).
      destruct (Hpr (or_introl Hp)) as (pre & k & Hsk & Hk & _ & _).
      assert (Hkl : k = L).
      { destruct (decide (k = L)) as [|Hne]; [done|]. exfalso.
        destruct (mailbox_cstr buf _ L HL) as [Hnz _]. apply (Hnz k); [lia|]. by rewrite <- Hsk. }
      subst k. unfold mlabel. cbv zeta. rewrite Hp, decide_True by done.
      rewrite Hsk, Z.add_simpl_l, Nat2Z.id, <- (mailbox_msg_holds buf _ L HL).
      assert (Hw : abs_chan w = Sent j (mailbox_msg (mw_mach w))).
      { unfold abs_chan. rewrite Ha, <- Ht, decide_False by (by rewrite Hp). by rewrite decide_True. }
      unfold mstep_hart in Hs. cbv beta zeta in Hs. rewrite Hp, decide_True in Hs by done.
      apply move_inv in Hs as ->. rewrite Hw.
      replace (abs_chan _) with (Delivered j); [constructor|].
      unfold abs_chan. rewrite mw_harts_upd, decide_False by hart_tac. rewrite Ha.
      rewrite (target_upd_secondary _ _ _ _ _ Hj0), <- Ht, mw_harts_upd, (decide_True (P := j = j)) by done. cbn [h_pc goto]. by rewrite decide_True.
    + (* a silent step *)
      assert (Hl : mlabel j w = None).
      { pose proof (mi_prog buf w Hi j Hj) as Hprog. rewrite bool_decide_false in Hprog by done.
        unfold mlabel. cbv zeta. destruct (h_pc (mw_harts w j)); try done.
        case_decide; [|done]. exfalso. by apply Hnp. }
      rewrite Hl. apply abs_chan_ext; [done| |by apply Hm0|done].
      destruct (decide (j = target w)) as [<-|Hne].
      * split; intros Hx; [|done]. exfalso. apply Hnp. apply (O_send_step buf j w w' Hs Hx).
      * by rewrite (mstep_hart_frame buf j w w' (target w) Hs) by congruence.
Qed.

(** While hart 0's [msip] is up, the channel is idle. *)
Lemma abs_chan_raised w : minv buf w -> msip w ZERO_HART <> 0 -> abs_chan w = Idle.
Proof.
  intros Hi Hm. unfold abs_chan. destruct (awaiting _) eqn:Ha; [|done].
  destruct (target_hart buf w Hi Ha) as (Ht & Ht0 & _).
  destruct (decide (h_pc (mw_harts w (target w)) = O_send)) as [E|E].
  - by destruct (holding_inv buf w (target w) Hi Ht Ht0 ltac:(by rewrite E)) as (_ & _ & H0 & _).
  - rewrite decide_False; [done|]. tauto.
Qed.

(** The primary's step: its raise sends, every other step is silent. *)
Lemma sim_primary w w' :
  minv buf w -> mstep_hart buf ZERO_HART w = Some w' ->
  match mlabel ZERO_HART w with
  | None => abs_chan w' = abs_chan w
  | Some e => cstep (abs_chan w) e (abs_chan w')
  end.
Proof.
  intros Hi Hs. pose proof (minv_step_primary buf Hbuf_smp Hbuf_clint w w' Hi Hs) as Hi'.
  pose proof (mi_prog buf w Hi ZERO_HART ltac:(hart_tac)) as Hprog.
  rewrite bool_decide_true in Hprog by done.
  destruct (decide (h_pc (mw_harts w ZERO_HART) = T_send)) as [Hsend|Hsend].
  - (* the raise *)
    pose proof (mi_to buf w Hi ltac:(by rewrite Hsend)) as Hto.
    destruct (mi_idle buf w Hi ltac:(by rewrite Hsend)) as [H0 Hidle].
    assert (Hb : clint_base (mw_clint w) = CLINT_CTRL_ADDR)
      by (apply (mi_base buf w Hi ZERO_HART); [hart_tac|by rewrite Hsend]).
    assert (Htok : hart_ok (target w)) by (unfold target; hart_tac).
    assert (Ht0 : target w <> ZERO_HART) by (unfold target; hart_tac).
    assert (Hto' : h_to (mw_harts w ZERO_HART) = Z.of_nat (target w)) by (unfold target; lia).
    unfold mlabel. cbv zeta. rewrite Hsend, abs_chan_idle by (by rewrite Hsend).
    unfold mstep_hart in Hs. cbv beta zeta in Hs. rewrite Hsend in Hs. injection Hs as <-.
    rewrite Hto'. unfold clint_send_soft.
    set (w' := upd w ZERO_HART _ _ _).
    assert (Htw : target w' = target w) by (subst w'; unfold target; rewrite mw_harts_upd, decide_True; [cbn; lia|done]).
    replace (abs_chan w') with (Sent (target w) (cstring (Z.to_nat BUFSIZE) (mw_mach w) (h_line (mw_harts w ZERO_HART)))); [by constructor|].
    unfold abs_chan. rewrite Htw. subst w'. rewrite mw_harts_upd, (decide_True (P := ZERO_HART = ZERO_HART)) by done.
    rewrite mw_harts_upd, (decide_False (P := target w = ZERO_HART)) by done.
    cbn [h_pc goto awaiting]. destruct (Hidle (target w) Htok Ht0) as [_ Hh].
    rewrite decide_False by (intros E; by rewrite E in Hh).
    rewrite msip_upd, clint_write_msip, (decide_False (P := ZERO_HART = target w)) by hart_tac.
    rewrite decide_True by done. rewrite mw_mach_upd. f_equal.
    rewrite (mailbox_msg_frame _ _ (clint_frame_write _ _ _ Hb Htok)).
    change (cmach (mw_clint w)) with (mw_mach w).
    destruct (mi_loaded buf w Hi ltac:(by rewrite Hsend)) as [L HL].
    rewrite (mailbox_msg_line buf _ L HL). f_equal. apply (mi_line buf w Hi). by rewrite Hsend.
  - assert (Hl : mlabel ZERO_HART w = None).
    { unfold mlabel. cbv zeta. by destruct (h_pc (mw_harts w ZERO_HART)). }
    rewrite Hl. destruct (awaiting (h_pc (mw_harts w ZERO_HART))) eqn:Ha.
    + destruct (target_hart buf w Hi Ha) as (_ & Ht0 & _).
      unfold mstep_hart in Hs. cbv beta zeta in Hs.
      destruct (h_pc (mw_harts w ZERO_HART)) eqn:Hpc; try discriminate Ha.
      * (* wait_ipi's test *)
        apply move_inv in Hs as ->. destruct (mip_pending (mw_mach w) ZERO_HART) eqn:Hp.
        -- apply mip_pending_set in Hp. rewrite (abs_chan_raised w Hi Hp).
           apply abs_chan_raised; [exact Hi'|exact Hp].
        -- apply abs_chan_prim; rewrite ?Hpc; try done; split; discriminate.
      * (* wfi *)
        destruct (wfi_resumes _ _ _); [|done]. apply move_inv in Hs as ->.
        apply abs_chan_prim; rewrite ?Hpc; try done; split; discriminate.
      * (* clint_clear_soft(hartid) after the wait *)
        injection Hs as <-. rewrite abs_chan_idle by (rewrite mw_harts_upd, decide_True; done).
        symmetry. unfold abs_chan. rewrite Hpc, Ha.
        destruct (decide (h_pc (mw_harts w (target w)) = O_send)) as [E|E].
        -- destruct (target_hart buf w Hi ltac:(by rewrite Hpc)) as (Ht & _).
           destruct (holding_inv buf w (target w) Hi Ht Ht0 ltac:(by rewrite E)) as (_ & _ & _ & Hc & _).
           by rewrite Hpc in Hc.
        -- rewrite decide_False; [done|]. tauto.
    + rewrite !abs_chan_idle; [done|done|].
      destruct (awaiting (h_pc (mw_harts w' ZERO_HART))) eqn:Ha'; [|done].
      destruct (awaiting_next _ _ (mstep_hart_next _ _ _ _ Hs) Ha'); congruence.
Qed.

(** The simulation diagram: a silent step keeps the channel state, a
    labelled step is a step of the channel. *)
Lemma mailbox_simulation w h w' :
  minv buf w -> hart_ok h -> mstep_hart buf h w = Some w' ->
  match mlabel h w with
  | None => abs_chan w' = abs_chan w
  | Some e => cstep (abs_chan w) e (abs_chan w')
  end.
Proof.
  intros Hi Hh Hs. destruct (decide (h = ZERO_HART)) as [->|Hh0].
  - by apply sim_primary.
  - by apply sim_secondary.
Qed.

(** A spurious return from [wfi] keeps the channel. *)
Lemma sim_spurious w h w' :
  minv buf w -> hart_ok h -> wfi_spurious h w = Some w' -> abs_chan w' = abs_chan w.
Proof.
  intros Hi Hh Hs. pose proof (mi_prog buf w Hi h Hh) as Hprog. unfold wfi_spurious in Hs.
  destruct (h_pc (mw_harts w h)) eqn:Hpc; try discriminate Hs; apply move_inv in Hs as ->;
    symmetry in Hprog.
  - apply bool_decide_eq_true_1 in Hprog. subst h.
    destruct (target_hart buf w Hi ltac:(by rewrite Hpc)) as (_ & Ht0 & _).
    apply abs_chan_prim; rewrite ?Hpc; try done; split; discriminate.
  - apply bool_decide_eq_false_1 in Hprog as Hh0. apply abs_chan_ext.
    + rewrite mw_harts_upd. by rewrite decide_False.
    + rewrite mw_harts_upd. destruct (decide (target w = h)) as [<-|]; [|done].
      rewrite Hpc. cbn. split; discriminate.
    + reflexivity.
    + apply clint_frame_refl.
Qed.

Lemma abs_chan_init w : minit w -> abs_chan w = Idle.
Proof.
  intros H0. apply abs_chan_idle. destruct (H0 ZERO_HART ltac:(hart_tac)) as [-> _]. done.
Qed.

(** C3: refinement of the channel.  From reset, the channel events of
    every execution of the five harts (sends at the primary's raise,
    receptions at the end of the target's print loop, acknowledgements)
    form a run of the specification's channel: each message is
    received by the hart it was sent to, with exactly the bytes of the
    line the primary read, then acknowledged, before the next send. *)
Theorem mailbox_refines_channel w0 evs w :
  minit w0 -> mtrace buf w0 evs w -> crun Idle evs (abs_chan w).
Proof.
  intros H0 Htr. cut (minv buf w /\ crun Idle evs (abs_chan w)); [by intros []|].
  induction Htr as [w|w0' evs w h w' Htr IH Hh Hs|w0' evs w h w' Htr IH Hh Hs].
  - split; [by apply minv_init|]. rewrite abs_chan_init by done. constructor.
  - destruct (IH H0) as [Hi Hr]. split; [apply (minv_step buf Hbuf_smp Hbuf_clint w); [done|by eapply mstep_intro]|].
    pose proof (mailbox_simulation w h w' Hi Hh Hs) as Hsim.
    destruct (mlabel h w) as [e|]; cbn [option_list].
    + by eapply crun_snoc.
    + by rewrite app_nil_r, Hsim.
  - destruct (IH H0) as [Hi Hr]. split; [apply (minv_step buf Hbuf_smp Hbuf_clint w); [done|by eapply mstep_wfi]|].
    by rewrite (sim_spurious w h w' Hi Hh Hs).
Qed.

End Refinement.

(** ** Executions with their events *)

(** Run a schedule as [mrun] does, collecting the channel events. *)
Fixpoint mrun_ev (buf : Z) (sched : list nat) (evs : list cevent) (w : mworld) : list cevent * mworld :=
  match sched with
  | [] => (evs, w)
  | h :: sched' =>
      if decide (hart_ok h) then
        match mstep_hart buf h w with
        | Some w' => mrun_ev buf sched' (evs ++ option_list (mlabel h w)) w'
        | None => mrun_ev buf sched' evs w
        end
      else mrun_ev buf sched' evs w
  end.

Lemma mrun_ev_trace buf sched w0 evs w :
  mtrace buf w0 evs w -> mtrace buf w0 (mrun_ev buf sched evs w).1 (mrun_ev buf sched evs w).2.
Proof.
  revert evs w. induction sched as [|h sched IH]; intros evs w Htr; cbn [mrun_ev]; [done|].
  case_decide; [|by apply IH]. destruct (mstep_hart buf h w) eqn:E; [|by apply IH].
  apply IH. by econstructor.
Qed.

(** A round trip from reset: hart 1 receives "yo" and
    acknowledges. *)
Definition round_trip_run : list cevent * mworld :=
  mrun_ev test_buf (delivery_sched ++ repeat 1%nat 3 ++ repeat 0%nat 8) [] (mailbox_boot mailbox_rx).

Lemma mailbox_refines_channel_witness :
  round_trip_run.1 = [ESend 1 [121; 111]; ERecv 1 [121; 111]; EAck 1] /\
  minit (mailbox_boot mailbox_rx) /\ mtrace test_buf (mailbox_boot mailbox_rx) round_trip_run.1 round_trip_run.2 /\
  crun Idle round_trip_run.1 (abs_chan round_trip_run.2).
Proof.
  assert (Hi : minit (mailbox_boot mailbox_rx)) by apply mailbox_boot_minit.
  assert (Ht : mtrace test_buf (mailbox_boot mailbox_rx) round_trip_run.1 round_trip_run.2)
    by (apply mrun_ev_trace; constructor).
  split; [vm_compute; reflexivity|]. split; [exact Hi|]. split; [exact Ht|].
  exact (mailbox_refines_channel test_buf test_buf_smp test_buf_clint _ _ _ Hi Ht).
Defined.
