(* ===== verification/SmpCopy.v ===== *)
(** * [smp_memcpy], [main.c]

    The byte copy through the ordered accessors of [io.h]:
    [while (n-- > 0) { writeb(readb(s), d); s++, d++; }].  Each byte is
    a [readb] (load, then [fence i,r]) and a [writeb] ([fence w,o],
    then store).  [main] copies the mailbox with the plain [memcpy] of
    [string.c] instead; [smp_memcpy] is not called.

    Theorems: on memory [smp_memcpy] does exactly what [memcpy] does,
    for every overlap, and its accesses keep a fenced trace fenced. *)

From S2P Require Import Prelude Platform Mmio StringLib.

(** The loop, from the pointers [d] and [s], for [k] iterations. *)
Fixpoint smp_copy (k : nat) (d s : Z) (m : mach) : mach :=
  match k with
  | O => m
  | S k' => let '(v, m1) := readb s m in smp_copy k' (d + 1) (s + 1) (writeb v d m1)
  end.

Definition smp_memcpy (dst src n : Z) (m : mach) : Z * mach :=
  (dst, smp_copy (Z.to_nat n) dst src m).

(** ** One iteration *)

Lemma load_bytes_1 m a : load_bytes m a 1 = u8[default 0 (m !! a)].
Proof.
  change (load_bytes m a 1) with (Z.lor u8[default 0 (m !! a)] (Z.shiftl 0 8)).
  by rewrite Z.shiftl_0_l, Z.lor_0_r.
Qed.

Lemma store_bytes_1 m a v : store_bytes m a 1 v = <[a := u8[v]]> m.
Proof. reflexivity. Qed.

Lemma readb_byte s m : fst (readb s m) = byte_at m s.
Proof. unfold readb. rewrite read_value. apply load_bytes_1. Qed.

(** One [writeb(readb(s), d)] stores what [*d = *s] stores. *)
Lemma smp_step_mem d s m :
  mem (writeb (fst (readb s m)) d (snd (readb s m))) = mem (plain_store d (byte_at m s) m).
Proof.
  rewrite readb_byte. unfold writeb, readb. rewrite write_mem, read_mem, mem_plain_store.
  cbn [width_bytes width_bits]. rewrite store_bytes_1. unfold byte_at. by rewrite !wrap_idem.
Qed.

(** [copy_fwd]'s memory depends on the memory only. *)
Lemma copy_fwd_mem_ext k d s m m' :
  mem m = mem m' -> mem (copy_fwd k d s m) = mem (copy_fwd k d s m').
Proof.
  revert d s m m'. induction k as [|k IH]; intros d s m m' H; [done|]. simpl. apply IH.
  rewrite !mem_plain_store. unfold byte_at. by rewrite H.
Qed.

Lemma smp_copy_mem k d s m : mem (smp_copy k d s m) = mem (copy_fwd k d s m).
Proof.
  revert d s m. induction k as [|k IH]; intros d s m; [done|]. cbn [smp_copy copy_fwd].
  destruct (readb s m) as [v m1] eqn:E. rewrite IH. apply copy_fwd_mem_ext.
  replace v with (fst (readb s m)) by by rewrite E.
  replace m1 with (snd (readb s m)) by by rewrite E. apply smp_step_mem.
Qed.

Lemma smp_copy_fenced k d s m : fenced (trace m) -> fenced (trace (smp_copy k d s m)).
Proof.
  revert d s m. induction k as [|k IH]; intros d s m H; [done|]. cbn [smp_copy].
  destruct (readb s m) as [v m1] eqn:E. apply IH, write_fenced.
  replace m1 with (snd (readb s m)) by by rewrite E. by apply read_fenced.
Qed.

(** ** Theorems *)

(** C17: [smp_memcpy] and [memcpy] agree: both return [dst] and leave
    the same memory, whatever the overlap of the buffers. *)
Theorem smp_memcpy_memcpy dst src n m :
  fst (smp_memcpy dst src n m) = fst (memcpy dst src n m) /\
  mem (snd (smp_memcpy dst src n m)) = mem (snd (memcpy dst src n m)).
Proof. split; [done|]. apply smp_copy_mem. Qed.

(** C18: every access of [smp_memcpy] goes through the ordered
    accessors: it extends a fenced trace to a fenced trace. *)
Theorem smp_memcpy_fenced dst src n m :
  fenced (trace m) -> fenced (trace (snd (smp_memcpy dst src n m))).
Proof. apply smp_copy_fenced. Qed.

(** ** Witnesses *)

Lemma smp_memcpy_fenced_witness :
  fenced (trace hello_mach) /\ fenced (trace (snd (smp_memcpy 200 100 6 hello_mach))).
Proof. split; [constructor|]. apply smp_memcpy_fenced. constructor. Defined.
