(* ===== verification/Trap.v ===== *)
(** * The trap frame, [trap/trap.h], and the trap causes of [include/riscv.h]

    [struct trap_regs] (the 32 general registers, [mepc], [mstatus])
    and [struct trap_info] ([epc], [cause], [tval], [tval2], [tinst])
    are records of 64-bit [reg_size_t] fields, with the offsets of
    their C layout (8-byte fields in declaration order, no padding).
    The interrupt numbers [IRQ_*]
    and exception codes [CAUSE_*] of [riscv.h] are enumerations with
    their codes.  The register numbers [REG_*] name the 32 slots of
    [regs].  The empty [trap_handler] of [main.c] takes no frame; the
    trap entry and exit that would save and restore the frame are not
    part of the sources, and nothing in them decodes [mcause]; none of
    these is modelled.

    Lemmas: the register numbers are the slots [0 .. 31], one to one. *)

From S2P Require Import Prelude Platform.

(** ** [struct trap_regs], [struct trap_info] *)

Record trap_regs := TrapRegs { regs : list Z; mepc : Z; mstatus : Z }.

Record trap_info := TrapInfo { epc : Z; cause : Z; tval : Z; tval2 : Z; tinst : Z }.

(** [sizeof(reg_size_t)]. *)
Definition REG_BYTES : nat := 8.

(** [offsetof]: [regs[i]] at [8 i], then [mepc], then [mstatus]. *)
Definition off_reg (i : nat) : Z := Z.of_nat (REG_BYTES * i).
Definition off_mepc : Z := Z.of_nat (REG_BYTES * REG_NUM).
Definition off_mstatus : Z := off_mepc + Z.of_nat REG_BYTES.
Definition sizeof_trap_regs : Z := off_mstatus + Z.of_nat REG_BYTES.

(** The register numbers [REG_ZERO] .. [REG_T6] of [riscv.h]: the
    index of each ABI register in [regs[REG_NUM]]. *)
Inductive gpr :=
| REG_ZERO | REG_RA | REG_SP | REG_GP | REG_TP | REG_T0 | REG_T1 | REG_T2
| REG_S0 | REG_S1 | REG_A0 | REG_A1 | REG_A2 | REG_A3 | REG_A4 | REG_A5
| REG_A6 | REG_A7 | REG_S2 | REG_S3 | REG_S4 | REG_S5 | REG_S6 | REG_S7
| REG_S8 | REG_S9 | REG_S10 | REG_S11 | REG_T3 | REG_T4 | REG_T5 | REG_T6.

#[export] Instance gpr_eq_dec : EqDecision gpr.
Proof. solve_decision. Defined.

Definition gpr_index (r : gpr) : nat :=
  match r with
  | REG_ZERO => 0 | REG_RA => 1 | REG_SP => 2 | REG_GP => 3 | REG_TP => 4 | REG_T0 => 5
  | REG_T1 => 6 | REG_T2 => 7 | REG_S0 => 8 | REG_S1 => 9 | REG_A0 => 10 | REG_A1 => 11
  | REG_A2 => 12 | REG_A3 => 13 | REG_A4 => 14 | REG_A5 => 15 | REG_A6 => 16 | REG_A7 => 17
  | REG_S2 => 18 | REG_S3 => 19 | REG_S4 => 20 | REG_S5 => 21 | REG_S6 => 22 | REG_S7 => 23
  | REG_S8 => 24 | REG_S9 => 25 | REG_S10 => 26 | REG_S11 => 27 | REG_T3 => 28 | REG_T4 => 29
  | REG_T5 => 30 | REG_T6 => 31
  end.

Definition all_gprs : list gpr :=
  [REG_ZERO; REG_RA; REG_SP; REG_GP; REG_TP; REG_T0; REG_T1; REG_T2; REG_S0; REG_S1; REG_A0;
   REG_A1; REG_A2; REG_A3; REG_A4; REG_A5; REG_A6; REG_A7; REG_S2; REG_S3; REG_S4; REG_S5;
   REG_S6; REG_S7; REG_S8; REG_S9; REG_S10; REG_S11; REG_T3; REG_T4; REG_T5; REG_T6].

(** ** Trap causes *)

Inductive irq :=
| IRQ_S_SOFT | IRQ_VS_SOFT | IRQ_M_SOFT' | IRQ_S_TIMER | IRQ_VS_TIMER | IRQ_M_TIMER'
| IRQ_S_EXT | IRQ_VS_EXT | IRQ_M_EXT | IRQ_S_GEXT | IRQ_PMU_OVF.

Definition irq_code (i : irq) : Z :=
  match i with
  | IRQ_S_SOFT => 1 | IRQ_VS_SOFT => 2 | IRQ_M_SOFT' => IRQ_M_SOFT | IRQ_S_TIMER => 5
  | IRQ_VS_TIMER => 6 | IRQ_M_TIMER' => IRQ_M_TIMER | IRQ_S_EXT => 9 | IRQ_VS_EXT => 10
  | IRQ_M_EXT => 11 | IRQ_S_GEXT => 12 | IRQ_PMU_OVF => 13
  end.

Inductive exc :=
| CAUSE_MISALIGNED_FETCH | CAUSE_FETCH_ACCESS | CAUSE_ILLEGAL_INSTRUCTION | CAUSE_BREAKPOINT
| CAUSE_MISALIGNED_LOAD | CAUSE_LOAD_ACCESS | CAUSE_MISALIGNED_STORE | CAUSE_STORE_ACCESS
| CAUSE_USER_ECALL | CAUSE_SUPERVISOR_ECALL | CAUSE_MACHINE_ECALL | CAUSE_FETCH_PAGE_FAULT
| CAUSE_LOAD_PAGE_FAULT | CAUSE_STORE_PAGE_FAULT.

Definition exc_code (e : exc) : Z :=
  match e with
  | CAUSE_MISALIGNED_FETCH => 0 | CAUSE_FETCH_ACCESS => 1 | CAUSE_ILLEGAL_INSTRUCTION => 2
  | CAUSE_BREAKPOINT => 3 | CAUSE_MISALIGNED_LOAD => 4 | CAUSE_LOAD_ACCESS => 5
  | CAUSE_MISALIGNED_STORE => 6 | CAUSE_STORE_ACCESS => 7 | CAUSE_USER_ECALL => 8
  | CAUSE_SUPERVISOR_ECALL => 9 | CAUSE_MACHINE_ECALL => 11 | CAUSE_FETCH_PAGE_FAULT => 12
  | CAUSE_LOAD_PAGE_FAULT => 13 | CAUSE_STORE_PAGE_FAULT => 15
  end.

(** The register numbers name the frame's slots one to one: listed in
    order they are [0 .. REG_NUM - 1], every register is listed, and
    register [REG_A0] is at byte 80 of the frame, which takes 272
    bytes. *)
Lemma gpr_index_slots :
  gpr_index <$> all_gprs = seq 0 REG_NUM /\ (forall r, r ∈ all_gprs) /\
  off_reg (gpr_index REG_A0) = 80 /\ sizeof_trap_regs = 272.
Proof.
  split; [reflexivity|]. split; [|split; reflexivity].
  intros r. apply (bool_decide_unpack _). by destruct r.
Qed.

Lemma gpr_index_inj r1 r2 : gpr_index r1 = gpr_index r2 -> r1 = r2.
Proof. destruct r1, r2; cbn; congruence. Qed.

